(** * LNCA: the L402 gateway, the macaroon helper and the Cashu proof ledger

    A shallow embedding of the payment core of the repository:
    - [backend/services/cashu.js]       (class [CashuService]),
    - [backend/services/l402-gateway.js] (class [L402Gateway]),
    - [backend/services/macaroon.js]     (the macaroon helper),
    - [backend/services/ai-providers.js] (the provider router, the
      token-count fallback, the message conversion and the chat route),
    - [backend/routes/cashu.js]          (the mint, melt and send endpoints),
    - [backend/services/lnd.js]          (the invoices of the Lightning client),
    - [scripts/l402-client.js]           (the header of the client).

    Conventions.  A JavaScript integer is a [Z]; a number that may be [NaN]
    is a [number]; a property that may be [undefined] is an [option];
    a [Buffer] is a list of bytes; the instance fields of a service object
    are a record threaded through every method; an exception is a
    constructor of the method's result type.  Library primitives
    (SHA-256, HMAC-SHA256, JSON text and its reading, the random
    generator, the mint's HTTP replies) are parameters.  A plain object
    used as a map is a [gmap] of its own properties, and a lookup by a
    computed key also sees the members of [Object.prototype].

    Numbers that hold integers are integers here, and their sums and
    differences are exact; the code computes with doubles, which agree with
    it up to [2^53], and the theorems that depend on it are stated within
    that range.

    The modules of the model come first ([JS], [Hex], [Base64], [Macaroon],
    [L402], [Cashu], [Providers], [CashuRoutes], [CashuMint], [LND],
    [L402Credential], [Prepaid], [Caveats], [Chat], then the sample data of
    [Scenario] and [Samples]); the modules of properties follow. *)

From Stdlib Require Import ZArith NArith List Lia Lqa Bool Sorting.Sorted QArith Qround.
From Stdlib Require Import Strings.Ascii Strings.Byte DecimalString.
From stdpp Require Import base option list strings gmap.

Set Warnings "-register-all".
Set Default Proof Using "Type".
Local Open Scope Z_scope.

(** ** JavaScript values *)

Module JS.

(** A JavaScript number: an exact rational or [NaN].  The arithmetic below is
    exact; rounding of doubles and the infinities are not modelled. *)
Inductive number : Type :=
  | Num (q : Q)
  | NaN.

Definition ofZ (z : Z) : number := Num (inject_Z z).

(** The integers up to [2^53] in magnitude: a double holds each of them, and
    a sum or a difference of doubles that is one of them is computed without
    rounding. *)
Definition exact (z : Z) : Prop := - 2 ^ 53 <= z <= 2 ^ 53.

(** The double nearest to an integer (of magnitude below [2^1024]): an
    integer of more than 53 bits loses its low bits, rounded to the nearest
    significand, a tie going to the even one. *)
Definition roundDouble (z : Z) : Z :=
  let m := Z.abs z in
  let e := Z.log2 m - 52 in
  if e <=? 0 then z
  else
    let q := Z.shiftr m e in
    let r := m - Z.shiftl q e in
    let half := Z.shiftl 1 (e - 1) in
    let q' := if (half <? r) || ((half =? r) && Z.odd q) then q + 1 else q in
    Z.sgn z * Z.shiftl q' e.

(** [ToNumber] of a property that may be [undefined]. *)
Definition toNumber (v : option number) : number :=
  match v with
  | Some n => n
  | None => NaN
  end.

Definition mul (a b : number) : number :=
  match a, b with
  | Num x, Num y => Num (x * y)%Q
  | _, _ => NaN
  end.

Definition add (a b : number) : number :=
  match a, b with
  | Num x, Num y => Num (x + y)%Q
  | _, _ => NaN
  end.

(** [Math.ceil] *)
Definition Math_ceil (a : number) : number :=
  match a with
  | Num x => Num (inject_Z (Qceiling x))
  | NaN => NaN
  end.

(** [Math.max] of two arguments: [NaN] as soon as one argument is [NaN]. *)
Definition Math_max (a b : number) : number :=
  match a, b with
  | Num x, Num y => if Qle_bool x y then Num y else Num x
  | _, _ => NaN
  end.

(** Truthiness of a number that may be [undefined]: [undefined], [NaN] and
    zero are falsy. *)
Definition truthyNumber (v : option number) : bool :=
  match v with
  | Some (Num x) => negb (Qeq_bool x 0)
  | Some NaN => false
  | None => false
  end.

(** Truthiness of a string that may be [undefined]. *)
Definition truthyString (v : option string) : bool :=
  match v with
  | Some s => negb (String.eqb s "")
  | None => false
  end.

(** The value of [JSON.parse]. *)
Inductive json : Type :=
  | JNull
  | JBool (b : bool)
  | JNum (n : Z)
  | JStr (s : string)
  | JArr (items : list json)
  | JObj (fields : list (string * json)).

Fixpoint assoc {A : Type} (key : string) (fields : list (string * A)) : option A :=
  match fields with
  | [] => None
  | (k, v) :: rest => if String.eqb k key then Some v else assoc key rest
  end.

(** The outcome of an expression that may throw. *)
Inductive outcome (A : Type) : Type :=
  | Returns (a : A)
  | Throws.
Arguments Returns {A} a.
Arguments Throws {A}.

(** The property names every plain object inherits from [Object.prototype]. *)
Definition objectPrototypeKeys : list string :=
  [ "constructor"; "__defineGetter__"; "__defineSetter__"; "hasOwnProperty";
    "__lookupGetter__"; "__lookupSetter__"; "isPrototypeOf";
    "propertyIsEnumerable"; "toString"; "valueOf"; "__proto__";
    "toLocaleString" ]%string.

Definition inherited (key : string) : bool :=
  existsb (String.eqb key) objectPrototypeKeys.

(** [value.name] for a parsed JSON value and a name that no prototype
    defines: [null] throws, an object yields its own property, every other
    value yields [undefined]. *)
Definition getField (value : json) (name : string) : outcome (option json) :=
  match value with
  | JNull => Throws
  | JObj fields => Returns (assoc name fields)
  | _ => Returns None
  end.

(** [s.split(sep)] for a non-empty separator: [skip] counts the characters of
    a separator still to be passed over, [cur] holds the current piece in
    reverse. *)
Fixpoint splitGo (sep s : string) (skip : nat) (cur : string) : list string :=
  match s with
  | EmptyString => [String.rev cur]
  | String c s' =>
      match skip with
      | S k => splitGo sep s' k cur
      | O =>
          if String.prefix sep s
          then String.rev cur :: splitGo sep s' (String.length sep - 1) EmptyString
          else splitGo sep s' O (String c cur)
      end
  end.

Definition split (sep s : string) : list string := splitGo sep s O EmptyString.

(** [s.slice(n)] for [n >= 0]. *)
Fixpoint slice (n : nat) (s : string) : string :=
  match n, s with
  | O, _ => s
  | S n', String _ s' => slice n' s'
  | S _, EmptyString => EmptyString
  end.

End JS.

(** ** Buffers: hexadecimal and base64 text *)

Module Hex.

Definition hexDigit (n : N) : ascii :=
  ascii_of_N (if (n <? 10)%N then 48 + n else 87 + n)%N.

(** The value of a hexadecimal digit, in either case. *)
Definition unhex (c : ascii) : option N :=
  let n := N_of_ascii c in
  if ((48 <=? n) && (n <=? 57))%N then Some (n - 48)%N
  else if ((97 <=? n) && (n <=? 102))%N then Some (n - 87)%N
  else if ((65 <=? n) && (n <=? 70))%N then Some (n - 55)%N
  else None.

(** [buffer.toString('hex')] *)
Fixpoint toHex (bytes : list byte) : string :=
  match bytes with
  | [] => EmptyString
  | b :: rest =>
      let n := Byte.to_N b in
      String (hexDigit (n / 16)) (String (hexDigit (n mod 16)) (toHex rest))
  end.

(** [Buffer.from(s, 'hex')]: pairs of digits are decoded until the first
    pair that is not hexadecimal; a trailing single character is dropped. *)
Fixpoint fromHex (s : string) : list byte :=
  match s with
  | String a (String b rest) =>
      match unhex a, unhex b with
      | Some x, Some y =>
          match Byte.of_N (16 * x + y) with
          | Some byte => byte :: fromHex rest
          | None => []
          end
      | _, _ => []
      end
  | _ => []
  end.

End Hex.

Module Base64.

(** The character of a six-bit value in the standard alphabet
    [A-Z a-z 0-9 + /]. *)
Definition digit (n : N) : ascii :=
  if (n <? 26)%N then ascii_of_N (65 + n)
  else if (n <? 52)%N then ascii_of_N (71 + n)
  else if (n <? 62)%N then ascii_of_N (n - 4)
  else if (n =? 62)%N then "+"%char
  else "/"%char.

(** [buffer.toString('base64')]: three bytes give four characters, the last
    group is padded with [=]. *)
Fixpoint encode (bytes : list byte) : string :=
  match bytes with
  | a :: b :: c :: rest =>
      let x := Byte.to_N a in let y := Byte.to_N b in let z := Byte.to_N c in
      String (digit (x / 4))
        (String (digit ((x mod 4) * 16 + y / 16))
          (String (digit ((y mod 16) * 4 + z / 64))
            (String (digit (z mod 64)) (encode rest))))
  | [a; b] =>
      let x := Byte.to_N a in let y := Byte.to_N b in
      String (digit (x / 4))
        (String (digit ((x mod 4) * 16 + y / 16))
          (String (digit ((y mod 16) * 4)) (String "="%char EmptyString)))
  | [a] =>
      let x := Byte.to_N a in
      String (digit (x / 4))
        (String (digit ((x mod 4) * 16)) (String "="%char (String "="%char EmptyString)))
  | [] => EmptyString
  end.

(** The bytes of a string (its UTF-8 encoding: a string is held as its
    UTF-8 bytes), as in [Buffer.from(s)]. *)
Definition bytesOf (s : string) : list byte := String.list_byte_of_string s.

(** The standard alphabet. *)
Definition alphabet : string :=
  "ABCDEFGHIJKLMNOPQRSTUVWXYZabcdefghijklmnopqrstuvwxyz0123456789+/".

(** The six-bit value of a character of the standard alphabet or of the
    URL-safe one ([-] for [+], [_] for [/]), which the reader of Node accepts
    as well. *)
Definition undigit (c : ascii) : option N :=
  let n := N_of_ascii c in
  if ((65 <=? n) && (n <=? 90))%N then Some (n - 65)%N
  else if ((97 <=? n) && (n <=? 122))%N then Some (n - 71)%N
  else if ((48 <=? n) && (n <=? 57))%N then Some (n + 4)%N
  else if ((n =? 43) || (n =? 45))%N then Some 62%N
  else if ((n =? 47) || (n =? 95))%N then Some 63%N
  else None.

(** The six-bit values that [Buffer.from(s, 'base64')] reads: a character
    outside the alphabets is skipped, the first [=] ends the text. *)
Fixpoint sextets (s : string) : list N :=
  match s with
  | EmptyString => []
  | String c rest =>
      if Ascii.eqb c "="%char then []
      else match undigit c with
           | Some v => v :: sextets rest
           | None => sextets rest
           end
  end.

Definition byteOf (n : N) : byte := default "000"%byte (Byte.of_N (n mod 256)).

(** Four six-bit values give three bytes; of the values left over, two give
    one byte, three give two, and a single one is dropped. *)
Fixpoint packed (values : list N) : list byte :=
  match values with
  | a :: b :: c :: d :: rest =>
      byteOf (a * 4 + b / 16) :: byteOf ((b mod 16) * 16 + c / 4)
      :: byteOf ((c mod 4) * 64 + d) :: packed rest
  | [a; b; c] => [byteOf (a * 4 + b / 16); byteOf ((b mod 16) * 16 + c / 4)]
  | [a; b] => [byteOf (a * 4 + b / 16)]
  | _ => []
  end%N.

(** [Buffer.from(s, 'base64')] *)
Definition decode (s : string) : list byte := packed (sextets s).

(** [buffer.toString()]: the string of the bytes (a string is held as its
    UTF-8 bytes; the replacement of a sequence that is not UTF-8 by U+FFFD is
    not modelled). *)
Definition textOf (bytes : list byte) : string := String.string_of_list_byte bytes.

(** [JSON.parse(Buffer.from(s, 'base64').toString())] for a string [s], over
    [JSON.parse]; [None] when [JSON.parse] throws. *)
Definition parseJson (JSON_parse : string → option JS.json) (s : string) : option JS.json :=
  JSON_parse (textOf (decode s)).

End Base64.

(** ** The macaroon helper ([macaroon.js]) *)

Module Macaroon.

Record macaroon : Type := {
  location : string;
  identifier : string;
  caveats : list string;
  signature : string
}.

(** The object returned by [verifyMacaroon]: [{valid: true}], or
    [{valid: false, error}] with the three ways the error arises. *)
Inductive verdict : Type :=
  | Valid
  | CaveatFailed (caveat : string)
  | SignatureMismatch
  | Thrown.

Definition valid (v : verdict) : bool :=
  match v with
  | Valid => true
  | _ => false
  end.

(** A verifier supplied by the caller: it receives the value part of the
    caveat ([undefined] when the caveat has no [" = "]) and returns a truthy
    or falsy value, or throws. *)
Definition verifier : Type := option string → JS.outcome bool.

(** The own properties of the [verifiers] object. *)
Abbreviation verifiers := (gmap string verifier).

(** [verifiers[key](value)] when [key] is not an own property but one of the
    members inherited from [Object.prototype]; the boolean is the truthiness
    of the value returned.  [ToPropertyKey(undefined)] is ["undefined"]. *)
Definition callInherited (vs : verifiers) (key : string) (value : option string)
  : JS.outcome bool :=
  let name := default "undefined"%string value in
  if (String.eqb key "hasOwnProperty" || String.eqb key "propertyIsEnumerable")%bool
  then JS.Returns (bool_decide (is_Some (vs !! name)))
  else if String.eqb key "isPrototypeOf"
  then JS.Returns false
  else if (String.eqb key "__lookupGetter__" || String.eqb key "__lookupSetter__")%bool
  then JS.Returns (String.eqb name "__proto__" && bool_decide (vs !! name = None))
  else if (String.eqb key "__proto__" || String.eqb key "__defineGetter__"
           || String.eqb key "__defineSetter__")%bool
  then JS.Throws
  else if String.eqb key "toLocaleString"
  then match vs !! "toString"%string with
       | Some f => f None
       | None => JS.Returns true
       end
  else JS.Returns true.

(** [if (verifiers[key]) { if (!verifiers[key](value)) return ...; }]:
    [Returns true] when the caveat passes or no member is found. *)
Definition checkCaveat (vs : verifiers) (key : string) (value : option string)
  : JS.outcome bool :=
  match vs !! key with
  | Some f => f value
  | None => if JS.inherited key then callInherited vs key value else JS.Returns true
  end.

(** The key and the value [verifyMacaroon] reads from a caveat. *)
Definition caveatKey (caveat : string) : string :=
  default EmptyString (JS.split " = " caveat !! 0%nat).

Definition caveatValue (caveat : string) : option string :=
  JS.split " = " caveat !! 1%nat.

(** A caveat passes the check of a [verifiers] object. *)
Definition passes (vs : verifiers) (caveat : string) : Prop :=
  checkCaveat vs (caveatKey caveat) (caveatValue caveat) = JS.Returns true.

Section Engine.

(** [crypto.createHmac('sha256', key).update(message).digest()] *)
Variable hmac : list byte → string → list byte.

(** [createMacaroon(location, identifier, rootKey)] *)
Definition createMacaroon (loc ident : string) (rootKey : list byte) : macaroon :=
  {| location := loc;
     identifier := ident;
     caveats := [];
     signature := Hex.toHex (hmac rootKey ident) |}.

(** [addFirstPartyCaveat(macaroon, caveat)]: a new object is built from the
    fields of the old one. *)
Definition addFirstPartyCaveat (m : macaroon) (caveat : string) : macaroon :=
  {| location := location m;
     identifier := identifier m;
     caveats := caveats m ++ [caveat];
     signature := Hex.toHex (hmac (Hex.fromHex (signature m)) caveat) |}.

(** [addFirstPartyCaveat] applied to each caveat of a list in turn. *)
Definition attenuate (m : macaroon) (cs : list string) : macaroon :=
  fold_left addFirstPartyCaveat cs m.

(** The [for] loop of [verifyMacaroon]: the running signature, or the
    verdict of an early return. *)
Fixpoint chainCaveats (vs : verifiers) (sig : list byte) (cs : list string)
  : verdict + list byte :=
  match cs with
  | [] => inr sig
  | caveat :: rest =>
      let parts := JS.split " = " caveat in
      let key := default EmptyString (parts !! 0%nat) in
      let value := parts !! 1%nat in
      match checkCaveat vs key value with
      | JS.Throws => inl Thrown
      | JS.Returns false => inl (CaveatFailed caveat)
      | JS.Returns true => chainCaveats vs (hmac sig caveat) rest
      end
  end.

(** [verifyMacaroon(macaroon, rootKey, verifiers)] *)
Definition verifyMacaroon (m : macaroon) (rootKey : list byte) (vs : verifiers) : verdict :=
  match chainCaveats vs (hmac rootKey (identifier m)) (caveats m) with
  | inl v => v
  | inr sig =>
      if String.eqb (Hex.toHex sig) (signature m) then Valid else SignatureMismatch
  end.

(** The signature an untampered macaroon carries: the HMAC chain from the
    root key over the identifier and the caveats in order. *)
Definition chainSignature (rootKey : list byte) (ident : string) (cs : list string)
  : list byte :=
  fold_left hmac cs (hmac rootKey ident).

End Engine.

End Macaroon.

(** ** The L402 gateway ([l402-gateway.js]) *)

Module L402.

Record Tier : Type := {
  pricePerToken : option JS.number;
  name : option string;
  minPayment : option JS.number
}.

Record Invoice : Type := {
  r_hash : string;
  payment_request : string;
  invoice_preimage : option string
}.

(** A metered session, as stored by [createChallenge]. *)
Record Session : Type := {
  provider : string;
  maxTokens : JS.number;
  amountSats : JS.number;
  macaroon : string;
  invoice : string;
  preimage : option string;
  createdAt : Z;
  expiresAt : Z;
  paid : bool;
  used : bool;
  tokensUsed : option JS.number
}.

Record ProviderRevenue : Type := {
  requests : JS.number;
  tokens : JS.number;
  sats : JS.number
}.

(** The fields of the gateway object; [invoices] counts the invoices asked
    from the Lightning node so far.  [sessions] holds the sessions of
    [createChallenge]; the map that also holds the sessions of
    [createPrepaidSession] is that of [Prepaid]. *)
Record L402Gateway : Type := {
  pricingTiers : gmap string Tier;
  sessions : gmap string Session;
  revenue_total : JS.number;
  revenue_byProvider : gmap string ProviderRevenue;
  invoices : nat
}.

Definition tier (price : Z) (label : string) (minimum : option Z) : Tier :=
  {| pricePerToken := Some (JS.ofZ price);
     name := Some label;
     minPayment := JS.ofZ <$> minimum |}.

(** The tiers of the constructor, used when [options.pricingTiers] is absent. *)
Definition defaultTiers : gmap string Tier :=
  list_to_map
    [ ("oobabooga", tier 1 "Oobabooga (Local)" (Some 10));
      ("grok", tier 5 "Grok (xAI)" (Some 50));
      ("chatgpt", tier 3 "ChatGPT (OpenAI)" (Some 30));
      ("claude", tier 4 "Claude (Anthropic)" (Some 40)) ]%string.

(** The tiers passed by [server.js]. *)
Definition serverTiers : gmap string Tier :=
  list_to_map
    [ ("oobabooga", tier 1 "Oobabooga (Local)" None);
      ("grok", tier 5 "Grok (xAI)" None);
      ("chatgpt", tier 3 "ChatGPT (OpenAI)" None);
      ("claude", tier 4 "Claude (Anthropic)" None) ]%string.

Definition zeroRevenue : ProviderRevenue :=
  {| requests := JS.ofZ 0; tokens := JS.ofZ 0; sats := JS.ofZ 0 |}.

(** [new L402Gateway({lnd, pricingTiers})] *)
Definition newGateway (tiers : option (gmap string Tier)) : L402Gateway :=
  let tiers := default defaultTiers tiers in
  {| pricingTiers := tiers;
     sessions := ∅;
     revenue_total := JS.ofZ 0;
     revenue_byProvider := (λ _, zeroRevenue) <$> tiers;
     invoices := 0 |}.

(** What [pricingTiers[key]] finds on [Object.prototype] when [key] is not a
    tier: a function or an object, none of which has a price; a function has
    its own [name]. *)
Definition inheritedTier (key : string) : Tier :=
  {| pricePerToken := None;
     name := if String.eqb key "__proto__" then None
             else if String.eqb key "constructor" then Some "Object"%string
             else Some key;
     minPayment := None |}.

(** [this.pricingTiers[provider]], [None] for [undefined]. *)
Definition lookupTier (tiers : gmap string Tier) (key : string) : option Tier :=
  match tiers !! key with
  | Some t => Some t
  | None => if JS.inherited key then Some (inheritedTier key) else None
  end.

(** The result of [validateL402]. *)
Inductive validation : Type :=
  | ValidL402 (provider : string) (maxTokens amountPaid : JS.number) (paymentHash : string)
  | InvalidL402 (error : string).

Definition isValid (v : validation) : bool :=
  match v with
  | ValidL402 _ _ _ _ => true
  | InvalidL402 _ => false
  end.

Record Challenge : Type := {
  ch_macaroon : string;
  ch_invoice : string;
  ch_paymentHash : string;
  ch_amountSats : JS.number;
  ch_expiresAt : Z
}.

(** The request fields the middleware reads. *)
Record Request : Type := {
  authorization : option string;
  query_provider : option string;
  body_provider : option string;
  body_max_tokens : option JS.number
}.

(** What the middleware does with a request: [next()] with [req.l402] set,
    the 402 response, or the 500 response of its [catch]. *)
Inductive Response : Type :=
  | Next (l402 : validation)
  | PaymentRequired (provider : string) (challenge : Challenge)
  | ServerError.

Definition markPaid (s : Session) : Session :=
  {| provider := provider s; maxTokens := maxTokens s; amountSats := amountSats s;
     macaroon := macaroon s; invoice := invoice s; preimage := preimage s;
     createdAt := createdAt s; expiresAt := expiresAt s;
     paid := true; used := used s; tokensUsed := tokensUsed s |}.

Definition markUsed (s : Session) (n : JS.number) : Session :=
  {| provider := provider s; maxTokens := maxTokens s; amountSats := amountSats s;
     macaroon := macaroon s; invoice := invoice s; preimage := preimage s;
     createdAt := createdAt s; expiresAt := expiresAt s;
     paid := paid s; used := true; tokensUsed := Some n |}.

Definition withSessions (g : L402Gateway) (ss : gmap string Session) : L402Gateway :=
  {| pricingTiers := pricingTiers g; sessions := ss;
     revenue_total := revenue_total g; revenue_byProvider := revenue_byProvider g;
     invoices := invoices g |}.

Definition withRevenue (g : L402Gateway) (total : JS.number)
    (byProvider : gmap string ProviderRevenue) : L402Gateway :=
  {| pricingTiers := pricingTiers g; sessions := sessions g;
     revenue_total := total; revenue_byProvider := byProvider;
     invoices := invoices g |}.

(** [this.sessions.get(key)] for a key read from parsed JSON: the keys of
    the map are strings, so only a string finds a session. *)
Definition getSession {A : Type} (ss : gmap string A) (key : option JS.json)
  : option (string * A) :=
  match key with
  | Some (JS.JStr h) => (λ s, (h, s)) <$> ss !! h
  | _ => None
  end.

(** A header ["L402 <macaroon>:<preimage>"] with both parts present. *)
Definition wellFormed (authHeader macaroonB64 presented : string) : Prop :=
  ∃ rest, JS.split ":" (JS.slice 5 authHeader) = macaroonB64 :: presented :: rest
          ∧ macaroonB64 ≠ EmptyString ∧ presented ≠ EmptyString.

(** A request without credentials. *)
Definition anonymous (queryProvider bodyProvider : option string)
    (maxTokens : option JS.number) : Request :=
  {| authorization := None; query_provider := queryProvider;
     body_provider := bodyProvider; body_max_tokens := maxTokens |}.

(** The revenue of a provider after one more request of [n] tokens charged
    [charged] sats. *)
Definition credited (r : ProviderRevenue) (n charged : JS.number) : ProviderRevenue :=
  {| requests := JS.add (requests r) (JS.ofZ 1);
     tokens := JS.add (tokens r) n;
     sats := JS.add (sats r) charged |}.

Section Methods.

(** [crypto.createHash('sha256').update(buffer).digest()] *)
Variable sha256 : list byte → list byte.

(** [JSON.parse(Buffer.from(s, 'base64').toString())] for a string [s];
    [None] when [JSON.parse] throws. *)
Variable parseBase64Json : string → option JS.json.

(** The same for an array or an object in place of [s]; [None] when
    [Buffer.from] or [JSON.parse] throws. *)
Variable parseBufferFrom : JS.json → option JS.json.

(** [this.lnd.createInvoice(amountSats, memo, 600)]: the reply to the n-th
    request, [Throws] when the node fails. *)
Variable createInvoice : nat → JS.number → string → JS.outcome Invoice.

(** The memo [`L402: ${tier.name} API - ${estimatedTokens} tokens`]. *)
Variable memoText : option string → JS.number → string.

(** [createL402Macaroon({paymentHash, provider, maxTokens, expiresAt})] at
    the time given last. *)
Variable createL402Macaroon : string → string → JS.number → Z → Z → string.

(** [JSON.parse(Buffer.from(macaroon.identifier, 'base64').toString())] on
    the value of the property: [Buffer.from] throws on [undefined], [null],
    numbers and booleans. *)
Definition decodeIdentifier (v : option JS.json) : option JS.json :=
  match v with
  | Some (JS.JStr s) => parseBase64Json s
  | Some (JS.JArr items) => parseBufferFrom (JS.JArr items)
  | Some (JS.JObj fields) => parseBufferFrom (JS.JObj fields)
  | _ => None
  end.

(** The value of [identifier.paymentHash], when the macaroon and its
    identifier decode. *)
Definition paymentHashOf (macaroonB64 : string) (ph : option JS.json) : Prop :=
  ∃ mac idv ident,
    parseBase64Json macaroonB64 = Some mac
    ∧ JS.getField mac "identifier" = JS.Returns idv
    ∧ decodeIdentifier idv = Some ident
    ∧ JS.getField ident "paymentHash" = JS.Returns ph.

(** The hash the gateway compares with the payment hash: the SHA-256 of the
    bytes the presented preimage spells in hexadecimal, in hexadecimal. *)
Definition preimageHash (presented : string) : string :=
  Hex.toHex (sha256 (Hex.fromHex presented)).

(** The presented preimage is accepted for a session stored under [h]. *)
Definition accepted (presented h : string) (s : Session) : Prop :=
  preimage s = Some presented ∨ preimageHash presented = h.

Definition failed : validation := InvalidL402 "Validation failed".

(** [validateL402(authHeader)] at time [now]: the result and the gateway
    afterwards. *)
Definition validateL402 (g : L402Gateway) (now : Z) (authHeader : string)
  : validation * L402Gateway :=
  let token := JS.slice 5 authHeader in
  let parts := JS.split ":" token in
  let macaroonB64 := parts !! 0%nat in
  let preimage_ := parts !! 1%nat in
  if negb (JS.truthyString macaroonB64) || negb (JS.truthyString preimage_)
  then (InvalidL402 "Invalid L402 format", g)
  else
    let presented := default EmptyString preimage_ in
    match parseBase64Json (default EmptyString macaroonB64) with
    | None => (failed, g)
    | Some mac =>
        match JS.getField mac "identifier" with
        | JS.Throws => (failed, g)
        | JS.Returns idv =>
            match decodeIdentifier idv with
            | None => (failed, g)
            | Some ident =>
                match JS.getField ident "paymentHash" with
                | JS.Throws => (failed, g)
                | JS.Returns ph =>
                    match getSession (sessions g) ph with
                    | None => (InvalidL402 "Session not found", g)
                    | Some (h, session) =>
                        if expiresAt session <? now
                        then (InvalidL402 "Session expired", g)
                        else
                          let preimageBuffer := Hex.fromHex presented in
                          let computedHash := Hex.toHex (sha256 preimageBuffer) in
                          if negb (bool_decide (Some presented = preimage session))
                             && negb (String.eqb computedHash h)
                          then (InvalidL402 "Invalid preimage", g)
                          else
                            (ValidL402 (provider session) (maxTokens session)
                               (amountSats session) h,
                             withSessions g (<[h := markPaid session]> (sessions g)))
                    end
                end
            end
        end
    end.

(** The price of a challenge:
    [Math.max(tier.minPayment, Math.ceil(estimatedTokens * tier.pricePerToken))]. *)
Definition challengeAmount (t : Tier) (estimatedTokens : JS.number) : JS.number :=
  JS.Math_max (JS.toNumber (minPayment t))
    (JS.Math_ceil (JS.mul estimatedTokens (JS.toNumber (pricePerToken t)))).

(** [this.pricingTiers[provider] || this.pricingTiers['oobabooga']] *)
Definition challengeTier (tiers : gmap string Tier) (prov : string) : option Tier :=
  match lookupTier tiers prov with
  | Some t => Some t
  | None => lookupTier tiers "oobabooga"
  end.

(** [createChallenge(provider, estimatedTokens, req)] at time [now]; reading
    a field of an [undefined] tier throws. *)
Definition createChallenge (g : L402Gateway) (now : Z) (prov : string)
    (estimatedTokens : JS.number) : JS.outcome Challenge * L402Gateway :=
  match challengeTier (pricingTiers g) prov with
  | None => (JS.Throws, g)
  | Some t =>
      let amount := challengeAmount t estimatedTokens in
      let memo := memoText (name t) estimatedTokens in
      let asked :=
        {| pricingTiers := pricingTiers g; sessions := sessions g;
           revenue_total := revenue_total g; revenue_byProvider := revenue_byProvider g;
           invoices := S (invoices g) |} in
      match createInvoice (invoices g) amount memo with
      | JS.Throws => (JS.Throws, asked)
      | JS.Returns inv =>
          let mac := createL402Macaroon (r_hash inv) prov estimatedTokens (now + 600000) now in
          let session :=
            {| provider := prov; maxTokens := estimatedTokens; amountSats := amount;
               macaroon := mac; invoice := payment_request inv;
               preimage := invoice_preimage inv;
               createdAt := now; expiresAt := now + 600000;
               paid := false; used := false; tokensUsed := None |} in
          (JS.Returns
             {| ch_macaroon := mac; ch_invoice := payment_request inv;
                ch_paymentHash := r_hash inv; ch_amountSats := amount;
                ch_expiresAt := now + 600000 |},
           withSessions asked (<[r_hash inv := session]> (sessions g)))
      end
  end.

(** [req.query.provider || req.body?.provider || 'oobabooga'] *)
Definition requestedProvider (req : Request) : string :=
  if JS.truthyString (query_provider req) then default EmptyString (query_provider req)
  else if JS.truthyString (body_provider req) then default EmptyString (body_provider req)
  else "oobabooga"%string.

(** [req.body?.max_tokens || 1000] *)
Definition estimatedTokensOf (req : Request) : JS.number :=
  if JS.truthyNumber (body_max_tokens req) then JS.toNumber (body_max_tokens req)
  else JS.ofZ 1000.

(** The part of the middleware after the credential check: the challenge. *)
Definition issueChallenge (g : L402Gateway) (now : Z) (req : Request) : Response * L402Gateway :=
  let prov := requestedProvider req in
  match createChallenge g now prov (estimatedTokensOf req) with
  | (JS.Throws, g') => (ServerError, g')
  | (JS.Returns challenge, g') => (PaymentRequired prov challenge, g')
  end.

(** The handler returned by [middleware()]. *)
Definition middleware (g : L402Gateway) (now : Z) (req : Request) : Response * L402Gateway :=
  match authorization req with
  | Some authHeader =>
      if String.prefix "L402 " authHeader
      then
        let (validated, g') := validateL402 g now authHeader in
        if isValid validated then (Next validated, g') else issueChallenge g' now req
      else issueChallenge g now req
  | None => issueChallenge g now req
  end.

(** [recordUsage(paymentHash, tokensUsed, provider)]: the gateway afterwards
    and whether the call returned; the assignments made before a [TypeError]
    stay. *)
Definition recordUsage (g : L402Gateway) (paymentHash : string) (used_ : JS.number)
    (prov : string) : JS.outcome unit * L402Gateway :=
  match sessions g !! paymentHash with
  | None => (JS.Returns (), g)
  | Some session =>
      let g1 := withSessions g (<[paymentHash := markUsed session used_]> (sessions g)) in
      match lookupTier (pricingTiers g) prov with
      | None => (JS.Throws, g1)
      | Some t =>
          let satsCharged := JS.mul used_ (JS.toNumber (pricePerToken t)) in
          let total := JS.add (revenue_total g) satsCharged in
          match revenue_byProvider g !! prov with
          | Some r =>
              let r' := {| requests := JS.add (requests r) (JS.ofZ 1);
                           tokens := JS.add (tokens r) used_;
                           sats := JS.add (sats r) satsCharged |} in
              (JS.Returns (), withRevenue g1 total (<[prov := r']> (revenue_byProvider g)))
          | None =>
              if JS.inherited prov
              then (JS.Returns (), withRevenue g1 total (revenue_byProvider g))
              else (JS.Throws, withRevenue g1 total (revenue_byProvider g))
          end
      end
  end.

End Methods.

End L402.

(** ** Cashu: denominations *)

Module Cashu.

(** Amounts are integers: an amount that is not an integer, which no method
    excludes, is outside the embedding.  The code holds an amount as a
    double.  The loop of [splitAmount], whose end depends on it, rounds its
    subtraction as the code does; the sums and the differences of the ledger
    are written exactly, which is what the code computes while every value
    stays an integer of magnitude at most [2^53]. *)

(** The bound up to which the theorems on the amounts of the ledger are
    stated: below it no sum and no difference is rounded, and the array of
    [splitAmount], which the ledger hands on as the arguments of one [push],
    has at most [2^11 + 13] elements. *)
Definition maxAmount : Z := 2 ^ 24.

(** [while (remaining >= power) { denominations.push(power); remaining -= power; }]
    The loop is run on a counter: [None] is an exhausted counter. *)
Fixpoint splitInner (fuel : nat) (power remaining : Z) (denominations : list Z)
  : option (list Z * Z) :=
  match fuel with
  | O => None
  | S fuel' =>
      if power <=? remaining
      then splitInner fuel' power (JS.roundDouble (remaining - power)) (denominations ++ [power])
      else Some (denominations, remaining)
  end.

(** [while (remaining > 0 && power >= 1) { <inner loop>; power = Math.floor(power / 2); }] *)
Fixpoint splitOuter (fuel : nat) (power remaining : Z) (denominations : list Z)
  : option (list Z) :=
  match fuel with
  | O => None
  | S fuel' =>
      if (0 <? remaining) && (1 <=? power)
      then match splitInner fuel power remaining denominations with
           | Some (denominations', remaining') =>
               splitOuter fuel' (power / 2) remaining' denominations'
           | None => None
           end
      else Some denominations
  end.

(** The loops of [splitAmount] on a counter; [power] starts at 8192, the
    maximal denomination. *)
Definition splitAmountWithin (fuel : nat) (amount : Z) : option (list Z) :=
  splitOuter fuel 8192 amount [].

(** The counter that the loops need when no subtraction is rounded: the
    first inner loop runs [amount / 8192] times, the outer loop at most
    fourteen times. *)
Definition splitFuel (amount : Z) : nat := Z.to_nat (amount / 8192) + 16.

(** [splitAmount(amount)] for an amount that is an integer; [None] when the
    loops do not end on that counter, which happens only from [2^53] on,
    where the subtraction of a power can be rounded away.  The limit of
    [2^32 - 1] elements of an array, which the amounts from about [2^45] on
    pass, is not modelled: the theorems stay below it. *)
Definition splitAmount (amount : Z) : option (list Z) :=
  splitAmountWithin (splitFuel amount) amount.

(** The specification's wording of the same computation: from the power
    [2^k] downward, take the power as long as it fits, then halve. *)
Fixpoint greedy (k : nat) (remaining : Z) : list Z :=
  let power := 2 ^ Z.of_nat k in
  match k with
  | O => replicate (Z.to_nat remaining) 1
  | S k' => replicate (Z.to_nat (remaining / power)) power ++ greedy k' (remaining mod power)
  end.

Definition sumZ (l : list Z) : Z := foldr Z.add 0 l.

(** The denominations of a mint: the powers of two from 1 to 8192. *)
Definition denominations : list Z :=
  [1; 2; 4; 8; 16; 32; 64; 128; 256; 512; 1024; 2048; 4096; 8192].

Definition isDenomination (d : Z) : Prop := ∃ k : nat, (k <= 13)%nat ∧ d = 2 ^ Z.of_nat k.

(** The sequence never increases: the largest denominations come first. *)
Definition descending (l : list Z) : Prop := StronglySorted Z.ge l.

(** *** The proof ledger *)

(** An ecash proof [{amount, id, secret, C}]; [secret] is [undefined] when
    [unblindSignatures] finds no secret at the index of a signature. *)
Record EcashProof : Type := {
  amount : Z;
  keyset_id : string;
  secret : option string;
  C : string
}.

(** A blind signature [{amount, id, C_}] returned by the mint. *)
Record BlindSignature : Type := {
  sig_amount : Z;
  sig_id : string;
  C_ : string
}.

(** A blinded message [{amount, id, B_}] sent to the mint. *)
Record BlindedMessage : Type := {
  bm_amount : Z;
  bm_id : string;
  B_ : string
}.

(** The fields of the service object: [keysets] in insertion order with
    their [active] flags, the stored [proofs], the cached [balance];
    [entropy] counts the draws made from [crypto.randomBytes]. *)
Record CashuService : Type := {
  mintUrl : string;
  keysets : list (string * bool);
  proofs : list EcashProof;
  balance : Z;
  entropy : nat
}.

Definition withLedger (st : CashuService) (ps : list EcashProof) (b : Z) : CashuService :=
  {| mintUrl := mintUrl st; keysets := keysets st; proofs := ps; balance := b;
     entropy := entropy st |}.

Definition drawn (st : CashuService) (n : nat) : CashuService :=
  {| mintUrl := mintUrl st; keysets := keysets st; proofs := proofs st;
     balance := balance st; entropy := entropy st + n |}.

(** [proofs.reduce((sum, p) => sum + p.amount, 0)] *)
Definition total (ps : list EcashProof) : Z := fold_left (λ sum p, sum + amount p) ps 0.

(** The list [splitAmount] returns; the methods that split an amount are
    embedded for the amounts on which [splitAmount] returns. *)
Definition denominationsOf (a : Z) : list Z := default [] (splitAmount a).

(** Insertion into a list sorted by [b.amount - a.amount], before the first
    proof that is not larger. *)
Fixpoint insertDesc (p : EcashProof) (l : list EcashProof) : list EcashProof :=
  match l with
  | [] => [p]
  | q :: l' => if amount q <=? amount p then p :: q :: l' else q :: insertDesc p l'
  end.

(** [[...this.proofs].sort((a, b) => b.amount - a.amount)]: the stable sort
    by descending amount. *)
Definition sortDesc (ps : list EcashProof) : list EcashProof := foldr insertDesc [] ps.

(** [for (const proof of sorted) { if (total >= amount) break; ... }] *)
Fixpoint selectLoop (a : Z) (sorted selected : list EcashProof) (sum : Z)
  : list EcashProof * Z :=
  match sorted with
  | [] => (selected, sum)
  | proof :: rest =>
      if a <=? sum then (selected, sum)
      else selectLoop a rest (selected ++ [proof]) (sum + amount proof)
  end.

(** [selectProofs(amount)]: the selected proofs and the change, or the
    exception ['Insufficient balance']. *)
Definition selectProofs (st : CashuService) (a : Z) : JS.outcome (list EcashProof * Z) :=
  let (selected, sum) := selectLoop a (sortDesc (proofs st)) [] 0 in
  if sum <? a then JS.Throws else JS.Returns (selected, sum - a).

(** [removeProofs(proofsToRemove)]: the proofs left in storage. *)
Definition removeProofs (ps proofsToRemove : list EcashProof) : list EcashProof :=
  let secretsToRemove := secret <$> proofsToRemove in
  filter (λ p, secret p ∉ secretsToRemove) ps.

(** [unblindSignatures(signatures, secrets, rs)] *)
Definition unblindSignatures (signatures : list BlindSignature) (secrets rs : list string)
  : list EcashProof :=
  imap (λ i sig,
          {| amount := sig_amount sig; keyset_id := sig_id sig;
             secret := secrets !! i; C := C_ sig |}) signatures.

(** The parsed JSON of a proof and of a token; [JSON.stringify] omits a
    property that is [undefined]. *)
Definition proofJson (p : EcashProof) : JS.json :=
  JS.JObj ([ ("amount"%string, JS.JNum (amount p)); ("id"%string, JS.JStr (keyset_id p)) ]
           ++ match secret p with
              | Some s => [ ("secret"%string, JS.JStr s) ]
              | None => []
              end
           ++ [ ("C"%string, JS.JStr (C p)) ]).

Definition tokenJson (mint : string) (ps : list EcashProof) : JS.json :=
  JS.JObj [ ("token"%string,
             JS.JArr [ JS.JObj [ ("mint"%string, JS.JStr mint);
                                 ("proofs"%string, JS.JArr (proofJson <$> ps)) ] ]) ].

(** A proof object read back from parsed JSON; [None] when the value is not
    an object with a numeric [amount] and strings [id] and [C]. *)
Definition proofOfJson (v : JS.json) : option EcashProof :=
  match v with
  | JS.JObj fields =>
      match JS.assoc "amount" fields, JS.assoc "id" fields, JS.assoc "C" fields with
      | Some (JS.JNum a), Some (JS.JStr i), Some (JS.JStr c) =>
          match JS.assoc "secret" fields with
          | Some (JS.JStr s) => Some {| amount := a; keyset_id := i; secret := Some s; C := c |}
          | None => Some {| amount := a; keyset_id := i; secret := None; C := c |}
          | _ => None
          end
      | _, _, _ => None
      end
  | _ => None
  end.

Definition proofsOfJson (v : option JS.json) : option (list EcashProof) :=
  match v with
  | Some (JS.JArr items) => mapM proofOfJson items
  | _ => None
  end.

(** Truthiness of a parsed JSON value that may be [undefined]. *)
Definition truthy (v : option JS.json) : bool :=
  match v with
  | None | Some JS.JNull => false
  | Some (JS.JBool b) => b
  | Some (JS.JNum n) => negb (n =? 0)
  | Some (JS.JStr s) => negb (String.eqb s "")
  | Some (JS.JArr _) | Some (JS.JObj _) => true
  end.

(** [value === s] for a string [s]. *)
Definition isString (v : option JS.json) (s : string) : bool :=
  match v with
  | Some (JS.JStr x) => String.eqb x s
  | _ => false
  end.

(** [value[0]] for a truthy parsed JSON value. *)
Definition index0 (v : JS.json) : option JS.json :=
  match v with
  | JS.JArr items => items !! 0%nat
  | JS.JStr (String c _) => Some (JS.JStr (String c EmptyString))
  | JS.JObj fields => JS.assoc "0" fields
  | _ => None
  end.

(** The parsed token has an entry [token[0]]: [parsed.token] and
    [parsed.token[0]] are both truthy. *)
Definition tokenEntry (parsed : JS.json) : option JS.json :=
  match JS.getField parsed "token" with
  | JS.Returns tok => if truthy tok then tok ≫= index0 else None
  | JS.Throws => None
  end.

Section Methods.

(** [crypto.randomBytes(bytes).toString('hex')] at the n-th draw. *)
Variable randomHex : nat → nat → string.

(** [crypto.createHash('sha256').update(s).digest('hex')] *)
Variable sha256Hex : string → string.

(** [JSON.stringify] *)
Variable JSON_stringify : JS.json → string.

(** [JSON.parse(Buffer.from(s, 'base64').toString())]; [None] when
    [JSON.parse] throws. *)
Variable parseBase64Json : string → option JS.json.

(** [getActiveKeysetId()]: the first active keyset, or a random identifier. *)
Definition getActiveKeysetId (st : CashuService) : string * CashuService :=
  match List.find snd (keysets st) with
  | Some (ksid, _) => (ksid, st)
  | None => (("00" ++ randomHex (entropy st) 7)%string, drawn st 1)
  end.

(** [createMockProofs(amount)] *)
Fixpoint mockProofs (st : CashuService) (ds : list Z) : list EcashProof * CashuService :=
  match ds with
  | [] => ([], st)
  | denom :: rest =>
      let (ksid, st1) := getActiveKeysetId st in
      let s := randomHex (entropy st1) 32 in
      let c := ("02" ++ randomHex (entropy st1 + 1) 32)%string in
      let (ps, st2) := mockProofs (drawn st1 2) rest in
      ({| amount := denom; keyset_id := ksid; secret := Some s; C := c |} :: ps, st2)
  end.

Definition createMockProofs (st : CashuService) (a : Z) : list EcashProof * CashuService :=
  mockProofs st (denominationsOf a).

(** [createBlindedMessages(amount)]: the messages, the secrets and the
    blinding factors. *)
Fixpoint blindedMessages (st : CashuService) (ds : list Z)
  : (list BlindedMessage * list string * list string) * CashuService :=
  match ds with
  | [] => (([], [], []), st)
  | denom :: rest =>
      let s := randomHex (entropy st) 32 in
      let r := randomHex (entropy st + 1) 32 in
      let (ksid, st1) := getActiveKeysetId (drawn st 2) in
      let m := {| bm_amount := denom; bm_id := ksid;
                  B_ := ("02" ++ sha256Hex (s ++ r))%string |} in
      let '((ms, ss, rs), st2) := blindedMessages st1 rest in
      ((m :: ms, s :: ss, r :: rs), st2)
  end.

Definition createBlindedMessages (st : CashuService) (a : Z)
  : (list BlindedMessage * list string * list string) * CashuService :=
  blindedMessages st (denominationsOf a).

(** [mintTokens(quote, amount)] for an amount that is an integer; [reply]
    is the [signatures] array of the mint's answer, [None] when the request
    fails or is rejected.  The result carries the [mock] flag. *)
Definition mintTokens (st : CashuService) (a : Z) (reply : option (list BlindSignature))
  : (list EcashProof * Z * bool) * CashuService :=
  let '((_, secrets, rs), st1) := createBlindedMessages st a in
  match reply with
  | Some signatures =>
      let ps := unblindSignatures signatures secrets rs in
      ((ps, a, false), withLedger st1 (proofs st1 ++ ps) (balance st1 + a))
  | None =>
      let (ps, st2) := createMockProofs st1 a in
      ((ps, a, true), withLedger st2 (proofs st2 ++ ps) (balance st2 + a))
  end.

(** The result of [meltTokens]: the mint's [state], or the mock result. *)
Inductive melted : Type :=
  | MintResult (state : string)
  | MockPaid.

(** [meltTokens(quote, amount, invoice)]; [reply] is the [state] of the
    mint's answer, [None] when the request fails or is rejected. *)
Definition meltTokens (st : CashuService) (a : Z) (reply : option string) : melted * CashuService :=
  let mock := (MockPaid, withLedger st (proofs st) (Z.max 0 (balance st - a))) in
  match selectProofs st a with
  | JS.Throws => mock
  | JS.Returns (proofsToSpend, _) =>
      match reply with
      | None => mock
      | Some state =>
          (MintResult state,
           withLedger st (removeProofs (proofs st) proofsToSpend) (balance st - a))
      end
  end.

(** [swapTokens(proofs)]: the proofs returned and whether [error] is set. *)
Definition swapTokens (st : CashuService) (ps : list EcashProof)
    (reply : option (list BlindSignature)) : (list EcashProof * bool) * CashuService :=
  let a := total ps in
  let '((_, secrets, rs), st1) := createBlindedMessages st a in
  match reply with
  | Some signatures =>
      let newProofs := unblindSignatures signatures secrets rs in
      ((newProofs, false),
       withLedger st1 (removeProofs (proofs st1) ps ++ newProofs) (balance st1))
  | None => ((ps, true), st1)
  end.

(** [Buffer.from(JSON.stringify(token)).toString('base64')]: the standard
    base64 of the UTF-8 bytes of the JSON text of [{token: [{mint, proofs}]}]. *)
Definition payload (st : CashuService) (ps : list EcashProof) : string :=
  Base64.encode (Base64.bytesOf (JSON_stringify (tokenJson (mintUrl st) ps))).

(** [serializeToken(proofs)] *)
Definition serializeToken (st : CashuService) (ps : list EcashProof) : string :=
  ("cashuA" ++ payload st ps)%string.

(** [deserializeToken(tokenString)]: the values of [mint] and [proofs]. *)
Definition deserializeToken (tokenString : string)
  : JS.outcome (option JS.json * option JS.json) :=
  if negb (String.prefix "cashuA" tokenString) then JS.Throws
  else
    match parseBase64Json (JS.slice 6 tokenString) with
    | None => JS.Throws
    | Some parsed =>
        match JS.getField parsed "token" with
        | JS.Throws => JS.Throws
        | JS.Returns tok =>
            if negb (truthy tok) then JS.Throws
            else
              let entry := tok ≫= index0 in
              if negb (truthy entry) then JS.Throws
              else
                match entry with
                | Some (JS.JObj fields) =>
                    JS.Returns (JS.assoc "mint" fields, JS.assoc "proofs" fields)
                | _ => JS.Returns (None, None)
                end
        end
    end.

(** [send(amount)]: the token, or the exception of [selectProofs]. *)
Definition send (st : CashuService) (a : Z) : JS.outcome string * CashuService :=
  match selectProofs st a with
  | JS.Throws => (JS.Throws, st)
  | JS.Returns (ps, _) =>
      (JS.Returns (serializeToken st ps),
       withLedger st (removeProofs (proofs st) ps) (balance st - a))
  end.

(** [receive(tokenString)]: the amount credited and the proofs, or the
    exception.  The proofs of the token are read as proof objects; a token
    whose [proofs] are not such objects is taken to throw, as a value that is
    not an array does. *)
Definition receive (st : CashuService) (tokenString : string)
    (reply : option (list BlindSignature))
  : JS.outcome (Z * list EcashProof) * CashuService :=
  match deserializeToken tokenString with
  | JS.Throws => (JS.Throws, st)
  | JS.Returns (mint, ps) =>
      if truthy mint && negb (isString mint (mintUrl st))
      then (JS.Throws, st)
      else
        match proofsOfJson ps with
        | None => (JS.Throws, st)
        | Some ps =>
            let '((newProofs, _), st1) := swapTokens st ps reply in
            let a := total newProofs in
            (JS.Returns (a, newProofs), withLedger st1 (proofs st1) (balance st1 + a))
        end
  end.

End Methods.

(** Every proof has a non-negative amount. *)
Definition nonNegative (ps : list EcashProof) : Prop := Forall (λ p, 0 <= amount p) ps.

(** Every signature is for a non-negative amount. *)
Definition signedAmounts (signatures : list BlindSignature) : Prop :=
  Forall (λ sig, 0 <= sig_amount sig) signatures.

(** The invariant of the ledger: the cached balance is the sum of the stored
    proofs. *)
Definition balanced (st : CashuService) : Prop := balance st = total (proofs st).

End Cashu.

(** ** The provider router ([ai-providers.js]): token counting *)

Module Providers.

(** A JavaScript string as its UTF-16 code units. *)
Definition text : Type := list Z.

(** Rounding up after a division by four. *)
Definition ceil4 (n : Z) : Z := Qceiling (inject_Z n / 4).

(** [Math.ceil(text.length / 4)] *)
Definition estimate (t : text) : Z := ceil4 (Z.of_nat (length t)).

(** [BaseProvider.countTokens(text)]; no provider class overrides it. *)
Definition countTokens (t : text) : Z := estimate t.

(** The router's providers: the four own properties of [this.providers]. *)
Definition providers : list string := [ "oobabooga"; "grok"; "chatgpt"; "claude" ]%string.

(** [AIProviderRouter.countTokens(providerName, text)]: a name inherited
    from [Object.prototype] finds a value without [countTokens], and the call
    throws. *)
Definition routerCountTokens (providerName : string) (t : text) : JS.outcome Z :=
  if existsb (String.eqb providerName) providers then JS.Returns (countTokens t)
  else if JS.inherited providerName then JS.Throws
  else JS.Returns (estimate t).

Definition isHighSurrogate (u : Z) : bool := (0xD800 <=? u) && (u <=? 0xDBFF).
Definition isLowSurrogate (u : Z) : bool := (0xDC00 <=? u) && (u <=? 0xDFFF).

(** The number of bytes of the UTF-8 encoding ([Buffer.byteLength(text)]):
    a surrogate pair takes four bytes, a lone surrogate is replaced by
    U+FFFD and takes three. *)
Fixpoint utf8Length (t : text) : Z :=
  match t with
  | [] => 0
  | u :: rest =>
      if u <? 0x80 then 1 + utf8Length rest
      else if u <? 0x800 then 2 + utf8Length rest
      else if isHighSurrogate u
      then match rest with
           | v :: rest' => if isLowSurrogate v then 4 + utf8Length rest' else 3 + utf8Length rest
           | [] => 3
           end
      else 3 + utf8Length rest
  end.

End Providers.

(** ** The Cashu endpoints ([routes/cashu.js]) *)

Module CashuRoutes.
Import Cashu.

(** The answer of an endpoint: the body of the 200 response, the 400
    response with its [error], or the 500 response of the [catch]. *)
Inductive answer (A : Type) : Type :=
  | Ok (body : A)
  | BadRequest (error : string)
  | InternalError.
Arguments Ok {A} body.
Arguments BadRequest {A} error.
Arguments InternalError {A}.

(** [!amount] for a body field that is an integer or absent. *)
Definition missing (amount : option Z) : bool :=
  match amount with
  | Some a => a =? 0
  | None => true
  end.

(** [result.state === 'PAID'] *)
Definition paidOf (result : melted) : bool :=
  match result with
  | MintResult state => String.eqb state "PAID"
  | MockPaid => true
  end.

Section Handlers.

Variable randomHex : nat → nat → string.
Variable sha256Hex : string → string.
Variable JSON_stringify : JS.json → string.


(** [POST /api/cashu/melt]: the body [{paid, balance}]; the balance is
    computed exactly, as the code does on integers of magnitude at most
    [2^53]. *)
Definition meltRoute (st : CashuService) (quote : option string) (amount : option Z)
    (reply : option string) : answer (bool * Z) * CashuService :=
  match amount with
  | None => (BadRequest "Quote and amount required", st)
  | Some a =>
      if negb (JS.truthyString quote) || missing amount
      then (BadRequest "Quote and amount required", st)
      else
        let (result, st') := meltTokens st a reply in
        (Ok (paidOf result, balance st'), st')
  end.

(** [POST /api/cashu/mint]: the body [{amount, balance}]. *)
Definition mintRoute (st : CashuService) (quote : option string) (amount : option Z)
    (reply : option (list BlindSignature)) : answer (Z * Z) * CashuService :=
  match amount with
  | None => (BadRequest "Quote and amount required", st)
  | Some a =>
      if negb (JS.truthyString quote) || missing amount
      then (BadRequest "Quote and amount required", st)
      else
        let '((_, minted, _), st') := mintTokens randomHex sha256Hex st a reply in
        (Ok (minted, balance st'), st')
  end.

End Handlers.

End CashuRoutes.

(** ** Connecting to the mint ([cashu.js]) *)

Module CashuMint.
Import Cashu.

(** The answer of the mint to a request of [connect]: no answer or an
    error status, a body that is not JSON, or the value of a body of the
    expected shape. *)
Inductive reply (A : Type) : Type :=
  | Unreachable
  | NotJson
  | Body (value : A).
Arguments Unreachable {A}.
Arguments NotJson {A}.
Arguments Body {A} value.

(** The service with the fields [connected] and [mintInfo]. *)
Record Connection : Type := {
  service : CashuService;
  connected : bool;
  mintInfo : option JS.json
}.

(** The mock information of [getMintInfo]. *)
Definition mockInfo : JS.json :=
  let methods := JS.JObj [ ("methods", JS.JArr [ JS.JObj [ ("method", JS.JStr "bolt11");
                                                            ("unit", JS.JStr "sat") ] ]) ] in
  JS.JObj [ ("name", JS.JStr "Lightning Hub Mint");
            ("version", JS.JStr "Nutshell/0.15.0");
            ("description", JS.JStr "Cashu mint powered by Lightning");
            ("nuts", JS.JObj [ ("4", methods); ("5", methods) ]) ]%string.

(** [this.keysets.set(id, ks)]: a key that is present keeps its place. *)
Fixpoint mapSet (ks : list (string * bool)) (ksid : string) (active : bool)
  : list (string * bool) :=
  match ks with
  | [] => [(ksid, active)]
  | (k, a) :: rest =>
      if String.eqb k ksid then (k, active) :: rest else (k, a) :: mapSet rest ksid active
  end.

Definition withKeysets (st : CashuService) (ks : list (string * bool)) : CashuService :=
  {| mintUrl := mintUrl st; keysets := ks; proofs := proofs st; balance := balance st;
     entropy := entropy st |}.

Section Methods.

Variable randomHex : nat → nat → string.

(** [getMintInfo()]: the mock information when the request fails; the
    promise of the body is returned from inside the [try], so a body that is
    not JSON is an exception of the caller. *)
Definition getMintInfo (answer : reply JS.json) : JS.outcome JS.json :=
  match answer with
  | Unreachable => JS.Returns mockInfo
  | NotJson => JS.Throws
  | Body value => JS.Returns value
  end.

(** [getKeysets()]: the keysets as pairs of [id] and [active], one mock
    keyset when the request fails. *)
Definition getKeysets (st : CashuService) (answer : reply (list (string * bool)))
  : JS.outcome (list (string * bool)) * CashuService :=
  match answer with
  | Unreachable => (JS.Returns [(("00" ++ randomHex (entropy st) 7)%string, true)], drawn st 1)
  | NotJson => (JS.Throws, st)
  | Body value => (JS.Returns value, st)
  end.

(** [connect()]: the value returned and the service afterwards. *)
Definition connect (c : Connection) (info : reply JS.json)
    (sets : reply (list (string * bool))) : bool * Connection :=
  match getMintInfo info with
  | JS.Throws =>
      (false, {| service := service c; connected := false; mintInfo := mintInfo c |})
  | JS.Returns value =>
      match getKeysets (service c) sets with
      | (JS.Throws, st) =>
          (false, {| service := st; connected := false; mintInfo := Some value |})
      | (JS.Returns ks, st) =>
          (true,
           {| service := withKeysets st
                           (fold_left (λ m ks, mapSet m ks.1 ks.2) ks (keysets st));
              connected := true; mintInfo := Some value |})
      end
  end.

End Methods.

End CashuMint.

(** ** The Lightning client ([lnd.js]): invoices *)

Module LND.
Import L402.

Section Client.

(** [crypto.randomBytes(n)] at the i-th draw. *)
Variable randomBytes : nat → nat → list byte.

(** [crypto.createHash('sha256').update(buffer).digest()] *)
Variable sha256 : list byte → list byte.

(** The text of a number inside a string concatenation. *)
Variable numberText : JS.number → string.

(** [createInvoice(amount, memo, expiry)], whose first draw is the i-th:
    the fields the gateway reads. *)
Definition createInvoice (i : nat) (amount : JS.number) (memo : string) : JS.outcome Invoice :=
  let preimage := randomBytes i 32 in
  let hash := sha256 preimage in
  JS.Returns
    {| r_hash := Hex.toHex hash;
       payment_request := ("lnbc" ++ numberText amount ++ "0n1p"
                           ++ Hex.toHex (randomBytes (i + 1) 50))%string;
       invoice_preimage := Some (Hex.toHex preimage) |}.

End Client.

End LND.

(** ** The credential of the gateway and the header of the client *)

Module L402Credential.
Import L402.

(** The decimal text of an integer. *)
Definition decimal (z : Z) : string := NilZero.string_of_int (Z.to_int z).

(** The identifier [{version: 1, paymentHash, timestamp}]. *)
Definition identifierJson (paymentHash : string) (now : Z) : JS.json :=
  JS.JObj [ ("version", JS.JNum 1); ("paymentHash", JS.JStr paymentHash);
            ("timestamp", JS.JNum now) ]%string.

(** The object [macaroonData] of [createL402Macaroon]. *)
Definition macaroonJson (ident prov maxTokensText : string) (expiresAt : Z) (sig : string)
  : JS.json :=
  JS.JObj [ ("identifier", JS.JStr ident);
            ("location", JS.JStr "lightning-hub");
            ("caveats", JS.JArr [ JS.JStr ("provider = " ++ prov);
                                  JS.JStr ("max_tokens = " ++ maxTokensText);
                                  JS.JStr ("expires = " ++ decimal expiresAt) ]);
            ("signature", JS.JStr sig) ]%string.

(** No character of the text is a colon. *)
Definition noColon (s : string) : Prop :=
  Forall (λ c, c ≠ ":"%char) (String.list_ascii_of_string s).

(** The header [`L402 ${macaroon}:${preimage}`] that the client sends
    ([l402-client.js]). *)
Definition authorizationHeader (mac presented : string) : string :=
  ("L402 " ++ mac ++ ":" ++ presented)%string.

Section Credential.

(** [JSON.stringify] *)
Variable JSON_stringify : JS.json → string.

(** The text of a number in a template literal. *)
Variable numberText : JS.number → string.

(** [signMacaroon(identifier, data)] for
    [data = {paymentHash, provider, maxTokens, expiresAt}]. *)
Variable signMacaroon : string → string → string → JS.number → Z → string.

(** [Buffer.from(JSON.stringify(value)).toString('base64')] *)
Definition base64Json (v : JS.json) : string :=
  Base64.encode (Base64.bytesOf (JSON_stringify v)).

(** [createL402Macaroon({paymentHash, provider, maxTokens, expiresAt})] at
    time [now]. *)
Definition createL402Macaroon (paymentHash prov : string) (maxTokens : JS.number)
    (expiresAt now : Z) : string :=
  let ident := base64Json (identifierJson paymentHash now) in
  base64Json
    (macaroonJson ident prov (numberText maxTokens) expiresAt
       (signMacaroon ident paymentHash prov maxTokens expiresAt)).

End Credential.

End L402Credential.

(** ** Prepaid sessions of the gateway ([l402-gateway.js]) *)

Module Prepaid.
Import L402.

(** A session stored by [createPrepaidSession]. *)
Record PrepaidSession : Type := {
  pp_provider : string;
  tokenBudget : JS.number;
  tokensRemaining : JS.number;
  pp_amountSats : JS.number;
  pp_invoice : string;
  pp_paymentHash : string;
  pp_preimage : option string;
  pp_createdAt : Z;
  pp_expiresAt : JS.number;
  pp_paid : bool
}.

(** The values of [this.sessions]: the sessions of [createChallenge] have no
    [type], those of [createPrepaidSession] have the type ['prepaid']. *)
Inductive entry : Type :=
  | Metered (s : Session)
  | Prepaid (p : PrepaidSession).

(** The fields of the gateway that the prepaid methods use; [asked] counts
    the invoices asked from the node, [draws] the random draws. *)
Record Gateway : Type := {
  pricing : gmap string Tier;
  stored : gmap string entry;
  asked : nat;
  draws : nat
}.

(** The object returned by [createPrepaidSession]. *)
Record Offer : Type := {
  of_sessionId : string;
  of_invoice : string;
  of_paymentHash : string;
  of_amountSats : JS.number;
  of_tokenBudget : JS.number;
  of_expiresAt : JS.number
}.

(** The object returned by [usePrepaidTokens]. *)
Inductive usage : Type :=
  | Granted (tokensUsed remaining : JS.number)
  | Refused (error : string) (remaining : option JS.number).

(** [a > b]: false as soon as one side is [NaN]. *)
Definition exceeds (a b : JS.number) : bool :=
  match a, b with
  | JS.Num x, JS.Num y => negb (Qle_bool x y)
  | _, _ => false
  end.

(** [a - b] *)
Definition minus (a b : JS.number) : JS.number :=
  match a, b with
  | JS.Num x, JS.Num y => JS.Num (x - y)%Q
  | _, _ => JS.NaN
  end.

Definition spend (p : PrepaidSession) (n : JS.number) : PrepaidSession :=
  {| pp_provider := pp_provider p; tokenBudget := tokenBudget p;
     tokensRemaining := minus (tokensRemaining p) n;
     pp_amountSats := pp_amountSats p; pp_invoice := pp_invoice p;
     pp_paymentHash := pp_paymentHash p; pp_preimage := pp_preimage p;
     pp_createdAt := pp_createdAt p; pp_expiresAt := pp_expiresAt p;
     pp_paid := pp_paid p |}.

(** [usePrepaidTokens(sessionId, tokensUsed)] on the session store; the
    comparison and the subtraction are exact, as the code's are on integers
    of magnitude at most [2^53]. *)
Definition usePrepaidTokens (ss : gmap string entry) (sessionId : string)
    (tokensUsed : JS.number) : usage * gmap string entry :=
  match ss !! sessionId with
  | Some (Prepaid p) =>
      if negb (pp_paid p) then (Refused "Session not paid" None, ss)
      else if exceeds tokensUsed (tokensRemaining p)
      then (Refused "Insufficient token balance" (Some (tokensRemaining p)), ss)
      else (Granted tokensUsed (minus (tokensRemaining p) tokensUsed),
            <[sessionId := Prepaid (spend p tokensUsed)]> ss)
  | _ => (Refused "Session not found" None, ss)
  end.

(** The calls of a list, one after the other: the answers and the store
    left. *)
Fixpoint useAll (ss : gmap string entry) (sessionId : string) (requests : list JS.number)
  : list usage * gmap string entry :=
  match requests with
  | [] => ([], ss)
  | n :: rest =>
      let (answer, ss1) := usePrepaidTokens ss sessionId n in
      let (answers, ss2) := useAll ss1 sessionId rest in
      (answer :: answers, ss2)
  end.

(** The tokens granted by a list of answers. *)
Fixpoint granted (answers : list usage) : Q :=
  match answers with
  | [] => 0
  | Granted (JS.Num q) _ :: rest => q + granted rest
  | _ :: rest => granted rest
  end.

Section Methods.

(** [this.lnd.createInvoice(amountSats, memo, expiry)]: the reply to the
    n-th request. *)
Variable createInvoice : nat → JS.number → string → JS.number → JS.outcome Invoice.

(** The memo [`L402 Prepaid: ${tier.name} - ${tokenBudget} tokens`]. *)
Variable memoText : option string → JS.number → string.

(** [crypto.randomBytes(bytes).toString('hex')] at the n-th draw. *)
Variable randomHex : nat → nat → string.

(** [createPrepaidSession(provider, tokenBudget, expiryHours)] at time
    [now]; reading a field of an [undefined] tier throws. *)
Definition createPrepaidSession (g : Gateway) (now : Z) (prov : string)
    (budget expiryHours : JS.number) : JS.outcome Offer * Gateway :=
  match lookupTier (pricing g) prov with
  | None => (JS.Throws, g)
  | Some t =>
      let amount := JS.mul budget (JS.toNumber (pricePerToken t)) in
      let memo := memoText (name t) budget in
      let g1 := {| pricing := pricing g; stored := stored g;
                   asked := S (asked g); draws := draws g |} in
      match createInvoice (asked g) amount memo (JS.mul expiryHours (JS.ofZ 3600)) with
      | JS.Throws => (JS.Throws, g1)
      | JS.Returns inv =>
          let sessionId := randomHex (draws g) 16 in
          let expires := JS.add (JS.ofZ now) (JS.mul expiryHours (JS.ofZ 3600000)) in
          let session :=
            {| pp_provider := prov; tokenBudget := budget; tokensRemaining := budget;
               pp_amountSats := amount; pp_invoice := payment_request inv;
               pp_paymentHash := r_hash inv; pp_preimage := invoice_preimage inv;
               pp_createdAt := now; pp_expiresAt := expires; pp_paid := false |} in
          (JS.Returns
             {| of_sessionId := sessionId; of_invoice := payment_request inv;
                of_paymentHash := r_hash inv; of_amountSats := amount;
                of_tokenBudget := budget; of_expiresAt := expires |},
           {| pricing := pricing g;
              stored := <[sessionId := Prepaid session]> (stored g);
              asked := S (asked g); draws := S (draws g) |})
      end
  end.

End Methods.

(** *** Validation on the sessions of both kinds

    [createChallenge] and [createPrepaidSession] store their sessions in one
    map, and [validateL402] reads whichever session it finds under the
    payment hash of the macaroon. *)

(** The result of [validateL402]: a prepaid session has no [maxTokens]. *)
Inductive validated : Type :=
  | ValidSession (provider : string) (maxTokens : option JS.number)
      (amountPaid : JS.number) (paymentHash : string)
  | InvalidSession (error : string).

Definition isValidSession (v : validated) : bool :=
  match v with
  | ValidSession _ _ _ _ => true
  | InvalidSession _ => false
  end.

(** [session.paid = true] on a prepaid session. *)
Definition settle (p : PrepaidSession) : PrepaidSession :=
  {| pp_provider := pp_provider p; tokenBudget := tokenBudget p;
     tokensRemaining := tokensRemaining p;
     pp_amountSats := pp_amountSats p; pp_invoice := pp_invoice p;
     pp_paymentHash := pp_paymentHash p; pp_preimage := pp_preimage p;
     pp_createdAt := pp_createdAt p; pp_expiresAt := pp_expiresAt p;
     pp_paid := true |}.

(** The result of the gateway of metered sessions, among the results on
    both kinds. *)
Definition ofValidation (v : validation) : validated :=
  match v with
  | ValidL402 prov maxTokens amountPaid paymentHash =>
      ValidSession prov (Some maxTokens) amountPaid paymentHash
  | InvalidL402 error => InvalidSession error
  end.

Section Validation.

(** [crypto.createHash('sha256').update(buffer).digest()] *)
Variable sha256 : list byte → list byte.

(** [JSON.parse(Buffer.from(s, 'base64').toString())] for a string [s];
    [None] when [JSON.parse] throws. *)
Variable parseBase64Json : string → option JS.json.

(** The same for an array or an object in place of [s]. *)
Variable parseBufferFrom : JS.json → option JS.json.

(** [validateL402(authHeader)] at time [now] on the map of the sessions:
    the result and the map afterwards. *)
Definition validateL402 (ss : gmap string entry) (now : Z) (authHeader : string)
  : validated * gmap string entry :=
  let token := JS.slice 5 authHeader in
  let parts := JS.split ":" token in
  let macaroonB64 := parts !! 0%nat in
  let preimage_ := parts !! 1%nat in
  if negb (JS.truthyString macaroonB64) || negb (JS.truthyString preimage_)
  then (InvalidSession "Invalid L402 format", ss)
  else
    let presented := default EmptyString preimage_ in
    let failed := (InvalidSession "Validation failed", ss) in
    match parseBase64Json (default EmptyString macaroonB64) with
    | None => failed
    | Some mac =>
        match JS.getField mac "identifier" with
        | JS.Throws => failed
        | JS.Returns idv =>
            match decodeIdentifier parseBase64Json parseBufferFrom idv with
            | None => failed
            | Some ident =>
                match JS.getField ident "paymentHash" with
                | JS.Throws => failed
                | JS.Returns ph =>
                    let computedHash := Hex.toHex (sha256 (Hex.fromHex presented)) in
                    match getSession ss ph with
                    | None => (InvalidSession "Session not found", ss)
                    | Some (h, Metered session) =>
                        if expiresAt session <? now
                        then (InvalidSession "Session expired", ss)
                        else if negb (bool_decide (Some presented = preimage session))
                                && negb (String.eqb computedHash h)
                        then (InvalidSession "Invalid preimage", ss)
                        else
                          (ValidSession (provider session) (Some (maxTokens session))
                             (amountSats session) h,
                           <[h := Metered (markPaid session)]> ss)
                    | Some (h, Prepaid session) =>
                        if exceeds (JS.ofZ now) (pp_expiresAt session)
                        then (InvalidSession "Session expired", ss)
                        else if negb (bool_decide (Some presented = pp_preimage session))
                                && negb (String.eqb computedHash h)
                        then (InvalidSession "Invalid preimage", ss)
                        else
                          (ValidSession (pp_provider session) None
                             (pp_amountSats session) h,
                           <[h := Prepaid (settle session)]> ss)
                    end
                end
            end
        end
    end.

End Validation.

End Prepaid.

(** ** The standard caveats of the macaroon helper ([macaroon.js]) *)

Module Caveats.
Import Macaroon.

(** The [options] of [createL402Caveats].  Each field is [None] when the
    option is absent or falsy, and otherwise holds the text that the template
    literal gives for its value. *)
Record Options : Type := {
  opt_expires : option string;
  opt_provider : option string;
  opt_maxTokens : option string;
  opt_model : option string
}.

(** [if (value) { caveats.push(`key = ${value}`); }] *)
Definition pushed (key : string) (value : option string) : list string :=
  match value with
  | Some text => [(key ++ " = " ++ text)%string]
  | None => []
  end.

(** [createL402Caveats(options)] *)
Definition createL402Caveats (o : Options) : list string :=
  pushed "expires" (opt_expires o)
  ++ pushed "provider" (opt_provider o)
  ++ pushed "max_tokens" (opt_maxTokens o)
  ++ pushed "model" (opt_model o).

(** The options that are set, with the keys of their caveats, in the order
    of the caveats. *)
Definition entries (o : Options) : list (string * string) :=
  omap (λ kv : string * option string, pair kv.1 <$> kv.2)
    [ ("expires"%string, opt_expires o); ("provider"%string, opt_provider o);
      ("max_tokens"%string, opt_maxTokens o); ("model"%string, opt_model o) ].

(** No character of the text is a space. *)
Definition noSpace (s : string) : Prop :=
  Forall (λ c, c ≠ " "%char) (String.list_ascii_of_string s).

(** The key and the value that [verifyMacaroon] reads from a caveat. *)
Definition parsed (caveat : string) : string * option string :=
  (caveatKey caveat, caveatValue caveat).

End Caveats.

(** ** The provider router and the chat route ([ai-providers.js], [routes/ai.js]) *)

Module Chat.
Import Providers.

(** A chat message [{role, content}]; [role] is [None] when the property is
    absent or is not a string. *)
Record Message : Type := {
  role : option string;
  content : option JS.json
}.

(** [m.role !== 'system'] *)
Definition notSystem (m : Message) : bool :=
  negb (bool_decide (role m = Some "system"%string)).

(** [ClaudeProvider.convertMessages(messages)] *)
Definition convertMessages (messages : list Message) : list Message :=
  (λ m, {| role := if bool_decide (role m = Some "assistant"%string)
                   then Some "assistant"%string else Some "user"%string;
           content := content m |})
  <$> List.filter notSystem messages.

(** The loop of the streaming branch of [POST /v1/chat]:
    [if (chunk.content) { totalTokens += aiProviders.countTokens(provider, chunk.content); }]
    over the contents of the chunks, an empty text standing for a content
    that is empty or absent. *)
Fixpoint streamTokens (providerName : string) (chunks : list text) (totalTokens : Z)
  : JS.outcome Z :=
  match chunks with
  | [] => JS.Returns totalTokens
  | chunk :: rest =>
      match chunk with
      | [] => streamTokens providerName rest totalTokens
      | _ :: _ =>
          match routerCountTokens providerName chunk with
          | JS.Returns n => streamTokens providerName rest (totalTokens + n)
          | JS.Throws => JS.Throws
          end
      end
  end.

(** The number of code units of the chunks together. *)
Definition lengths (chunks : list text) : Z := Z.of_nat (length (concat chunks)).










End Chat.

(** ** Sample data *)

Module Scenario.
Import Cashu L402.

(** The ledger of the specification's scenario: 100 sats held as the proofs
    64, 32 and 4. *)
Definition held (a : Z) (s : string) : EcashProof :=
  {| amount := a; keyset_id := "009a1f293253e41e"; secret := Some s; C := "02c0ffee" |}.

Definition ledger100 : CashuService :=
  {| mintUrl := "http://localhost:3338";
     keysets := [("009a1f293253e41e"%string, true)];
     proofs := [held 64 "5e1a"; held 32 "7b02"; held 4 "c943"];
     balance := 100;
     entropy := 0 |}.

(** JSON text as [JSON.stringify] writes it, for the values of the model:
    no white space, properties in order, the control characters, the quote
    and the backslash of a string escaped. *)
Definition quoteMark : string := String (ascii_of_N 34) EmptyString.

Definition escapeChar (c : ascii) : string :=
  let n := N_of_ascii c in
  if (n =? 34)%N then "\" +:+ quoteMark
  else if (n =? 92)%N then "\\"
  else if (n =? 8)%N then "\b"
  else if (n =? 9)%N then "\t"
  else if (n =? 10)%N then "\n"
  else if (n =? 12)%N then "\f"
  else if (n =? 13)%N then "\r"
  else if (n <? 32)%N
  then "\u00" +:+ String (Hex.hexDigit (n / 16)) (String (Hex.hexDigit (n mod 16)) EmptyString)
  else String c EmptyString.

Fixpoint escape (s : string) : string :=
  match s with
  | EmptyString => EmptyString
  | String c rest => escapeChar c +:+ escape rest
  end.

Definition quoted (s : string) : string := quoteMark +:+ escape s +:+ quoteMark.

Fixpoint joined (parts : list string) : string :=
  match parts with
  | [] => EmptyString
  | [x] => x
  | x :: rest => x +:+ "," +:+ joined rest
  end.

Fixpoint stringify (v : JS.json) : string :=
  match v with
  | JS.JNull => "null"
  | JS.JBool true => "true"
  | JS.JBool false => "false"
  | JS.JNum n => NilZero.string_of_int (Z.to_int n)
  | JS.JStr s => quoted s
  | JS.JArr items => "[" +:+ joined (List.map stringify items) +:+ "]"
  | JS.JObj fields =>
      "{" +:+ joined (List.map (λ kv, quoted (fst kv) +:+ ":" +:+ stringify (snd kv)) fields)
      +:+ "}"
  end.

(** A reader of the JSON texts that [stringify] writes.  The text of a
    string after its opening quote: the string and the rest of the text. *)
Fixpoint readString (s acc : string) : option (string * string) :=
  match s with
  | EmptyString => None
  | String c rest =>
      if (N_of_ascii c =? 34)%N then Some (String.rev acc, rest)
      else if (N_of_ascii c =? 92)%N then
        match rest with
        | String e rest' =>
            let n := N_of_ascii e in
            if ((n =? 34) || (n =? 92))%N then readString rest' (String e acc)
            else if (n =? 98)%N then readString rest' (String (ascii_of_N 8) acc)
            else if (n =? 116)%N then readString rest' (String (ascii_of_N 9) acc)
            else if (n =? 110)%N then readString rest' (String (ascii_of_N 10) acc)
            else if (n =? 102)%N then readString rest' (String (ascii_of_N 12) acc)
            else if (n =? 114)%N then readString rest' (String (ascii_of_N 13) acc)
            else if (n =? 117)%N then
              match rest' with
              | String "0" (String "0" (String h (String l rest''))) =>
                  match Hex.unhex h, Hex.unhex l with
                  | Some x, Some y => readString rest'' (String (ascii_of_N (16 * x + y)) acc)
                  | _, _ => None
                  end
              | _ => None
              end
            else None
        | EmptyString => None
        end
      else readString rest (String c acc)
  end.

(** The digits, with the sign, at the start of a text, and the rest. *)
Fixpoint readDigits (s acc : string) : string * string :=
  match s with
  | String c rest =>
      let n := N_of_ascii c in
      if ((n =? 45) || ((48 <=? n) && (n <=? 57)))%N then readDigits rest (String c acc)
      else (String.rev acc, s)
  | EmptyString => (String.rev acc, s)
  end.

Definition readNumber (s : string) : option (JS.json * string) :=
  let (digits, rest) := readDigits s EmptyString in
  (λ i, (JS.JNum (Z.of_int i), rest)) <$> NilZero.int_of_string digits.

(** A value, the items of an array after its first item, and the fields of
    an object, each with the rest of the text; [fuel] bounds the depth. *)
Fixpoint readValue (fuel : nat) (s : string) : option (JS.json * string) :=
  match fuel with
  | O => None
  | S fuel' =>
      match s with
      | EmptyString => None
      | String c rest =>
          let n := N_of_ascii c in
          if (n =? 34)%N then (λ '(t, r), (JS.JStr t, r)) <$> readString rest EmptyString
          else if (n =? 91)%N then
            match rest with
            | String "]" r => Some (JS.JArr [], r)
            | _ =>
                match readValue fuel' rest with
                | Some (v, r) => (λ '(vs, r'), (JS.JArr (v :: vs), r')) <$> readItems fuel' r
                | None => None
                end
            end
          else if (n =? 123)%N then
            match rest with
            | String "}" r => Some (JS.JObj [], r)
            | _ => (λ '(fs, r), (JS.JObj fs, r)) <$> readFields fuel' rest
            end
          else if String.prefix "null" s then Some (JS.JNull, JS.slice 4 s)
          else if String.prefix "true" s then Some (JS.JBool true, JS.slice 4 s)
          else if String.prefix "false" s then Some (JS.JBool false, JS.slice 5 s)
          else readNumber s
      end
  end
with readItems (fuel : nat) (s : string) : option (list JS.json * string) :=
  match fuel with
  | O => None
  | S fuel' =>
      match s with
      | String "]" r => Some ([], r)
      | String "," r =>
          match readValue fuel' r with
          | Some (v, r') => (λ '(vs, r''), (v :: vs, r'')) <$> readItems fuel' r'
          | None => None
          end
      | _ => None
      end
  end
with readFields (fuel : nat) (s : string) : option (list (string * JS.json) * string) :=
  match fuel with
  | O => None
  | S fuel' =>
      match s with
      | String q r =>
          if (N_of_ascii q =? 34)%N then
            match readString r EmptyString with
            | Some (key, String ":" r') =>
                match readValue fuel' r' with
                | Some (v, String "," r'') =>
                    (λ '(fs, r3), ((key, v) :: fs, r3)) <$> readFields fuel' r''
                | Some (v, String "}" r'') => Some ([(key, v)], r'')
                | _ => None
                end
            | _ => None
            end
          else None
      | EmptyString => None
      end
  end.

(** The value of a JSON text without white space. *)
Definition parse (s : string) : option JS.json :=
  match readValue (String.length s + 1) s with
  | Some (v, EmptyString) => Some v
  | _ => None
  end.

(** The token of the proof of 64 sats in the sample ledger. *)
Definition sampleProofs : list EcashProof := [held 64 "5e1a"].

Definition sampleToken : string := serializeToken stringify ledger100 sampleProofs.

(** A decoder that knows the sample token. *)
Definition sampleParse (s : string) : option JS.json :=
  if String.eqb s (payload stringify ledger100 sampleProofs)
  then Some (tokenJson (mintUrl ledger100) sampleProofs)
  else None.

(** A decoder for two sample texts: a macaroon, a macaroon with another
    signature, and their identifier. *)
Definition sampleDecode (s : string) : option JS.json :=
  if String.eqb s "bWFjMQ" then
    Some (JS.JObj [ ("identifier", JS.JStr "aWRlbnQ"); ("location", JS.JStr "lightning-hub");
                    ("caveats", JS.JArr [JS.JStr "provider = grok"]);
                    ("signature", JS.JStr "0a1b") ]%string)
  else if String.eqb s "bWFjMg" then
    Some (JS.JObj [ ("identifier", JS.JStr "aWRlbnQ"); ("location", JS.JStr "elsewhere");
                    ("caveats", JS.JArr []);
                    ("signature", JS.JStr "ffff") ]%string)
  else if String.eqb s "aWRlbnQ" then
    Some (JS.JObj [ ("version", JS.JNum 1); ("paymentHash", JS.JStr "c0de");
                    ("timestamp", JS.JNum 1700000000000) ]%string)
  else None.

Definition sampleSession : Session :=
  {| provider := "grok"; maxTokens := JS.ofZ 50; amountSats := JS.ofZ 250;
     macaroon := "bWFjMQ"; invoice := "lnbc2500n1p"; preimage := Some "00ff"%string;
     createdAt := 1000; expiresAt := 601000;
     paid := false; used := false; tokensUsed := None |}.

Definition sampleGateway : L402Gateway :=
  withSessions (newGateway None) {[ "c0de"%string := sampleSession ]}.

Definition sampleSha (bytes : list byte) : list byte := bytes.

(** A source of distinct random strings: the number of the draw. *)
Definition sampleRandom (n bytes : nat) : string := NilZero.string_of_uint (Nat.to_uint n).

End Scenario.

(** ** Sample data for the endpoints, the credential and the sessions *)

Module Samples.
Import Cashu L402 Scenario.


(** Random bytes that do not vary. *)
Definition sampleBytes (i n : nat) : list byte := [x00; xff]%byte.

(** The text of a number that is an integer. *)
Definition sampleNumberText (n : JS.number) : string :=
  match n with
  | JS.Num q => L402Credential.decimal (Qceiling q)
  | JS.NaN => "NaN"
  end.

Definition sampleSign (ident paymentHash prov : string) (maxTokens : JS.number)
    (expiresAt : Z) : string := "5a17".

Definition sampleMemo (label : option string) (n : JS.number) : string :=
  ("L402: " ++ default "undefined" label ++ " API - " ++ sampleNumberText n ++ " tokens")%string.

(** The invoices of the Lightning client on these random bytes. *)
Definition sampleInvoice (n : nat) (amount : JS.number) (memo : string) : JS.outcome Invoice :=
  LND.createInvoice sampleBytes sampleSha sampleNumberText (3 * n) amount memo.

(** The macaroons of the gateway with the JSON printer of the scenario. *)
Definition sampleIssue : string → string → JS.number → Z → Z → string :=
  L402Credential.createL402Macaroon stringify sampleNumberText sampleSign.

(** The macaroon for 50 tokens of the provider [grok], issued at time 1000
    for the payment hash [00ff], its identifier and its JSON value. *)
Definition sampleIdentifier : string :=
  L402Credential.base64Json stringify (L402Credential.identifierJson "00ff" 1000).

Definition sampleMacaroonJson : JS.json :=
  L402Credential.macaroonJson sampleIdentifier "grok" "50" 601000 "5a17".

Definition sampleMacaroon : string := sampleIssue "00ff" "grok" (JS.ofZ 50) 601000 1000.

(** A decoder that knows the sample macaroon and its identifier. *)
Definition credentialDecode (s : string) : option JS.json :=
  if String.eqb s sampleMacaroon then Some sampleMacaroonJson
  else if String.eqb s sampleIdentifier then Some (L402Credential.identifierJson "00ff" 1000)
  else None.

(** The challenge for that macaroon, asked from a new gateway. *)
Definition sampleChallenge : Challenge :=
  {| ch_macaroon := sampleMacaroon;
     ch_invoice := "lnbc2500n1p00ff";
     ch_paymentHash := "00ff";
     ch_amountSats := JS.ofZ 250;
     ch_expiresAt := 601000 |}.

(** A request with the credential of the sample session of the scenario. *)
Definition sampleRequest : Request :=
  {| authorization := Some "L402 bWFjMQ:00ff"%string; query_provider := None;
     body_provider := Some "grok"%string; body_max_tokens := None |}.

(** A paid prepaid session with 100 tokens left, in a store of its own. *)
Definition samplePrepaid : Prepaid.PrepaidSession :=
  {| Prepaid.pp_provider := "grok"; Prepaid.tokenBudget := JS.ofZ 100;
     Prepaid.tokensRemaining := JS.Num 100; Prepaid.pp_amountSats := JS.ofZ 500;
     Prepaid.pp_invoice := "lnbc5000n1p00ff"; Prepaid.pp_paymentHash := "00ff";
     Prepaid.pp_preimage := Some "00ff"%string; Prepaid.pp_createdAt := 1000;
     Prepaid.pp_expiresAt := JS.ofZ 86401000; Prepaid.pp_paid := true |}.

Definition sampleStore : gmap string Prepaid.entry :=
  {[ "a1b2"%string := Prepaid.Prepaid samplePrepaid ]}.

(** The map of a gateway that holds the sample session of the scenario
    under its payment hash, and a map that holds the prepaid session under
    the same key. *)
Definition meteredSessions : gmap string Prepaid.entry :=
  {[ "c0de"%string := Prepaid.Metered sampleSession ]}.

Definition prepaidSessions : gmap string Prepaid.entry :=
  {[ "c0de"%string := Prepaid.Prepaid samplePrepaid ]}.

Definition samplePrepaidGateway : Prepaid.Gateway :=
  {| Prepaid.pricing := defaultTiers; Prepaid.stored := ∅;
     Prepaid.asked := 0; Prepaid.draws := 0 |}.

Definition samplePrepaidInvoice (n : nat) (amount : JS.number) (memo : string)
    (expiry : JS.number) : JS.outcome Invoice :=
  sampleInvoice n amount memo.

(** An HMAC that forgets the message: every chain ends at the root key. *)
Definition weakHmac (key : list byte) (message : string) : list byte := key.

(** Options with a provider only. *)
Definition sampleOptions : Caveats.Options :=
  {| Caveats.opt_expires := None; Caveats.opt_provider := Some "grok"%string;
     Caveats.opt_maxTokens := None; Caveats.opt_model := None |}.

End Samples.

(** ** Properties of the numbers *)

Module NumberFacts.

Lemma two_pow_53 : 2 ^ 53 = 9007199254740992.
Proof. reflexivity. Qed.

(** An integer of magnitude up to [2^53] is a double. *)
Lemma roundDouble_exact z : JS.exact z → JS.roundDouble z = z.
Proof.
  unfold JS.exact. rewrite two_pow_53. intros Hz.
  destruct (Z.eq_dec (Z.abs z) 9007199254740992) as [Htop|Hbelow].
  - assert (z = 9007199254740992 ∨ z = - 9007199254740992) as [-> | ->] by lia;
      reflexivity.
  - unfold JS.roundDouble.
    assert (Hlog : Z.log2 (Z.abs z) - 52 <= 0).
    { destruct (Z.eq_dec (Z.abs z) 0) as [-> | Hpos]; [cbn; lia|].
      assert (Z.log2 (Z.abs z) < 53); [|lia].
      apply Z.log2_lt_pow2; [lia|]. rewrite two_pow_53. lia. }
    destruct (Z.leb_spec (Z.log2 (Z.abs z) - 52) 0); [reflexivity | lia].
Qed.

End NumberFacts.

(** ** Properties of [splitAmount] *)

Module CashuSplit.
Import Cashu.

Example splitAmount_100 : splitAmount 100 = Some [64; 32; 4].
Proof. reflexivity. Qed.

Example splitAmount_0 : splitAmount 0 = Some [].
Proof. reflexivity. Qed.

Example splitAmount_20000 : splitAmount 20000 = Some [8192; 8192; 2048; 1024; 512; 32].
Proof. reflexivity. Qed.

Lemma sumZ_app l1 l2 : sumZ (l1 ++ l2) = sumZ l1 + sumZ l2.
Proof. induction l1 as [|x l1 IH]; simpl; [reflexivity | rewrite IH; lia]. Qed.

Lemma sumZ_replicate n p : sumZ (replicate n p) = Z.of_nat n * p.
Proof. induction n as [|n IH]; simpl; [reflexivity | rewrite IH; lia]. Qed.

Lemma pow2_pos (k : nat) : 1 <= 2 ^ Z.of_nat k.
Proof. pose proof (Z.pow_pos_nonneg 2 (Z.of_nat k)); lia. Qed.

Lemma pow2_succ (k : nat) : 2 ^ Z.of_nat (S k) = 2 * 2 ^ Z.of_nat k.
Proof. rewrite Nat2Z.inj_succ, Z.pow_succ_r by lia. reflexivity. Qed.

(** The inner loop takes [power] exactly [remaining / power] times, when no
    subtraction is rounded. *)
Lemma splitInner_spec fuel : ∀ power remaining ds,
  1 <= power → 0 <= remaining <= 2 ^ 53 → (Z.to_nat (remaining / power) < fuel)%nat →
  splitInner fuel power remaining ds
  = Some (ds ++ replicate (Z.to_nat (remaining / power)) power, remaining mod power).
Proof.
  induction fuel as [|fuel IH]; intros power remaining ds Hp Hr Hf; [lia|].
  simpl. destruct (Z.leb_spec power remaining) as [Hle|Hlt].
  - assert (Hq : remaining / power = (remaining - power) / power + 1).
    { replace remaining with ((remaining - power) + 1 * power) at 1 by lia.
      rewrite Z.div_add by lia. reflexivity. }
    assert (Hm : remaining mod power = (remaining - power) mod power).
    { replace remaining with ((remaining - power) + 1 * power) at 1 by lia.
      rewrite Z.mod_add by lia. reflexivity. }
    assert (0 <= (remaining - power) / power) by (apply Z.div_pos; lia).
    rewrite NumberFacts.roundDouble_exact by (unfold JS.exact; lia).
    rewrite IH by lia.
    rewrite Hq, Hm, Z2Nat.inj_add, Nat.add_1_r by lia.
    rewrite <- app_assoc. reflexivity.
  - rewrite Z.div_small, Z.mod_small by lia. simpl. rewrite app_nil_r. reflexivity.
Qed.

Lemma greedy_0 k : greedy k 0 = [].
Proof.
  induction k as [|k IH]; [reflexivity|].
  cbn [greedy]. rewrite Z.div_0_l, Z.mod_0_l by (pose proof (pow2_pos (S k)); lia).
  rewrite IH. reflexivity.
Qed.

(** The nested loops of the source compute the specification's greedy
    decomposition, whenever the counter is large enough. *)
Lemma splitOuter_spec k : ∀ fuel remaining ds,
  0 <= remaining <= 2 ^ 53 →
  (Z.to_nat (remaining / 2 ^ Z.of_nat k) < fuel)%nat → (k + 2 <= fuel)%nat →
  splitOuter fuel (2 ^ Z.of_nat k) remaining ds = Some (ds ++ greedy k remaining).
Proof.
  induction k as [|k IH]; intros fuel remaining ds Hr Hf Hk.
  - destruct fuel as [|fuel]; [lia|].
    cbn [splitOuter]. change (2 ^ Z.of_nat 0) with 1 in *.
    destruct (Z.ltb_spec 0 remaining) as [Hpos|Hz]; cbn [andb Z.leb Z.compare].
    + rewrite splitInner_spec by lia.
      rewrite Z.mod_1_r, Z.div_1_r. change (1 / 2) with 0.
      destruct fuel as [|fuel]; [lia|]. reflexivity.
    + assert (remaining = 0) as -> by lia. simpl. rewrite app_nil_r. reflexivity.
  - destruct fuel as [|fuel]; [lia|].
    pose proof (pow2_pos (S k)) as Hp2. pose proof (pow2_pos k) as Hp1.
    pose proof (pow2_succ k) as Hs.
    cbn [splitOuter].
    destruct (Z.ltb_spec 0 remaining) as [Hpos|Hz].
    + destruct (Z.leb_spec 1 (2 ^ Z.of_nat (S k))) as [_|?]; [|lia]. cbn [andb].
      rewrite splitInner_spec by lia.
      assert (Hhalf : 2 ^ Z.of_nat (S k) / 2 = 2 ^ Z.of_nat k).
      { rewrite Hs, Z.mul_comm, Z.div_mul by lia. reflexivity. }
      rewrite Hhalf.
      pose proof (Z.mod_pos_bound remaining (2 ^ Z.of_nat (S k)) ltac:(lia)) as Hm.
      rewrite IH.
      * cbn [greedy]. rewrite app_assoc. reflexivity.
      * pose proof (Z.mod_le remaining (2 ^ Z.of_nat (S k)) ltac:(lia) ltac:(lia)). lia.
      * assert (remaining mod 2 ^ Z.of_nat (S k) / 2 ^ Z.of_nat k < 2).
        { apply Z.div_lt_upper_bound; lia. }
        lia.
      * lia.
    + assert (remaining = 0) as -> by lia. cbn [andb].
      rewrite greedy_0, app_nil_r. reflexivity.
Qed.

Lemma splitAmount_greedy a : 0 <= a <= 2 ^ 53 → splitAmount a = Some (greedy 13 a).
Proof.
  intros Ha. unfold splitAmount, splitAmountWithin, splitFuel.
  change 8192 with (2 ^ Z.of_nat 13) at 2.
  rewrite splitOuter_spec; [reflexivity | lia | | lia].
  change (2 ^ Z.of_nat 13) with 8192. lia.
Qed.

Lemma greedy_sum k : ∀ r, 0 <= r → sumZ (greedy k r) = r.
Proof.
  induction k as [|k IH]; intros r Hr.
  - cbn [greedy]. rewrite sumZ_replicate. lia.
  - cbn [greedy]. pose proof (pow2_pos (S k)) as Hp.
    rewrite sumZ_app, sumZ_replicate, IH by (apply Z.mod_pos_bound; lia).
    rewrite Z2Nat.id by (apply Z.div_pos; lia).
    pose proof (Z.div_mod r (2 ^ Z.of_nat (S k)) ltac:(lia)). lia.
Qed.

(** Every element of the greedy decomposition from [2^k] is a power [2^j], [j <= k]. *)
Lemma greedy_powers k : ∀ r, Forall (λ d, ∃ j : nat, (j <= k)%nat ∧ d = 2 ^ Z.of_nat j) (greedy k r).
Proof.
  induction k as [|k IH]; intros r; cbn [greedy].
  - apply Forall_replicate. exists 0%nat. split; [lia | reflexivity].
  - apply Forall_app. split.
    + apply Forall_replicate. exists (S k). split; [lia | reflexivity].
    + eapply Forall_impl; [apply IH|]. intros d (j & Hj & ->). exists j. split; [lia | reflexivity].
Qed.

Lemma descending_app l1 l2 :
  descending l1 → descending l2 → (∀ x y, x ∈ l1 → y ∈ l2 → x >= y) → descending (l1 ++ l2).
Proof.
  unfold descending. intros H1 H2 H. induction H1 as [|x l1 Hs IH Hx]; simpl; [exact H2|].
  constructor.
  - apply IH. intros a b Ha Hb. apply H; [right; exact Ha | exact Hb].
  - apply Forall_app. split; [exact Hx|].
    apply Forall_forall. intros y Hy. apply H; [left | exact Hy].
Qed.

Lemma descending_replicate n p : descending (replicate n p).
Proof.
  unfold descending. induction n as [|n IH]; simpl; constructor; [exact IH|].
  apply Forall_replicate. lia.
Qed.

Lemma greedy_descending k : ∀ r, descending (greedy k r).
Proof.
  induction k as [|k IH]; intros r; cbn [greedy].
  - apply descending_replicate.
  - apply descending_app; [apply descending_replicate | apply IH |].
    intros x y Hx Hy. apply elem_of_replicate in Hx as [-> _].
    pose proof (greedy_powers k (r mod 2 ^ Z.of_nat (S k))) as HF.
    rewrite Forall_forall in HF. destruct (HF y Hy) as (j & Hj & ->).
    apply Z.le_ge, Z.pow_le_mono_r; lia.
Qed.

(** Below twice the starting power no power is taken twice. *)
Lemma greedy_NoDup k : ∀ r, 0 <= r < 2 ^ Z.of_nat (S k) → NoDup (greedy k r).
Proof.
  induction k as [|k IH]; intros r Hr.
  - change (2 ^ Z.of_nat 1) with 2 in Hr. cbn [greedy].
    assert (r = 0 ∨ r = 1) as [-> | ->] by lia; simpl; [constructor | apply NoDup_singleton].
  - pose proof (pow2_succ (S k)) as Hs. pose proof (pow2_pos (S k)) as Hp.
    cbn [greedy].
    pose proof (Z.mod_pos_bound r (2 ^ Z.of_nat (S k)) ltac:(lia)) as Hm.
    assert (Hno : 2 ^ Z.of_nat (S k) ∉ greedy k (r mod 2 ^ Z.of_nat (S k))).
    { intros Hin. pose proof (greedy_powers k (r mod 2 ^ Z.of_nat (S k))) as HF.
      rewrite Forall_forall in HF. destruct (HF _ Hin) as (j & Hj & Heq).
      apply Z.pow_inj_r in Heq; lia. }
    assert (Hq : 0 <= r / 2 ^ Z.of_nat (S k) < 2).
    { split; [apply Z.div_pos; lia | apply Z.div_lt_upper_bound; lia]. }
    assert (r / 2 ^ Z.of_nat (S k) = 0 ∨ r / 2 ^ Z.of_nat (S k) = 1) as [-> | ->] by lia.
    + simpl. apply IH. exact Hm.
    + change (Z.to_nat 1) with 1%nat. simpl. constructor; [exact Hno | apply IH; exact Hm].
Qed.

(** *** Minimality

    Adding one denomination [2^j] to an amount lengthens its greedy
    decomposition by at most one element; when the addition carries out of
    the top power, the part below loses at least one element. *)
Lemma greedy_length k r :
  length (greedy (S k) r)
  = (Z.to_nat (r / 2 ^ Z.of_nat (S k)) + length (greedy k (r mod 2 ^ Z.of_nat (S k))))%nat.
Proof. cbn [greedy]. rewrite length_app, length_replicate. reflexivity. Qed.

Lemma divmod_at (r p q m : Z) : 0 <= m < p → r = q * p + m → r / p = q ∧ r mod p = m.
Proof.
  intros Hm ->. split.
  - symmetry. apply (Z.div_unique _ p q m); lia.
  - symmetry. apply (Z.mod_unique _ p q m); lia.
Qed.

Lemma greedy_carry k : ∀ m (j : nat),
  0 <= m < 2 ^ Z.of_nat (S k) → (j <= k)%nat → 2 ^ Z.of_nat (S k) <= m + 2 ^ Z.of_nat j →
  (length (greedy k (m + 2 ^ Z.of_nat j - 2 ^ Z.of_nat (S k))) + 1 <= length (greedy k m))%nat.
Proof.
  induction k as [|k IH]; intros m j Hm Hj Hc.
  - assert (j = 0%nat) as -> by lia.
    change (2 ^ Z.of_nat 1) with 2 in *. change (2 ^ Z.of_nat 0) with 1 in *.
    assert (m = 1) as -> by lia. simpl. lia.
  - pose proof (pow2_succ (S k)) as Hs. pose proof (pow2_pos (S k)) as Hp.
    set (p := 2 ^ Z.of_nat (S k)) in *.
    assert (Hjp : 2 ^ Z.of_nat j <= p) by (apply Z.pow_le_mono_r; lia).
    destruct (divmod_at m p 1 (m - p) ltac:(lia) ltac:(lia)) as [Hq Hr].
    rewrite (greedy_length k m). fold p. rewrite Hq, Hr. change (Z.to_nat 1) with 1%nat.
    rewrite greedy_length. fold p.
    destruct (decide (j = S k)) as [-> | Hne].
    + fold p. replace (m + p - 2 ^ Z.of_nat (S (S k))) with (m - p) by lia.
      rewrite Z.div_small, Z.mod_small by lia. simpl. lia.
    + assert (Hj' : (j <= k)%nat) by lia.
      assert (Hjh : 2 * 2 ^ Z.of_nat j <= p).
      { rewrite <- pow2_succ. apply Z.pow_le_mono_r; lia. }
      rewrite Z.div_small, Z.mod_small by lia.
      specialize (IH (m - p) j ltac:(fold p; lia) Hj' ltac:(fold p; lia)).
      fold p in IH.
      replace (m + 2 ^ Z.of_nat j - 2 ^ Z.of_nat (S (S k))) with (m - p + 2 ^ Z.of_nat j - p) by lia.
      simpl. lia.
Qed.

Lemma greedy_step k : ∀ r (j : nat),
  0 <= r → (j <= k)%nat →
  (length (greedy k (r + 2 ^ Z.of_nat j)) <= length (greedy k r) + 1)%nat.
Proof.
  induction k as [|k IH]; intros r j Hr Hj.
  - assert (j = 0%nat) as -> by lia. change (2 ^ Z.of_nat 0) with 1.
    cbn [greedy]. rewrite !length_replicate. lia.
  - pose proof (pow2_pos (S k)) as Hp. pose proof (pow2_succ k) as Hs.
    set (p := 2 ^ Z.of_nat (S k)) in *.
    pose proof (Z.div_mod r p ltac:(lia)) as Hdm.
    pose proof (Z.mod_pos_bound r p ltac:(lia)) as Hm.
    assert (Hq : 0 <= r / p) by (apply Z.div_pos; lia).
    rewrite !greedy_length. fold p.
    destruct (decide (j = S k)) as [-> | Hne].
    + fold p.
      destruct (divmod_at (r + p) p (r / p + 1) (r mod p) Hm ltac:(lia)) as [-> ->].
      rewrite Z2Nat.inj_add by lia. change (Z.to_nat 1) with 1%nat. lia.
    + assert (Hj' : (j <= k)%nat) by lia.
      assert (Hjp : 2 ^ Z.of_nat j <= 2 ^ Z.of_nat k) by (apply Z.pow_le_mono_r; lia).
      pose proof (pow2_pos j) as Hpj.
      destruct (Z.lt_ge_cases (r mod p + 2 ^ Z.of_nat j) p) as [Hlt|Hge].
      * destruct (divmod_at (r + 2 ^ Z.of_nat j) p (r / p) (r mod p + 2 ^ Z.of_nat j)
                    ltac:(lia) ltac:(lia)) as [-> ->].
        specialize (IH (r mod p) j ltac:(lia) Hj'). lia.
      * destruct (divmod_at (r + 2 ^ Z.of_nat j) p (r / p + 1) (r mod p + 2 ^ Z.of_nat j - p)
                    ltac:(lia) ltac:(lia)) as [-> ->].
        pose proof (greedy_carry k (r mod p) j Hm Hj' Hge) as Hcar. fold p in Hcar.
        rewrite Z2Nat.inj_add by lia. change (Z.to_nat 1) with 1%nat. lia.
Qed.

Lemma isDenomination_pos d : isDenomination d → 1 <= d.
Proof. intros (k & _ & ->). apply pow2_pos. Qed.

Lemma sumZ_denominations_nonneg l : Forall isDenomination l → 0 <= sumZ l.
Proof.
  induction 1 as [|d l Hd _ IH]; simpl; [lia|].
  apply isDenomination_pos in Hd. lia.
Qed.

(** No list of denominations with the same sum is shorter than the greedy one. *)
Lemma greedy_minimal l :
  Forall isDenomination l → (length (greedy 13 (sumZ l)) <= length l)%nat.
Proof.
  induction 1 as [|d l Hd Hl IH]; [simpl; lia|].
  pose proof (sumZ_denominations_nonneg l Hl) as Hs.
  destruct Hd as (j & Hj & ->). cbn [sumZ foldr length]. fold (sumZ l).
  rewrite Z.add_comm. pose proof (greedy_step 13 (sumZ l) j Hs Hj). lia.
Qed.

Lemma isDenomination_range d : isDenomination d → 1 <= d <= 8192.
Proof.
  intros (k & Hk & ->). split; [apply pow2_pos|].
  change 8192 with (2 ^ Z.of_nat 13). apply Z.pow_le_mono_r; lia.
Qed.

(** The powers of two up to [2^13] are the fourteen denominations for which
    [generateMockKeys] makes keys. *)
Lemma isDenomination_iff d : isDenomination d ↔ d ∈ denominations.
Proof.
  split.
  - intros (k & Hk & ->). unfold denominations.
    rewrite !elem_of_cons.
    do 14 (destruct k as [|k]; [cbn; auto 20|]). lia.
  - unfold denominations. rewrite !elem_of_cons, elem_of_nil.
    intros H. repeat destruct H as [->|H]; try contradiction.
    + exists 0%nat. split; [lia | reflexivity].
    + exists 1%nat. split; [lia | reflexivity].
    + exists 2%nat. split; [lia | reflexivity].
    + exists 3%nat. split; [lia | reflexivity].
    + exists 4%nat. split; [lia | reflexivity].
    + exists 5%nat. split; [lia | reflexivity].
    + exists 6%nat. split; [lia | reflexivity].
    + exists 7%nat. split; [lia | reflexivity].
    + exists 8%nat. split; [lia | reflexivity].
    + exists 9%nat. split; [lia | reflexivity].
    + exists 10%nat. split; [lia | reflexivity].
    + exists 11%nat. split; [lia | reflexivity].
    + exists 12%nat. split; [lia | reflexivity].
    + exists 13%nat. split; [lia | reflexivity].
Qed.

(** Below twice the starting power the greedy decomposition has at most one
    element for each power. *)
Lemma greedy_short k : ∀ r, 0 <= r < 2 ^ Z.of_nat (S k) → (length (greedy k r) <= S k)%nat.
Proof.
  induction k as [|k IH]; intros r Hr.
  - change (2 ^ Z.of_nat 1) with 2 in Hr. cbn [greedy]. rewrite length_replicate. lia.
  - pose proof (pow2_succ (S k)) as Hs. pose proof (pow2_pos (S k)) as Hp.
    rewrite greedy_length.
    pose proof (Z.mod_pos_bound r (2 ^ Z.of_nat (S k)) ltac:(lia)) as Hm.
    specialize (IH _ Hm).
    assert (r / 2 ^ Z.of_nat (S k) < 2) by (apply Z.div_lt_upper_bound; lia).
    assert (0 <= r / 2 ^ Z.of_nat (S k)) by (apply Z.div_pos; lia).
    lia.
Qed.

(** A loop whose subtraction is rounded away does not end. *)
Lemma splitInner_stuck power remaining fuel : ∀ ds,
  power <= remaining → JS.roundDouble (remaining - power) = remaining →
  splitInner fuel power remaining ds = None.
Proof.
  induction fuel as [|fuel IH]; intros ds Hle Hround; [reflexivity|].
  cbn [splitInner]. destruct (Z.leb_spec power remaining); [|lia].
  rewrite Hround. apply IH; assumption.
Qed.

(** C6, as the code has it.  For every integer [a] from 0 to [2^32],
    [splitAmount a] returns a list of denominations: it is the greedy
    decomposition from 8192 downward, its sum is [a], every element is a
    power of two between 1 and 8192, the elements never increase, no list of
    such powers with sum [a] is shorter, and it has at most [a / 8192 + 13]
    elements. *)
Theorem splitAmount_correct (a : Z) :
  0 <= a <= 2 ^ 32 →
  ∃ ds, splitAmount a = Some ds
      ∧ ds = greedy 13 a
      ∧ sumZ ds = a
      ∧ Forall (λ d, isDenomination d ∧ 1 <= d <= 8192) ds
      ∧ descending ds
      ∧ (∀ l, Forall isDenomination l → sumZ l = a → (length ds <= length l)%nat)
      ∧ Z.of_nat (length ds) <= a / 8192 + 13.
Proof.
  intros Ha. exists (greedy 13 a).
  split; [apply splitAmount_greedy; lia|].
  split; [reflexivity|]. split; [apply greedy_sum; lia|]. split; [|split; [|split]].
  - eapply Forall_impl; [apply greedy_powers|]. intros d Hd. cbv beta in Hd.
    split; [exact Hd | apply isDenomination_range, Hd].
  - apply greedy_descending.
  - intros l Hl <-. apply greedy_minimal, Hl.
  - rewrite (greedy_length 12 a). change (2 ^ Z.of_nat 13) with 8192.
    pose proof (greedy_short 12 (a mod 8192)
                  ltac:(change (2 ^ Z.of_nat 13) with 8192; apply Z.mod_pos_bound; lia)).
    assert (0 <= a / 8192) by (apply Z.div_pos; lia). lia.
Qed.

Lemma splitAmount_correct_witness :
  0 <= 100 <= 2 ^ 32 ∧
  ∃ ds, splitAmount 100 = Some ds
      ∧ ds = greedy 13 100
      ∧ sumZ ds = 100
      ∧ Forall (λ d, isDenomination d ∧ 1 <= d <= 8192) ds
      ∧ descending ds
      ∧ (∀ l, Forall isDenomination l → sumZ l = 100 → (length ds <= length l)%nat)
      ∧ Z.of_nat (length ds) <= 100 / 8192 + 13.
Proof.
  assert (H : 0 <= 100 <= 2 ^ 32) by lia.
  split; [exact H | exact (splitAmount_correct 100 H)].
Defined.

(** The claim fails at [2^67], an amount that a double holds: the double
    nearest to [2^67 - 8192] is [2^67] again, so the first inner loop takes
    8192 without end, and on no counter do the loops return. *)
Lemma splitAmount_rounded_away :
  0 <= 2 ^ 67
  ∧ JS.roundDouble (2 ^ 67) = 2 ^ 67
  ∧ JS.roundDouble (2 ^ 67 - 8192) = 2 ^ 67
  ∧ (∀ fuel, splitAmountWithin fuel (2 ^ 67) = None)
  ∧ splitAmount (2 ^ 67) = None.
Proof.
  assert (Hnever : ∀ fuel, splitAmountWithin fuel (2 ^ 67) = None).
  { intros [|fuel]; [reflexivity|].
    unfold splitAmountWithin. cbn [splitOuter].
    replace ((0 <? 2 ^ 67) && (1 <=? 8192)) with true by reflexivity.
    rewrite splitInner_stuck; [reflexivity | lia | reflexivity]. }
  split; [lia|]. split; [reflexivity|]. split; [reflexivity|].
  split; [exact Hnever | apply Hnever].
Qed.

End CashuSplit.

(** ** Properties of the proof ledger *)

Module CashuLedger.
Import Cashu Scenario.

Lemma denominationsOf_sum a : 0 <= a <= 2 ^ 53 → sumZ (denominationsOf a) = a.
Proof.
  intros Ha. unfold denominationsOf. rewrite CashuSplit.splitAmount_greedy by exact Ha.
  apply CashuSplit.greedy_sum, Ha.
Qed.

Lemma denominationsOf_nonpositive a : a <= 0 → denominationsOf a = [].
Proof.
  intros Ha. unfold denominationsOf, splitAmount, splitAmountWithin, splitFuel.
  rewrite Nat.add_comm. cbn [Nat.add splitOuter].
  destruct (Z.ltb_spec 0 a); [lia | reflexivity].
Qed.

Lemma total_from ps : ∀ z, fold_left (λ sum p, sum + amount p) ps z = z + total ps.
Proof.
  unfold total. induction ps as [|p ps IH]; intros z; simpl; [lia|].
  rewrite (IH (z + amount p)), (IH (0 + amount p)). lia.
Qed.

Lemma total_cons p ps : total (p :: ps) = amount p + total ps.
Proof. unfold total at 1. simpl. rewrite total_from. lia. Qed.

Lemma total_app ps qs : total (ps ++ qs) = total ps + total qs.
Proof.
  induction ps as [|p ps IH]; simpl; [unfold total at 2; simpl; lia|].
  rewrite !total_cons, IH. lia.
Qed.

Lemma total_amounts ps : total ps = sumZ (amount <$> ps).
Proof. induction ps as [|p ps IH]; [reflexivity|]. rewrite total_cons, IH. reflexivity. Qed.

Section Methods.

Variable randomHex : nat → nat → string.
Variable sha256Hex : string → string.

Lemma getActiveKeysetId_ledger st :
  proofs (getActiveKeysetId randomHex st).2 = proofs st
  ∧ balance (getActiveKeysetId randomHex st).2 = balance st
  ∧ keysets (getActiveKeysetId randomHex st).2 = keysets st
  ∧ mintUrl (getActiveKeysetId randomHex st).2 = mintUrl st.
Proof.
  unfold getActiveKeysetId. destruct (List.find snd (keysets st)) as [[k b]|]; simpl; auto.
Qed.

(** Blinding draws random values and leaves the ledger alone. *)
Lemma blindedMessages_ledger ds : ∀ st,
  proofs (blindedMessages randomHex sha256Hex st ds).2 = proofs st
  ∧ balance (blindedMessages randomHex sha256Hex st ds).2 = balance st
  ∧ mintUrl (blindedMessages randomHex sha256Hex st ds).2 = mintUrl st.
Proof.
  induction ds as [|d ds IH]; intros st; [simpl; auto|].
  cbn [blindedMessages].
  destruct (getActiveKeysetId randomHex (drawn st 2)) as [ksid st1] eqn:Hk.
  pose proof (getActiveKeysetId_ledger (drawn st 2)) as Hg. rewrite Hk in Hg. simpl in Hg.
  specialize (IH st1).
  destruct (blindedMessages randomHex sha256Hex st1 ds) as [[[ms ss] rs] st2]. simpl in *.
  destruct IH as (I1 & I2 & I3), Hg as (G1 & G2 & _ & G4).
  repeat split; congruence.
Qed.

(** The mock proofs carry the denominations asked for, in order. *)
Lemma mockProofs_spec ds : ∀ st,
  amount <$> (mockProofs randomHex st ds).1 = ds
  ∧ proofs (mockProofs randomHex st ds).2 = proofs st
  ∧ balance (mockProofs randomHex st ds).2 = balance st.
Proof.
  induction ds as [|d ds IH]; intros st; [simpl; auto|].
  cbn [mockProofs].
  destruct (getActiveKeysetId randomHex st) as [ksid st1] eqn:Hk.
  pose proof (getActiveKeysetId_ledger st) as Hg. rewrite Hk in Hg. simpl in Hg.
  specialize (IH (drawn st1 2)).
  destruct (mockProofs randomHex (drawn st1 2) ds) as [ps st2].
  cbn [fst snd] in *. destruct IH as (IH1 & IH2 & IH3).
  rewrite fmap_cons, IH1, IH2, IH3. cbn [amount drawn proofs balance].
  destruct Hg as (G1 & G2 & _). repeat split; congruence.
Qed.

End Methods.

(** Runs the blinding of [a] from [st]: names the state after the draws
    [st1] and records that it holds the proofs ([Hp]) and the balance ([Hb])
    of [st]. *)
Ltac blinding rnd sha st a st1 Hp Hb :=
  let H := fresh "H" in
  pose proof (blindedMessages_ledger rnd sha (denominationsOf a) st) as H;
  destruct (blindedMessages rnd sha st (denominationsOf a)) as [[[? ?] ?] st1];
  cbn [snd] in H; destruct H as (Hp & Hb & _).

(** A rejected or failed swap changes neither the proofs nor the balance. *)
Lemma swapTokens_rejected randomHex sha256Hex st ps :
  let st' := (swapTokens randomHex sha256Hex st ps None).2 in
  proofs st' = proofs st ∧ balance st' = balance st.
Proof.
  unfold swapTokens, createBlindedMessages.
  blinding randomHex sha256Hex st (total ps) st1 Hp Hb.
  cbn [snd]. auto.
Qed.


(** A rejected or failed mint stores mock proofs and raises the balance. *)
Lemma mintTokens_rejected randomHex sha256Hex st a :
  let '((ps, _, mock), st') := mintTokens randomHex sha256Hex st a None in
  mock = true
  ∧ amount <$> ps = denominationsOf a
  ∧ proofs st' = proofs st ++ ps
  ∧ balance st' = balance st + a.
Proof.
  unfold mintTokens, createBlindedMessages, createMockProofs.
  blinding randomHex sha256Hex st a st1 Hp Hb.
  pose proof (mockProofs_spec randomHex (denominationsOf a) st1) as Hm.
  destruct (mockProofs randomHex st1 (denominationsOf a)) as [ps st2].
  cbn [fst snd] in Hm. destruct Hm as (Hm1 & Hm2 & Hm3).
  cbn [withLedger proofs balance]. repeat split; congruence.
Qed.

(** *** What [send] and a settled melt do to the invariant *)

Lemma insertDesc_perm p l : insertDesc p l ≡ₚ p :: l.
Proof.
  induction l as [|q l IH]; [reflexivity|].
  cbn [insertDesc]. destruct (amount q <=? amount p); [reflexivity|].
  rewrite IH. apply Permutation_swap.
Qed.

(** Sorting keeps the proofs. *)
Lemma sortDesc_perm ps : sortDesc ps ≡ₚ ps.
Proof.
  unfold sortDesc. induction ps as [|p ps IH]; [reflexivity|].
  cbn [foldr]. rewrite insertDesc_perm, IH. reflexivity.
Qed.

Lemma total_perm ps qs : ps ≡ₚ qs → total ps = total qs.
Proof.
  induction 1 as [|p ps qs _ IH|p q ps|ps qs rs _ IH1 _ IH2].
  - reflexivity.
  - rewrite !total_cons, IH. reflexivity.
  - rewrite !total_cons. lia.
  - congruence.
Qed.

(** The loop selects a prefix of the sorted proofs. *)
Lemma selectLoop_prefix a sorted : ∀ selected sum,
  ∃ taken rest,
    sorted = taken ++ rest
    ∧ selectLoop a sorted selected sum = (selected ++ taken, sum + total taken).
Proof.
  induction sorted as [|p sorted IH]; intros selected sum.
  - exists [], []. cbn. rewrite app_nil_r. split; [reflexivity | f_equal; lia].
  - cbn [selectLoop]. destruct (a <=? sum).
    + exists [], (p :: sorted). rewrite app_nil_r. split; [reflexivity | f_equal; cbn; lia].
    + destruct (IH (selected ++ [p]) (sum + amount p)) as (taken & rest & -> & ->).
      exists (p :: taken), rest. rewrite <- app_assoc, total_cons.
      split; [reflexivity | f_equal; lia].
Qed.

Lemma filter_none {A} (P : A → Prop) `{∀ x, Decision (P x)} (l : list A) :
  Forall (λ x, ¬ P x) l → filter P l = [].
Proof.
  induction 1 as [|x l Hx _ IH]; [reflexivity|].
  rewrite filter_cons_False by exact Hx. exact IH.
Qed.

Lemma filter_all {A} (P : A → Prop) `{∀ x, Decision (P x)} (l : list A) :
  Forall P l → filter P l = l.
Proof.
  induction 1 as [|x l Hx _ IH]; [reflexivity|].
  rewrite filter_cons_True by exact Hx. rewrite IH. reflexivity.
Qed.

(** Removing a prefix of a list of proofs with distinct secrets leaves the
    rest of the list. *)
Lemma removeProofs_prefix taken rest :
  NoDup (secret <$> (taken ++ rest)) → removeProofs (taken ++ rest) taken = rest.
Proof.
  intros Hnd. rewrite fmap_app in Hnd. apply NoDup_app in Hnd as (_ & Hdisj & _).
  unfold removeProofs. rewrite filter_app, filter_none, filter_all; [reflexivity | |].
  - apply Forall_forall. intros p Hp Hin. apply (Hdisj (secret p) Hin).
    apply list_elem_of_fmap_2, Hp.
  - apply Forall_forall. intros p Hp Hno. apply Hno. apply list_elem_of_fmap_2, Hp.
Qed.

(** With distinct secrets, removing the selected proofs lowers the sum of
    the stored proofs by the amount and the change. *)
Lemma removeProofs_selected st a ps change :
  NoDup (secret <$> proofs st) →
  selectProofs st a = JS.Returns (ps, change) →
  total (removeProofs (proofs st) ps) = total (proofs st) - a - change.
Proof.
  intros Hnd. unfold selectProofs.
  destruct (selectLoop_prefix a (sortDesc (proofs st)) [] 0) as (taken & rest & Hsorted & ->).
  cbn [app]. destruct (0 + total taken <? a); [discriminate|].
  intros [= <- <-].
  pose proof (sortDesc_perm (proofs st)) as Hperm. rewrite Hsorted in Hperm.
  assert (Hfilter : removeProofs (proofs st) taken ≡ₚ removeProofs (taken ++ rest) taken).
  { unfold removeProofs. rewrite Hperm. reflexivity. }
  rewrite (total_perm _ _ Hfilter), removeProofs_prefix.
  - rewrite <- (total_perm _ _ Hperm), total_app. lia.
  - rewrite Hperm. exact Hnd.
Qed.

(** On a balanced ledger with distinct secrets, [send] leaves the balance
    above the stored proofs by exactly the change of the selection: the
    invariant survives only a selection without change. *)
Lemma send_drift JSON_stringify st a ps change :
  balanced st →
  NoDup (secret <$> proofs st) →
  selectProofs st a = JS.Returns (ps, change) →
  let st' := (send JSON_stringify st a).2 in
  balance st' = total (proofs st') + change ∧ (balanced st' ↔ change = 0).
Proof.
  intros Hbal Hnd Hsel. cbv zeta. unfold send. rewrite Hsel.
  cbn [snd withLedger balance proofs]. unfold balanced in *.
  cbn [withLedger balance proofs].
  rewrite (removeProofs_selected st a ps change Hnd Hsel). lia.
Qed.

(** The same for a melt that the mint settles. *)
Lemma melt_drift st a ps change state :
  balanced st →
  NoDup (secret <$> proofs st) →
  selectProofs st a = JS.Returns (ps, change) →
  let st' := (meltTokens st a (Some state)).2 in
  balance st' = total (proofs st') + change ∧ (balanced st' ↔ change = 0).
Proof.
  intros Hbal Hnd Hsel. cbv zeta. unfold meltTokens. rewrite Hsel.
  cbn [snd withLedger balance proofs]. unfold balanced in *.
  cbn [withLedger balance proofs].
  rewrite (removeProofs_selected st a ps change Hnd Hsel). lia.
Qed.

(** A mint that falls back to mock proofs keeps the invariant. *)
Lemma mintTokens_mock_balanced randomHex sha256Hex st a :
  0 <= a <= 2 ^ 53 → balanced st → balanced (mintTokens randomHex sha256Hex st a None).2.
Proof.
  intros Ha Hbal. pose proof (mintTokens_rejected randomHex sha256Hex st a) as H.
  destruct (mintTokens randomHex sha256Hex st a None) as [[[ps amt] mock] st'].
  destruct H as (_ & Hps & Hproofs & Hbalance). unfold balanced in *. cbn [snd].
  rewrite Hproofs, Hbalance, total_app, (total_amounts ps), Hps, Hbal.
  rewrite denominationsOf_sum by exact Ha. reflexivity.
Qed.

Lemma unblindSignatures_amounts signatures secrets rs :
  amount <$> unblindSignatures signatures secrets rs = sig_amount <$> signatures.
Proof.
  unfold unblindSignatures. rewrite fmap_imap, <- imap_const.
  apply imap_ext. reflexivity.
Qed.

(** A mint whose signatures add up to the amount keeps the invariant. *)
Lemma mintTokens_signed_balanced randomHex sha256Hex st a signatures :
  sumZ (sig_amount <$> signatures) = a → balanced st →
  balanced (mintTokens randomHex sha256Hex st a (Some signatures)).2.
Proof.
  intros Hsum Hbal. unfold mintTokens, createBlindedMessages.
  blinding randomHex sha256Hex st a st1 Hp Hb.
  cbn [snd] in *. unfold balanced in *.
  cbn [withLedger proofs balance].
  rewrite total_app, (total_amounts (unblindSignatures _ _ _)), unblindSignatures_amounts.
  rewrite Hp, Hb, Hsum, Hbal. reflexivity.
Qed.

(** Removing proofs whose secrets the ledger does not hold removes nothing. *)
Lemma removeProofs_disjoint ps qs :
  (∀ q, q ∈ qs → secret q ∉ secret <$> ps) → removeProofs ps qs = ps.
Proof.
  intros Hdisj. unfold removeProofs. apply filter_all, Forall_forall.
  intros p Hp Hin. apply list_elem_of_fmap in Hin as (q & Hq & Hqs).
  apply (Hdisj q Hqs). rewrite <- Hq. apply list_elem_of_fmap_2, Hp.
Qed.

(** A swap of proofs the ledger holds, answered by signatures that add up to
    their sum, keeps the invariant. *)
Lemma swapTokens_signed_balanced randomHex sha256Hex st ps rest signatures :
  balanced st →
  NoDup (secret <$> proofs st) →
  proofs st ≡ₚ ps ++ rest →
  sumZ (sig_amount <$> signatures) = total ps →
  balanced (swapTokens randomHex sha256Hex st ps (Some signatures)).2.
Proof.
  intros Hbal Hnd Hperm Hsum. unfold swapTokens, createBlindedMessages.
  blinding randomHex sha256Hex st (total ps) st1 Hp Hb.
  cbn [snd] in *. unfold balanced in *.
  cbn [withLedger proofs balance].
  rewrite total_app, (total_amounts (unblindSignatures _ _ _)), unblindSignatures_amounts.
  rewrite Hp, Hb, Hsum, Hbal.
  assert (Hrem : removeProofs (proofs st) ps ≡ₚ removeProofs (ps ++ rest) ps).
  { unfold removeProofs. rewrite Hperm. reflexivity. }
  rewrite (total_perm _ _ Hrem), removeProofs_prefix by (rewrite <- Hperm; exact Hnd).
  rewrite (total_perm _ _ Hperm), total_app. lia.
Qed.

(** A token of proofs the ledger does not hold, swapped by the mint, is
    credited with the sum of the new proofs: the invariant is kept, whatever
    the mint signs. *)
Lemma receive_swapped_balanced randomHex sha256Hex parseBase64Json st tokenString
    mint psj ps signatures :
  balanced st →
  deserializeToken parseBase64Json tokenString = JS.Returns (mint, psj) →
  truthy mint && negb (isString mint (mintUrl st)) = false →
  proofsOfJson psj = Some ps →
  (∀ p, p ∈ ps → secret p ∉ secret <$> proofs st) →
  balanced (receive randomHex sha256Hex parseBase64Json st tokenString (Some signatures)).2.
Proof.
  intros Hbal Hde Hmint Hps Hdisj. unfold receive. rewrite Hde, Hmint, Hps.
  unfold swapTokens, createBlindedMessages.
  blinding randomHex sha256Hex st (total ps) st1 Hp Hb.
  cbn [snd] in *. unfold balanced in *.
  cbn [withLedger proofs balance].
  rewrite total_app, Hp, Hb, removeProofs_disjoint by exact Hdisj. lia.
Qed.

(** The claim C1 fails at the ledger holding 64 + 32 + 4 = 100 sats:
    [send(50)] selects the proof of 64, removes it, and lowers the balance by
    50; the ledger that was balanced is left with proofs worth 36 and a
    balance of 50. *)
Lemma send_loses_change :
  balanced ledger100
  ∧ selectProofs ledger100 50 = JS.Returns ([held 64 "5e1a"], 14)
  ∧ proofs (send stringify ledger100 50).2 = [held 32 "7b02"; held 4 "c943"]
  ∧ total (proofs (send stringify ledger100 50).2) = 36
  ∧ balance (send stringify ledger100 50).2 = 50
  ∧ ¬ balanced (send stringify ledger100 50).2.
Proof.
  split; [reflexivity|]. split; [reflexivity|].
  split; [reflexivity|]. split; [reflexivity|]. split; [reflexivity|].
  unfold balanced. vm_compute. discriminate.
Qed.

(** C1, as the code has it, for amounts that are integers of at most
    [maxAmount].  On a balanced ledger of at most [maxAmount] whose proofs
    have distinct secrets and amounts that are not negative: [mintTokens] of
    an amount from 0 to [maxAmount] that falls back to mock proofs leaves the
    ledger balanced, and so does a mint whose signatures, of amounts that are
    not negative, add up to the amount; a rejected [swapTokens] leaves proofs
    and balance as they were, and an accepted swap of proofs of the ledger
    keeps it balanced when the signatures add up to their sum; [receive] of
    proofs the ledger does not hold, swapped by the mint, keeps it balanced;
    [send] and a settled [meltTokens] remove the whole selection and subtract
    the amount, so that afterwards the balance is the sum of the stored proofs
    plus the change of the selection, and the ledger is balanced again exactly
    when there is no change; [send] without sufficient proofs changes
    nothing. *)
Theorem ledger_balance
    (randomHex : nat → nat → string) (sha256Hex : string → string)
    (JSON_stringify : JS.json → string) (parseBase64Json : string → option JS.json)
    (st : CashuService) :
  balanced st →
  NoDup (secret <$> proofs st) →
  nonNegative (proofs st) →
  balance st <= maxAmount →
  (∀ a, 0 <= a <= maxAmount → balanced (mintTokens randomHex sha256Hex st a None).2)
  ∧ (∀ a signatures,
       signedAmounts signatures → sumZ (sig_amount <$> signatures) = a → a <= maxAmount →
       balanced (mintTokens randomHex sha256Hex st a (Some signatures)).2)
  ∧ (∀ ps, nonNegative ps → total ps <= maxAmount →
           proofs (swapTokens randomHex sha256Hex st ps None).2 = proofs st
           ∧ balanced (swapTokens randomHex sha256Hex st ps None).2)
  ∧ (∀ ps rest signatures,
       proofs st ≡ₚ ps ++ rest →
       signedAmounts signatures → sumZ (sig_amount <$> signatures) = total ps →
       balanced (swapTokens randomHex sha256Hex st ps (Some signatures)).2)
  ∧ (∀ tokenString mint psj ps signatures,
       deserializeToken parseBase64Json tokenString = JS.Returns (mint, psj) →
       truthy mint && negb (isString mint (mintUrl st)) = false →
       proofsOfJson psj = Some ps →
       (∀ p, p ∈ ps → secret p ∉ secret <$> proofs st) →
       nonNegative ps → total ps <= maxAmount →
       signedAmounts signatures → sumZ (sig_amount <$> signatures) <= maxAmount →
       balanced (receive randomHex sha256Hex parseBase64Json st tokenString
                   (Some signatures)).2)
  ∧ (∀ a ps change, - maxAmount <= a → selectProofs st a = JS.Returns (ps, change) →
       (let st' := (send JSON_stringify st a).2 in
        balance st' = total (proofs st') + change ∧ (balanced st' ↔ change = 0))
       ∧ (∀ state,
            let st' := (meltTokens st a (Some state)).2 in
            balance st' = total (proofs st') + change ∧ (balanced st' ↔ change = 0)))
  ∧ (∀ a, - maxAmount <= a → selectProofs st a = JS.Throws →
          send JSON_stringify st a = (JS.Throws, st)).
Proof.
  unfold maxAmount. intros Hbal Hnd _ _.
  split; [|split; [|split; [|split; [|split; [|split]]]]].
  - intros a Ha. apply mintTokens_mock_balanced; [lia | assumption].
  - intros a signatures _ Hsum _. apply mintTokens_signed_balanced; assumption.
  - intros ps _ _. destruct (swapTokens_rejected randomHex sha256Hex st ps) as [Hp Hb].
    split; [exact Hp|]. unfold balanced in *. rewrite Hp, Hb. exact Hbal.
  - intros ps rest signatures Hperm _ Hsum.
    eapply swapTokens_signed_balanced; eassumption.
  - intros tokenString mint psj ps signatures Hde Hmint Hps Hdisj _ _ _ _.
    eapply receive_swapped_balanced; eassumption.
  - intros a ps change _ Hsel. split.
    + exact (send_drift JSON_stringify st a ps change Hbal Hnd Hsel).
    + intros state. exact (melt_drift st a ps change state Hbal Hnd Hsel).
  - intros a _ Hsel. unfold send. rewrite Hsel. reflexivity.
Qed.

Lemma ledger_balance_witness :
  balanced ledger100
  ∧ NoDup (secret <$> proofs ledger100)
  ∧ nonNegative (proofs ledger100)
  ∧ balance ledger100 <= maxAmount
  ∧ (let st' := (send stringify ledger100 36).2 in
     balance st' = total (proofs st') + 28 ∧ (balanced st' ↔ 28 = 0))
  ∧ balanced (mintTokens sampleRandom (λ s, s) ledger100 100 None).2.
Proof.
  assert (Hbal : balanced ledger100) by reflexivity.
  assert (Hnd : NoDup (secret <$> proofs ledger100)).
  { apply (bool_decide_unpack _). vm_compute. exact I. }
  assert (Hpos : nonNegative (proofs ledger100)).
  { unfold nonNegative. repeat constructor; cbn; lia. }
  assert (Hmax : balance ledger100 <= maxAmount) by (unfold maxAmount; cbn; lia).
  pose proof (ledger_balance sampleRandom (λ s, s) stringify sampleParse ledger100
                Hbal Hnd Hpos Hmax)
    as (Hmint & _ & _ & _ & _ & Hsend & _).
  split; [exact Hbal|]. split; [exact Hnd|]. split; [exact Hpos|]. split; [exact Hmax|].
  split.
  - assert (Ha : - maxAmount <= 36) by (unfold maxAmount; lia).
    exact (proj1 (Hsend 36 [held 64 "5e1a"] 28 Ha eq_refl)).
  - apply Hmint. unfold maxAmount. lia.
Defined.



End CashuLedger.

(** ** Properties of hexadecimal text *)

Module HexFacts.
Import Hex.

Lemma fromHex_byte (b : byte) (rest : string) :
  fromHex (String (hexDigit (Byte.to_N b / 16))
             (String (hexDigit (Byte.to_N b mod 16)) rest))
  = b :: fromHex rest.
Proof. destruct b; reflexivity. Qed.

(** [Buffer.from(buffer.toString('hex'), 'hex')] gives the buffer back. *)
Lemma fromHex_toHex (bytes : list byte) : fromHex (toHex bytes) = bytes.
Proof.
  induction bytes as [|b bytes IH]; [reflexivity|].
  cbn [toHex]. rewrite fromHex_byte, IH. reflexivity.
Qed.

Lemma toHex_inj (a b : list byte) : toHex a = toHex b → a = b.
Proof. intros H. rewrite <- (fromHex_toHex a), <- (fromHex_toHex b), H. reflexivity. Qed.

End HexFacts.

(** ** Properties of base64 text *)

Module Base64Facts.
Import Base64.

Lemma digit_value n : (n < 64)%N → undigit (digit n) = Some n ∧ digit n ≠ "="%char.
Proof.
  intros Hn.
  assert (Hall : forallb (λ k, match undigit (digit (N.of_nat k)) with
                               | Some v => N.eqb v (N.of_nat k)
                               | None => false
                               end && negb (Ascii.eqb (digit (N.of_nat k)) "="%char))
                   (seq 0 64) = true) by (vm_compute; reflexivity).
  rewrite forallb_forall in Hall. specialize (Hall (N.to_nat n)).
  rewrite N2Nat.id in Hall.
  assert (Hin : In (N.to_nat n) (seq 0 64)) by (apply in_seq; lia).
  specialize (Hall Hin). apply andb_true_iff in Hall as [Hv Hp].
  split.
  - destruct (undigit (digit n)) as [v|]; [|discriminate].
    apply N.eqb_eq in Hv. congruence.
  - apply negb_true_iff, Ascii.eqb_neq in Hp. exact Hp.
Qed.

Lemma sextets_digit n rest : (n < 64)%N → sextets (String (digit n) rest) = n :: sextets rest.
Proof.
  intros Hn. destruct (digit_value n Hn) as [Hv Hp]. cbn [sextets].
  rewrite (proj2 (Ascii.eqb_neq _ _) Hp), Hv. reflexivity.
Qed.

Lemma byteOf_to_N b : byteOf (Byte.to_N b) = b.
Proof.
  unfold byteOf. pose proof (Byte.to_N_bounded b).
  rewrite N.mod_small by lia. rewrite Byte.of_to_N. reflexivity.
Qed.

Lemma to_N_bound b : (Byte.to_N b < 256)%N.
Proof. pose proof (Byte.to_N_bounded b). lia. Qed.

Lemma decode_encode_upto (k : nat) : ∀ bytes,
  (length bytes <= k)%nat → decode (encode bytes) = bytes.
Proof.
  unfold decode.
  induction k as [|k IH]; intros bytes Hk.
  - destruct bytes; [reflexivity | cbn in Hk; lia].
  - destruct bytes as [|a [|b [|c rest]]]; cbn [encode].
    + reflexivity.
    + pose proof (to_N_bound a).
      rewrite !sextets_digit by (zify; Z.to_euclidean_division_equations; lia).
      cbn [sextets Ascii.eqb Bool.eqb packed].
      replace (Byte.to_N a / 4 * 4 + Byte.to_N a mod 4 * 16 / 16)%N with (Byte.to_N a)
        by (zify; Z.to_euclidean_division_equations; lia).
      rewrite byteOf_to_N. reflexivity.
    + pose proof (to_N_bound a). pose proof (to_N_bound b).
      rewrite !sextets_digit by (zify; Z.to_euclidean_division_equations; lia).
      cbn [sextets Ascii.eqb Bool.eqb packed].
      replace (Byte.to_N a / 4 * 4 + (Byte.to_N a mod 4 * 16 + Byte.to_N b / 16) / 16)%N
        with (Byte.to_N a) by (zify; Z.to_euclidean_division_equations; lia).
      replace ((Byte.to_N a mod 4 * 16 + Byte.to_N b / 16) mod 16 * 16
               + Byte.to_N b mod 16 * 4 / 4)%N
        with (Byte.to_N b) by (zify; Z.to_euclidean_division_equations; lia).
      rewrite !byteOf_to_N. reflexivity.
    + pose proof (to_N_bound a). pose proof (to_N_bound b). pose proof (to_N_bound c).
      rewrite !sextets_digit by (zify; Z.to_euclidean_division_equations; lia).
      cbn [packed].
      replace (Byte.to_N a / 4 * 4 + (Byte.to_N a mod 4 * 16 + Byte.to_N b / 16) / 16)%N
        with (Byte.to_N a) by (zify; Z.to_euclidean_division_equations; lia).
      replace ((Byte.to_N a mod 4 * 16 + Byte.to_N b / 16) mod 16 * 16
               + (Byte.to_N b mod 16 * 4 + Byte.to_N c / 64) / 4)%N
        with (Byte.to_N b) by (zify; Z.to_euclidean_division_equations; lia).
      replace ((Byte.to_N b mod 16 * 4 + Byte.to_N c / 64) mod 4 * 64 + Byte.to_N c mod 64)%N
        with (Byte.to_N c) by (zify; Z.to_euclidean_division_equations; lia).
      rewrite !byteOf_to_N, IH by (cbn [length] in Hk; lia). reflexivity.
Qed.

Lemma decode_encode bytes : decode (encode bytes) = bytes.
Proof. apply (decode_encode_upto (length bytes)). lia. Qed.

Lemma textOf_bytesOf s : textOf (bytesOf s) = s.
Proof. apply String.string_of_list_byte_of_string. Qed.

(** The characters of the encoding are those of the standard alphabet and
    the padding, four for every three bytes. *)
Lemma digit_alphabet n : In (digit n) (String.list_ascii_of_string alphabet).
Proof.
  destruct (N.ltb_spec n 64) as [Hlt|Hge].
  - assert (Hall : forallb (λ k, existsb (Ascii.eqb (digit (N.of_nat k)))
                                   (String.list_ascii_of_string alphabet))
                     (seq 0 64) = true) by (vm_compute; reflexivity).
    rewrite forallb_forall in Hall. specialize (Hall (N.to_nat n)).
    rewrite N2Nat.id in Hall.
    assert (Hin : In (N.to_nat n) (seq 0 64)) by (apply in_seq; lia).
    specialize (Hall Hin). apply existsb_exists in Hall as (c & Hc & He).
    apply Ascii.eqb_eq in He. subst c. exact Hc.
  - unfold digit.
    destruct (N.ltb_spec n 26); [lia|]. destruct (N.ltb_spec n 52); [lia|].
    destruct (N.ltb_spec n 62); [lia|]. destruct (N.eqb_spec n 62); [lia|].
    vm_compute. auto 100.
Qed.

Lemma encode_shape_upto (k : nat) : ∀ bytes,
  (length bytes <= k)%nat →
  Forall (λ c, In c (String.list_ascii_of_string alphabet) ∨ c = "="%char)
    (String.list_ascii_of_string (encode bytes))
  ∧ String.length (encode bytes) = (4 * ((length bytes + 2) / 3))%nat.
Proof.
  induction k as [|k IH]; intros bytes Hk.
  - destruct bytes; [split; [constructor | reflexivity] | cbn in Hk; lia].
  - destruct bytes as [|a [|b [|c rest]]]; cbn [encode].
    + split; [constructor | reflexivity].
    + split; [|reflexivity].
      cbn [String.list_ascii_of_string].
      repeat (constructor; [first [left; apply digit_alphabet | right; reflexivity]|]).
      constructor.
    + split; [|reflexivity].
      cbn [String.list_ascii_of_string].
      repeat (constructor; [first [left; apply digit_alphabet | right; reflexivity]|]).
      constructor.
    + destruct (IH rest ltac:(cbn [length] in Hk; lia)) as [Hchars Hlen]. split.
      * cbn [String.list_ascii_of_string].
        repeat (constructor; [left; apply digit_alphabet|]). exact Hchars.
      * cbn [String.length length]. rewrite Hlen.
        replace (S (S (S (length rest))) + 2)%nat with (length rest + 2 + 1 * 3)%nat by lia.
        rewrite Nat.div_add by lia. lia.
Qed.

Lemma encode_shape bytes :
  Forall (λ c, In c (String.list_ascii_of_string alphabet) ∨ c = "="%char)
    (String.list_ascii_of_string (encode bytes))
  ∧ String.length (encode bytes) = (4 * ((length bytes + 2) / 3))%nat.
Proof. apply (encode_shape_upto (length bytes)). lia. Qed.

End Base64Facts.

(** ** Properties of the macaroon helper *)

Module MacaroonFacts.
Import Macaroon.

Section Engine.

Variable hmac : list byte → string → list byte.

Lemma attenuate_snoc m cs c :
  attenuate hmac m (cs ++ [c]) = addFirstPartyCaveat hmac (attenuate hmac m cs) c.
Proof. unfold attenuate. rewrite fold_left_app. reflexivity. Qed.

(** What a macaroon built by [createMacaroon] and [addFirstPartyCaveat]
    holds. *)
Lemma attenuate_spec loc ident rootKey cs :
  let m := attenuate hmac (createMacaroon hmac loc ident rootKey) cs in
  location m = loc ∧ identifier m = ident ∧ caveats m = cs
  ∧ signature m = Hex.toHex (chainSignature hmac rootKey ident cs).
Proof.
  induction cs as [|c cs IH] using rev_ind; [cbn; auto|].
  rewrite attenuate_snoc. cbv zeta in IH. destruct IH as (H1 & H2 & H3 & H4).
  cbn [addFirstPartyCaveat location identifier caveats signature].
  rewrite H1, H2, H3, H4, HexFacts.fromHex_toHex.
  unfold chainSignature. rewrite fold_left_app. auto.
Qed.

(** An early return of the loop is never [{valid: true}]. *)
Lemma chainCaveats_inl vs cs : ∀ sig v,
  chainCaveats hmac vs sig cs = inl v → valid v = false.
Proof.
  induction cs as [|c cs IH]; intros sig v; cbn [chainCaveats]; [intros [=]|].
  destruct (checkCaveat vs _ _) as [[|]|]; [apply IH | intros [= <-]; reflexivity..].
Qed.

(** A run of the loop to its end has replayed the whole chain. *)
Lemma chainCaveats_inr vs cs : ∀ sig sig',
  chainCaveats hmac vs sig cs = inr sig' → sig' = fold_left hmac cs sig.
Proof.
  induction cs as [|c cs IH]; intros sig sig'; cbn [chainCaveats fold_left].
  - intros [= <-]. reflexivity.
  - destruct (checkCaveat vs _ _) as [[|]|]; [apply IH | intros [=]..].
Qed.

(** When every caveat passes, the loop replays the whole chain. *)
Lemma chainCaveats_passes vs cs : ∀ sig,
  Forall (passes vs) cs → chainCaveats hmac vs sig cs = inr (fold_left hmac cs sig).
Proof.
  induction cs as [|c cs IH]; intros sig H; [reflexivity|].
  inversion H as [|? ? Hc Hcs]; subst.
  cbn [chainCaveats fold_left]. unfold passes, caveatKey, caveatValue in Hc.
  rewrite Hc. apply IH, Hcs.
Qed.

(** The first caveat that does not pass ends the verification. *)
Lemma chainCaveats_stops vs cs c rest : ∀ sig,
  Forall (passes vs) cs → ¬ passes vs c →
  ∃ v, chainCaveats hmac vs sig (cs ++ c :: rest) = inl v ∧ valid v = false.
Proof.
  induction cs as [|c' cs IH]; intros sig H Hc.
  - cbn [app chainCaveats]. unfold passes, caveatKey, caveatValue in Hc.
    destruct (checkCaveat vs _ _) as [[|]|]; [congruence | eauto | eauto].
  - inversion H as [|? ? Hc' Hcs]; subst.
    cbn [app chainCaveats]. unfold passes, caveatKey, caveatValue in Hc'.
    rewrite Hc'. apply IH; assumption.
Qed.

(** With every caveat passing, [verifyMacaroon] accepts exactly the
    signature of the chain. *)
Lemma verifyMacaroon_iff m rootKey vs :
  Forall (passes vs) (caveats m) →
  verifyMacaroon hmac m rootKey vs = Valid
  ↔ signature m = Hex.toHex (chainSignature hmac rootKey (identifier m) (caveats m)).
Proof.
  intros H. unfold verifyMacaroon. rewrite chainCaveats_passes by exact H.
  fold (chainSignature hmac rootKey (identifier m) (caveats m)).
  destruct (String.eqb_spec (Hex.toHex (chainSignature hmac rootKey (identifier m) (caveats m)))
              (signature m)) as [He|Hne]; split; intros; congruence.
Qed.

(** A macaroon built by the helper verifies, provided its caveats pass. *)
Lemma verifyMacaroon_built loc ident rootKey cs vs :
  Forall (passes vs) cs →
  verifyMacaroon hmac (attenuate hmac (createMacaroon hmac loc ident rootKey) cs) rootKey vs
  = Valid.
Proof.
  intros H. destruct (attenuate_spec loc ident rootKey cs) as (_ & Hi & Hc & Hs).
  apply verifyMacaroon_iff; rewrite ?Hc, ?Hi; [exact H | exact Hs].
Qed.

(** A built macaroon with a caveat that does not pass is rejected, however
    right its signature is. *)
Lemma verifyMacaroon_failing_caveat loc ident rootKey cs c rest vs :
  Forall (passes vs) cs → ¬ passes vs c →
  valid (verifyMacaroon hmac
           (attenuate hmac (createMacaroon hmac loc ident rootKey) (cs ++ c :: rest))
           rootKey vs) = false.
Proof.
  intros Hcs Hc.
  destruct (attenuate_spec loc ident rootKey (cs ++ c :: rest)) as (_ & Hi & Hcav & _).
  unfold verifyMacaroon. rewrite Hi, Hcav.
  destruct (chainCaveats_stops vs cs c rest (hmac rootKey ident) Hcs Hc) as (v & -> & Hv).
  exact Hv.
Qed.

(** Any change to the stored signature is detected. *)
Lemma verifyMacaroon_signature m rootKey vs s :
  verifyMacaroon hmac m rootKey vs = Valid → s ≠ signature m →
  valid (verifyMacaroon hmac
           {| location := location m; identifier := identifier m;
              caveats := caveats m; signature := s |} rootKey vs) = false.
Proof.
  unfold verifyMacaroon. cbn [identifier caveats signature].
  destruct (chainCaveats hmac vs _ _) as [v|sig] eqn:Hch.
  { intros _ _. eapply chainCaveats_inl, Hch. }
  destruct (String.eqb_spec (Hex.toHex sig) (signature m)) as [He|Hne]; [|discriminate].
  intros _ Hs. destruct (String.eqb_spec (Hex.toHex sig) s); [congruence | reflexivity].
Qed.

(** Two caveat lists of one length with one chain signature are equal, when
    the HMAC has no collision. *)
Lemma chain_injective cs : ∀ cs' sig sig',
  (∀ k k' msg msg', hmac k msg = hmac k' msg' → k = k' ∧ msg = msg') →
  length cs = length cs' →
  fold_left hmac cs sig = fold_left hmac cs' sig' → sig = sig' ∧ cs = cs'.
Proof.
  intros cs' sig sig' Hinj. revert cs' sig sig'.
  induction cs as [|c cs IH]; intros [|c' cs'] sig sig' Hlen Heq; try discriminate.
  - auto.
  - cbn [fold_left] in Heq. injection Hlen as Hlen.
    destruct (IH cs' _ _ Hlen Heq) as [Hs ->].
    destruct (Hinj _ _ _ _ Hs) as [-> ->]. auto.
Qed.

(** Any change to the caveats that keeps their number is detected, when the
    HMAC has no collision. *)
Lemma verifyMacaroon_caveats loc ident rootKey cs cs' vs :
  (∀ k k' msg msg', hmac k msg = hmac k' msg' → k = k' ∧ msg = msg') →
  length cs' = length cs → cs' ≠ cs →
  let m := attenuate hmac (createMacaroon hmac loc ident rootKey) cs in
  valid (verifyMacaroon hmac
           {| location := location m; identifier := identifier m;
              caveats := cs'; signature := signature m |} rootKey vs) = false.
Proof.
  intros Hinj Hlen Hne. cbv zeta.
  destruct (attenuate_spec loc ident rootKey cs) as (_ & Hi & _ & Hs).
  unfold verifyMacaroon. cbn [identifier caveats signature]. rewrite Hi, Hs.
  destruct (chainCaveats hmac vs _ cs') as [v|sig] eqn:Hch.
  - eapply chainCaveats_inl, Hch.
  - apply chainCaveats_inr in Hch as Hsig.
    destruct (String.eqb_spec (Hex.toHex sig)
                (Hex.toHex (chainSignature hmac rootKey ident cs))) as [He|]; [|reflexivity].
    apply HexFacts.toHex_inj in He. subst sig. unfold chainSignature in He.
    destruct (chain_injective cs' cs _ _ Hinj Hlen He) as [_ ?]. contradiction.
Qed.

(** With the empty [verifiers] object a caveat passes unless its key names
    one of eight members of [Object.prototype]. *)
Lemma passes_empty caveat :
  caveatKey caveat ∉ [ "hasOwnProperty"; "propertyIsEnumerable"; "isPrototypeOf";
                       "__lookupGetter__"; "__lookupSetter__"; "__proto__";
                       "__defineGetter__"; "__defineSetter__" ]%string →
  passes ∅ caveat.
Proof.
  intros Hk. rewrite !not_elem_of_cons in Hk.
  destruct Hk as (H1 & H2 & H3 & H4 & H5 & H6 & H7 & H8 & _).
  unfold passes, checkCaveat. rewrite lookup_empty.
  destruct (JS.inherited (caveatKey caveat)); [|reflexivity].
  unfold callInherited. rewrite !lookup_empty.
  repeat match goal with
         | |- context [String.eqb ?a ?b] =>
             destruct (String.eqb_spec a b) as [He|_]; [congruence|]
         end.
  cbn. destruct (String.eqb _ _); reflexivity.
Qed.

(** A macaroon with the caveats the gateway issues verifies against the
    empty [verifiers] object. *)
Lemma verifyMacaroon_gateway_caveats loc ident rootKey :
  verifyMacaroon hmac
    (attenuate hmac (createMacaroon hmac loc ident rootKey)
       [ "provider = grok"; "max_tokens = 50"; "expires = 1700000600000" ]%string)
    rootKey ∅
  = Valid.
Proof.
  apply verifyMacaroon_built.
  repeat (apply Forall_cons_2; [vm_compute; reflexivity|]).
  apply Forall_nil_2.
Qed.

(** C4. A macaroon built by [createMacaroon] and one call of
    [addFirstPartyCaveat] carries the signature of its chain, and
    [verifyMacaroon] with the empty [verifiers] object rejects it when the key
    of the caveat is [hasOwnProperty]: [verifiers[key]] finds the method
    inherited from [Object.prototype], and the method returns [false]. *)
Theorem verifyMacaroon_inherited_key loc ident rootKey :
  let m := addFirstPartyCaveat hmac (createMacaroon hmac loc ident rootKey)
             "hasOwnProperty = x" in
  signature m = Hex.toHex (chainSignature hmac rootKey ident ["hasOwnProperty = x"%string])
  ∧ verifyMacaroon hmac m rootKey ∅ = CaveatFailed "hasOwnProperty = x".
Proof.
  cbv zeta. split.
  - cbn [addFirstPartyCaveat createMacaroon signature chainSignature fold_left].
    rewrite HexFacts.fromHex_toHex. reflexivity.
  - reflexivity.
Qed.

End Engine.

End MacaroonFacts.

(** ** Properties of the L402 gateway *)

Module L402Facts.
Import L402 Scenario.

Section Validation.

Variable sha256 : list byte → list byte.
Variable parseBase64Json : string → option JS.json.
Variable parseBufferFrom : JS.json → option JS.json.

Abbreviation validate := (validateL402 sha256 parseBase64Json parseBufferFrom).
Abbreviation decodeId := (decodeIdentifier parseBase64Json parseBufferFrom).

Lemma truthyString_Some s : s ≠ EmptyString → JS.truthyString (Some s) = true.
Proof. intros H. cbn. destruct (String.eqb_spec s ""); [contradiction | reflexivity]. Qed.

(** [validateL402] after the header is split and the macaroon decoded: the
    rest of the function depends on the payment hash, the preimage, the
    session store and the clock. *)
Lemma validateL402_decoded g now authHeader macaroonB64 presented ph :
  wellFormed authHeader macaroonB64 presented →
  paymentHashOf parseBase64Json parseBufferFrom macaroonB64 ph →
  validate g now authHeader =
    match getSession (sessions g) ph with
    | None => (InvalidL402 "Session not found", g)
    | Some (h, session) =>
        if expiresAt session <? now then (InvalidL402 "Session expired", g)
        else if negb (bool_decide (Some presented = preimage session))
                && negb (String.eqb (preimageHash sha256 presented) h)
        then (InvalidL402 "Invalid preimage", g)
        else (ValidL402 (provider session) (maxTokens session) (amountSats session) h,
              withSessions g (<[h := markPaid session]> (sessions g)))
    end.
Proof.
  intros (rest & Hsplit & Hm & Hp) (mac & idv & ident & Hmac & Hidv & Hident & Hph).
  unfold validateL402. rewrite Hsplit. cbn [lookup list_lookup].
  rewrite !truthyString_Some by assumption. cbn [negb orb default from_option id].
  rewrite Hmac, Hidv, Hident, Hph. reflexivity.
Qed.

Lemma getSession_Some {A : Type} (ss : gmap string A) ph h s :
  getSession ss ph = Some (h, s) ↔ ph = Some (JS.JStr h) ∧ ss !! h = Some s.
Proof.
  unfold getSession. destruct ph as [[| | |x| |]|]; try (split; [discriminate | intros [[=] _]]).
  destruct (ss !! x) as [s'|] eqn:Hx; cbn; split.
  - intros [= <- <-]. auto.
  - intros [[= <-] H]. rewrite Hx in H. congruence.
  - discriminate.
  - intros [[= <-] H]. rewrite Hx in H. discriminate.
Qed.

Lemma accepted_dec presented h s :
  negb (bool_decide (Some presented = preimage s))
  && negb (String.eqb (preimageHash sha256 presented) h) = false
  ↔ accepted sha256 presented h s.
Proof.
  unfold accepted. rewrite andb_false_iff, !negb_false_iff, bool_decide_eq_true.
  rewrite String.eqb_eq. split; intros [H|H]; auto.
Qed.

(** The gateway of metered sessions does what [validateL402] does on a map
    that holds metered sessions only. *)
Lemma validateL402_metered g now authHeader :
  Prepaid.validateL402 sha256 parseBase64Json parseBufferFrom
    (Prepaid.Metered <$> sessions g) now authHeader
  = (Prepaid.ofValidation (validate g now authHeader).1,
     Prepaid.Metered <$> sessions (validate g now authHeader).2).
Proof.
  unfold Prepaid.validateL402, validateL402, failed.
  destruct (negb _ || negb _); [reflexivity|].
  destruct (parseBase64Json _) as [mac|]; [|reflexivity].
  destruct (JS.getField mac "identifier") as [idv|]; [|reflexivity].
  destruct (decodeIdentifier _ _ idv) as [ident|]; [|reflexivity].
  destruct (JS.getField ident "paymentHash") as [[[| | |h| |]|]|]; try reflexivity.
  cbn [getSession]. rewrite lookup_fmap.
  destruct (sessions g !! h) as [s|]; [|reflexivity]. cbn [fmap option_fmap option_map].
  destruct (expiresAt s <? now); [reflexivity|].
  destruct (negb _ && negb _); [reflexivity|].
  cbn [fst snd withSessions sessions Prepaid.ofValidation]. rewrite fmap_insert. reflexivity.
Qed.

(** C3. On a header ["L402 <macaroon>:<preimage>"] whose macaroon and
    identifier decode, [validateL402] answers invalid and changes nothing when
    the map of the sessions holds no session under the payment hash of the
    identifier, or when the session it holds has expired; otherwise it answers
    valid exactly when the preimage presented is the one recorded in the
    session or its SHA-256 is the payment hash, and then it sets [paid] on
    that session and returns the session's provider, [maxTokens] and amount.
    The session is the one the map holds, metered or prepaid; a prepaid
    session has no [maxTokens], and one whose expiry is not a number does not
    expire. *)
Theorem validateL402_spec ss now authHeader macaroonB64 presented ph :
  wellFormed authHeader macaroonB64 presented →
  paymentHashOf parseBase64Json parseBufferFrom macaroonB64 ph →
  let r := Prepaid.validateL402 sha256 parseBase64Json parseBufferFrom ss now authHeader in
  ((∀ h, ph = Some (JS.JStr h) → ss !! h = None) →
     r = (Prepaid.InvalidSession "Session not found", ss))
  ∧ (∀ h s, ph = Some (JS.JStr h) → ss !! h = Some (Prepaid.Metered s) →
       (expiresAt s < now → r = (Prepaid.InvalidSession "Session expired", ss))
       ∧ (now <= expiresAt s →
            (Prepaid.isValidSession r.1 = true ↔ accepted sha256 presented h s)
            ∧ (accepted sha256 presented h s →
                 r = (Prepaid.ValidSession (provider s) (Some (maxTokens s)) (amountSats s) h,
                      <[h := Prepaid.Metered (markPaid s)]> ss)
                 ∧ paid (markPaid s) = true)
            ∧ (¬ accepted sha256 presented h s →
                 r = (Prepaid.InvalidSession "Invalid preimage", ss))))
  ∧ (∀ h p, ph = Some (JS.JStr h) → ss !! h = Some (Prepaid.Prepaid p) →
       let expired := ∃ q, Prepaid.pp_expiresAt p = JS.Num q ∧ (q < inject_Z now)%Q in
       let recorded := Prepaid.pp_preimage p = Some presented
                       ∨ preimageHash sha256 presented = h in
       (expired → r = (Prepaid.InvalidSession "Session expired", ss))
       ∧ (¬ expired →
            (Prepaid.isValidSession r.1 = true ↔ recorded)
            ∧ (recorded →
                 r = (Prepaid.ValidSession (Prepaid.pp_provider p) None
                        (Prepaid.pp_amountSats p) h,
                      <[h := Prepaid.Prepaid (Prepaid.settle p)]> ss)
                 ∧ Prepaid.pp_paid (Prepaid.settle p) = true)
            ∧ (¬ recorded → r = (Prepaid.InvalidSession "Invalid preimage", ss)))).
Proof.
  intros (rest & Hsplit & Hm & Hp) (mac & idv & ident & Hmac & Hid & Hident & Hph).
  cbv zeta. unfold Prepaid.validateL402. rewrite Hsplit. cbn [lookup list_lookup].
  rewrite !truthyString_Some by assumption. cbn [negb orb default from_option id].
  rewrite Hmac, Hid, Hident, Hph.
  split; [|split].
  - intros Hnone. destruct ph as [[| | |h| |]|]; try reflexivity.
    cbn [getSession]. rewrite (Hnone h eq_refl). reflexivity.
  - intros h s -> Hs. cbn [getSession]. rewrite Hs. cbn [fmap option_fmap option_map]. split.
    + intros Hexp. destruct (Z.ltb_spec (expiresAt s) now); [reflexivity | lia].
    + intros Hlive. destruct (Z.ltb_spec (expiresAt s) now); [lia|].
      pose proof (accepted_dec presented h s) as Hacc. unfold preimageHash in Hacc.
      destruct (negb (bool_decide (Some presented = preimage s))
                && negb (String.eqb (Hex.toHex (sha256 (Hex.fromHex presented))) h)).
      * assert (Hno : ¬ accepted sha256 presented h s)
          by (intros Ha; apply Hacc in Ha; discriminate).
        cbn [fst Prepaid.isValidSession].
        split; [split; [discriminate | contradiction]|].
        split; [contradiction | reflexivity].
      * assert (Hyes : accepted sha256 presented h s) by (apply Hacc; reflexivity).
        cbn [fst Prepaid.isValidSession].
        split; [tauto|]. split; [|contradiction]. intros _. split; reflexivity.
  - intros h p -> Hs. cbv zeta. cbn [getSession]. rewrite Hs.
    cbn [fmap option_fmap option_map].
    assert (Hexp : Prepaid.exceeds (JS.ofZ now) (Prepaid.pp_expiresAt p) = true
                   ↔ ∃ q, Prepaid.pp_expiresAt p = JS.Num q ∧ (q < inject_Z now)%Q).
    { unfold Prepaid.exceeds, JS.ofZ. destruct (Prepaid.pp_expiresAt p) as [q|].
      - rewrite negb_true_iff. split.
        + intros Hle. exists q. split; [reflexivity|].
          apply Qnot_le_lt. intros H. apply Qle_bool_iff in H. congruence.
        + intros (q' & [= <-] & Hlt). destruct (Qle_bool (inject_Z now) q) eqn:E; [|reflexivity].
          apply Qle_bool_iff in E. exfalso. apply (Qlt_not_le _ _ Hlt), E.
      - split; [discriminate | intros (q & [=] & _)]. }
    split.
    + intros Hpast. rewrite (proj2 Hexp Hpast). reflexivity.
    + intros Hlive.
      destruct (Prepaid.exceeds (JS.ofZ now) (Prepaid.pp_expiresAt p));
        [exfalso; apply Hlive, Hexp; reflexivity|].
      assert (Hacc : negb (bool_decide (Some presented = Prepaid.pp_preimage p))
                     && negb (String.eqb (Hex.toHex (sha256 (Hex.fromHex presented))) h)
                     = false
                     ↔ Prepaid.pp_preimage p = Some presented
                       ∨ preimageHash sha256 presented = h).
      { unfold preimageHash. rewrite andb_false_iff, !negb_false_iff, bool_decide_eq_true.
        rewrite String.eqb_eq. split; (intros [H|H]; [left; congruence | right; exact H]). }
      destruct (negb (bool_decide (Some presented = Prepaid.pp_preimage p))
                && negb (String.eqb (Hex.toHex (sha256 (Hex.fromHex presented))) h)).
      * assert (Hno : ¬ (Prepaid.pp_preimage p = Some presented
                         ∨ preimageHash sha256 presented = h))
          by (intros Ha; apply Hacc in Ha; discriminate).
        cbn [fst Prepaid.isValidSession].
        split; [split; [discriminate | contradiction]|].
        split; [contradiction | reflexivity].
      * assert (Hyes : Prepaid.pp_preimage p = Some presented
                       ∨ preimageHash sha256 presented = h) by (apply Hacc; reflexivity).
        cbn [fst Prepaid.isValidSession].
        split; [tauto|]. split; [|contradiction]. intros _. split; reflexivity.
Qed.

(** C10. The outcome of [validateL402] and the gateway it leaves depend on
    the macaroon through its [identifier] alone: two headers that present the
    same preimage, and whose macaroons decode to values with the same
    [identifier], are treated alike, whatever signature, caveats and location
    the two macaroons carry. *)
Theorem validateL402_identifier_only g now header1 header2 m1 m2 presented mac1 mac2 :
  wellFormed header1 m1 presented →
  wellFormed header2 m2 presented →
  parseBase64Json m1 = Some mac1 →
  parseBase64Json m2 = Some mac2 →
  JS.getField mac1 "identifier" = JS.getField mac2 "identifier" →
  validate g now header1 = validate g now header2.
Proof.
  intros (r1 & Hs1 & Hm1 & Hp1) (r2 & Hs2 & Hm2 & _) Hd1 Hd2 Hid.
  unfold validateL402. rewrite Hs1, Hs2. cbn [lookup list_lookup].
  rewrite !truthyString_Some by assumption. cbn [negb orb default from_option id].
  rewrite Hd1, Hd2, Hid. reflexivity.
Qed.

End Validation.

(** *** A sample run *)

(** The sample header on a map that holds the sample session, and on a
    map that holds a prepaid session under the same payment hash. *)
Lemma validateL402_spec_witness :
  wellFormed "L402 bWFjMQ:00ff" "bWFjMQ" "00ff"
  ∧ paymentHashOf sampleDecode (λ _, None) "bWFjMQ" (Some (JS.JStr "c0de"))
  ∧ Prepaid.validateL402 sampleSha sampleDecode (λ _, None) Samples.meteredSessions 2000
      "L402 bWFjMQ:00ff"
    = (Prepaid.ValidSession "grok" (Some (JS.ofZ 50)) (JS.ofZ 250) "c0de",
       <["c0de"%string := Prepaid.Metered (markPaid sampleSession)]> Samples.meteredSessions)
  ∧ Prepaid.validateL402 sampleSha sampleDecode (λ _, None) Samples.meteredSessions 700000
      "L402 bWFjMQ:00ff"
    = (Prepaid.InvalidSession "Session expired", Samples.meteredSessions)
  ∧ Prepaid.validateL402 sampleSha sampleDecode (λ _, None) Samples.prepaidSessions 2000
      "L402 bWFjMQ:00ff"
    = (Prepaid.ValidSession "grok" None (JS.ofZ 500) "c0de",
       <["c0de"%string := Prepaid.Prepaid (Prepaid.settle Samples.samplePrepaid)]>
         Samples.prepaidSessions)
  ∧ Prepaid.validateL402 sampleSha sampleDecode (λ _, None) ∅ 2000 "L402 bWFjMQ:00ff"
    = (Prepaid.InvalidSession "Session not found", ∅).
Proof.
  assert (Hwf : wellFormed "L402 bWFjMQ:00ff" "bWFjMQ" "00ff").
  { exists []. split; [reflexivity | split; discriminate]. }
  assert (Hph : paymentHashOf sampleDecode (λ _, None) "bWFjMQ" (Some (JS.JStr "c0de"))).
  { eexists _, _, _. repeat split; reflexivity. }
  split; [exact Hwf|]. split; [exact Hph|]. split; [|split; [|split]].
  - destruct (validateL402_spec sampleSha sampleDecode (λ _, None) Samples.meteredSessions
                2000 "L402 bWFjMQ:00ff" "bWFjMQ" "00ff" (Some (JS.JStr "c0de")) Hwf Hph)
      as (_ & Hmetered & _).
    destruct (Hmetered "c0de"%string sampleSession eq_refl eq_refl) as (_ & Hlive).
    destruct (Hlive ltac:(cbn; lia)) as (_ & Hyes & _).
    exact (proj1 (Hyes (or_introl eq_refl))).
  - destruct (validateL402_spec sampleSha sampleDecode (λ _, None) Samples.meteredSessions
                700000 "L402 bWFjMQ:00ff" "bWFjMQ" "00ff" (Some (JS.JStr "c0de")) Hwf Hph)
      as (_ & Hmetered & _).
    destruct (Hmetered "c0de"%string sampleSession eq_refl eq_refl) as (Hpast & _).
    exact (Hpast ltac:(cbn; lia)).
  - destruct (validateL402_spec sampleSha sampleDecode (λ _, None) Samples.prepaidSessions
                2000 "L402 bWFjMQ:00ff" "bWFjMQ" "00ff" (Some (JS.JStr "c0de")) Hwf Hph)
      as (_ & _ & Hprepaid).
    destruct (Hprepaid "c0de"%string Samples.samplePrepaid eq_refl eq_refl) as (_ & Hlive).
    assert (Hnot : ¬ ∃ q, Prepaid.pp_expiresAt Samples.samplePrepaid = JS.Num q
                          ∧ (q < inject_Z 2000)%Q).
    { intros (q & [= <-] & Hlt). vm_compute in Hlt. discriminate. }
    destruct (Hlive Hnot) as (_ & Hyes & _).
    exact (proj1 (Hyes (or_introl eq_refl))).
  - destruct (validateL402_spec sampleSha sampleDecode (λ _, None) ∅
                2000 "L402 bWFjMQ:00ff" "bWFjMQ" "00ff" (Some (JS.JStr "c0de")) Hwf Hph)
      as (Hnone & _).
    apply Hnone. intros h _. apply lookup_empty.
Defined.

Example validateL402_sample :
  (validateL402 sampleSha sampleDecode (λ _, None) sampleGateway 2000 "L402 bWFjMQ:00ff").1
  = ValidL402 "grok" (JS.ofZ 50) (JS.ofZ 250) "c0de".
Proof. reflexivity. Qed.

Lemma validateL402_identifier_only_witness :
  wellFormed "L402 bWFjMQ:00ff" "bWFjMQ" "00ff"
  ∧ wellFormed "L402 bWFjMg:00ff" "bWFjMg" "00ff"
  ∧ validateL402 sampleSha sampleDecode (λ _, None) sampleGateway 2000 "L402 bWFjMQ:00ff"
    = validateL402 sampleSha sampleDecode (λ _, None) sampleGateway 2000 "L402 bWFjMg:00ff".
Proof.
  assert (H1 : wellFormed "L402 bWFjMQ:00ff" "bWFjMQ" "00ff").
  { exists []. split; [reflexivity | split; discriminate]. }
  assert (H2 : wellFormed "L402 bWFjMg:00ff" "bWFjMg" "00ff").
  { exists []. split; [reflexivity | split; discriminate]. }
  split; [exact H1|]. split; [exact H2|].
  exact (validateL402_identifier_only sampleSha sampleDecode (λ _, None) sampleGateway 2000
           "L402 bWFjMQ:00ff" "L402 bWFjMg:00ff" "bWFjMQ" "bWFjMg" "00ff" _ _
           H1 H2 eq_refl eq_refl eq_refl).
Defined.

(** *** The price of a challenge *)

Lemma lookup_serverTiers key t :
  serverTiers !! key = Some t → minPayment t = None.
Proof.
  intros H. apply elem_of_list_to_map_2 in H.
  rewrite !elem_of_cons, elem_of_nil in H.
  destruct H as [[= _ ->]|[[= _ ->]|[[= _ ->]|[[= _ ->]|[]]]]]; reflexivity.
Qed.

(** No tier the server's wiring can select has a minimal payment. *)
Lemma challengeTier_serverTiers prov t :
  challengeTier serverTiers prov = Some t → minPayment t = None.
Proof.
  unfold challengeTier, lookupTier.
  destruct (serverTiers !! prov) as [t0|] eqn:H0.
  - intros [= <-]. eapply lookup_serverTiers, H0.
  - destruct (JS.inherited prov); [intros [= <-]; reflexivity|].
    destruct (serverTiers !! "oobabooga"%string) as [t1|] eqn:H1; [|discriminate].
    intros [= <-]. eapply lookup_serverTiers, H1.
Qed.

(** [Math.max(undefined, x)] is [NaN]. *)
Lemma challengeAmount_no_minimum t estimatedTokens :
  minPayment t = None → challengeAmount t estimatedTokens = JS.NaN.
Proof. unfold challengeAmount. intros ->. reflexivity. Qed.

(** With a minimal payment and a price, the amount is the larger of the
    minimal payment and the rounded-up price of the estimate. *)
Lemma challengeAmount_priced t (minimum price estimate : Q) :
  minPayment t = Some (JS.Num minimum) → pricePerToken t = Some (JS.Num price) →
  challengeAmount t (JS.Num estimate)
  = JS.Num (if Qle_bool minimum (inject_Z (Qceiling (estimate * price)))
            then inject_Z (Qceiling (estimate * price)) else minimum).
Proof.
  unfold challengeAmount. intros -> ->. cbn.
  destruct (Qle_bool minimum _); reflexivity.
Qed.

Section Challenge.

Variable sha256 : list byte → list byte.
Variable parseBase64Json : string → option JS.json.
Variable parseBufferFrom : JS.json → option JS.json.
Variable createInvoice : nat → JS.number → string → JS.outcome Invoice.
Variable memoText : option string → JS.number → string.
Variable createL402Macaroon : string → string → JS.number → Z → Z → string.

Abbreviation handler :=
  (middleware sha256 parseBase64Json parseBufferFrom createInvoice memoText createL402Macaroon).
Abbreviation challenge := (createChallenge createInvoice memoText createL402Macaroon).

(** The amount of a challenge is [challengeAmount] of the selected tier. *)
Lemma createChallenge_amount g now prov estimatedTokens c g' :
  challenge g now prov estimatedTokens = (JS.Returns c, g') →
  ∃ t, challengeTier (pricingTiers g) prov = Some t
       ∧ ch_amountSats c = challengeAmount t estimatedTokens.
Proof.
  unfold createChallenge.
  destruct (challengeTier (pricingTiers g) prov) as [t|]; [|discriminate].
  destruct (createInvoice _ _ _) as [inv|]; [|discriminate].
  intros [= <- _]. exists t. auto.
Qed.

(** C5. With the pricing tiers that [server.js] passes to the gateway, no
    tier has a [minPayment]; a request without credentials is never passed
    on, and whenever it is answered by the 402 response the amount of the
    response is [NaN], for every provider and every [max_tokens].  With the
    tiers of the constructor the same request [{provider: "baseline"}] is
    asked for [max(10, ceil(1000 * 1)) = 1000] sats. *)
Theorem challenge_amount_wiring now queryProvider bodyProvider maxTokens :
  match handler (newGateway (Some serverTiers)) now
          (anonymous queryProvider bodyProvider maxTokens) with
  | (PaymentRequired _ c, _) => ch_amountSats c = JS.NaN
  | (ServerError, _) => True
  | (Next _, _) => False
  end
  ∧ match handler (newGateway None) now (anonymous None (Some "baseline"%string) None) with
    | (PaymentRequired prov c, _) => prov = "baseline"%string ∧ ch_amountSats c = JS.ofZ 1000
    | (ServerError, _) => True
    | (Next _, _) => False
    end.
Proof.
  split.
  - unfold middleware, anonymous, authorization, issueChallenge.
    destruct (challenge _ _ _ _) as [[c|] g'] eqn:Hc; [|exact I].
    apply createChallenge_amount in Hc as (t & Ht & ->).
    apply challengeAmount_no_minimum. eapply challengeTier_serverTiers, Ht.
  - unfold middleware, anonymous, authorization, issueChallenge.
    destruct (challenge _ _ _ _) as [[c|] g'] eqn:Hc; [|exact I].
    split; [reflexivity|].
    apply createChallenge_amount in Hc as (t & Ht & ->).
    vm_compute in Ht. injection Ht as <-. reflexivity.
Qed.

End Challenge.

(** *** Usage records *)

Lemma recordUsage_found g h n prov s t r :
  sessions g !! h = Some s →
  pricingTiers g !! prov = Some t →
  revenue_byProvider g !! prov = Some r →
  recordUsage g h n prov
  = (JS.Returns (),
     withRevenue (withSessions g (<[h := markUsed s n]> (sessions g)))
       (JS.add (revenue_total g) (JS.mul n (JS.toNumber (pricePerToken t))))
       (<[prov := credited r n (JS.mul n (JS.toNumber (pricePerToken t)))]>
          (revenue_byProvider g))).
Proof.
  intros Hs Ht Hr. unfold recordUsage, lookupTier. rewrite Hs, Ht, Hr. reflexivity.
Qed.

(** C8, as the code has it.  When a session is stored under the payment
    hash (and the provider has a tier and a revenue entry), [recordUsage]
    returns, marks the session used, sets its [tokensUsed] to the tokens of
    this call, adds the charge to the total revenue and, for the provider, one
    request, the tokens and the charge.  A second call with the same
    arguments adds the same increments again, and leaves [tokensUsed] at the
    tokens of one call. *)
Theorem recordUsage_spec g h n prov s t r :
  sessions g !! h = Some s →
  pricingTiers g !! prov = Some t →
  revenue_byProvider g !! prov = Some r →
  let charged := JS.mul n (JS.toNumber (pricePerToken t)) in
  let once := recordUsage g h n prov in
  let twice := recordUsage once.2 h n prov in
  (once.1 = JS.Returns ()
   ∧ sessions once.2 !! h = Some (markUsed s n)
   ∧ used (markUsed s n) = true ∧ tokensUsed (markUsed s n) = Some n
   ∧ revenue_total once.2 = JS.add (revenue_total g) charged
   ∧ revenue_byProvider once.2 !! prov = Some (credited r n charged))
  ∧ (twice.1 = JS.Returns ()
     ∧ (tokensUsed <$> sessions twice.2 !! h) = Some (Some n)
     ∧ revenue_total twice.2 = JS.add (JS.add (revenue_total g) charged) charged
     ∧ revenue_byProvider twice.2 !! prov = Some (credited (credited r n charged) n charged)).
Proof.
  intros Hs Ht Hr. cbv zeta.
  rewrite (recordUsage_found g h n prov s t r Hs Ht Hr). cbn [fst snd].
  set (g1 := withRevenue _ _ _).
  assert (Hs1 : sessions g1 !! h = Some (markUsed s n)) by apply lookup_insert_eq.
  assert (Hr1 : revenue_byProvider g1 !! prov
                = Some (credited r n (JS.mul n (JS.toNumber (pricePerToken t)))))
    by apply lookup_insert_eq.
  split.
  - repeat split; try reflexivity; assumption.
  - rewrite (recordUsage_found g1 h n prov _ t _ Hs1 Ht Hr1). cbn [fst snd].
    cbn [withRevenue withSessions sessions revenue_total revenue_byProvider].
    rewrite !lookup_insert_eq. repeat split; reflexivity.
Qed.

(** A gateway with the sample session and the tiers of the constructor. *)
Lemma recordUsage_spec_witness :
  let g := sampleGateway in
  let n := JS.ofZ 30 in
  let t := tier 5 "Grok (xAI)" (Some 50) in
  let charged := JS.mul n (JS.toNumber (pricePerToken t)) in
  let once := recordUsage g "c0de" n "grok" in
  let twice := recordUsage once.2 "c0de" n "grok" in
  (once.1 = JS.Returns ()
   ∧ sessions once.2 !! "c0de"%string = Some (markUsed sampleSession n)
   ∧ used (markUsed sampleSession n) = true ∧ tokensUsed (markUsed sampleSession n) = Some n
   ∧ revenue_total once.2 = JS.add (revenue_total g) charged
   ∧ revenue_byProvider once.2 !! "grok"%string = Some (credited zeroRevenue n charged))
  ∧ (twice.1 = JS.Returns ()
     ∧ (tokensUsed <$> sessions twice.2 !! "c0de"%string) = Some (Some n)
     ∧ revenue_total twice.2 = JS.add (JS.add (revenue_total g) charged) charged
     ∧ revenue_byProvider twice.2 !! "grok"%string
       = Some (credited (credited zeroRevenue n charged) n charged)).
Proof.
  exact (recordUsage_spec sampleGateway "c0de" (JS.ofZ 30) "grok" sampleSession
           (tier 5 "Grok (xAI)" (Some 50)) zeroRevenue eq_refl eq_refl eq_refl).
Defined.

(** The claim C8 fails where it says that the tokens accumulate on the
    session: after a call with 30 tokens and a call with 12 tokens the
    session holds 12, not 42. *)
Lemma recordUsage_overwrites :
  let g1 := (recordUsage sampleGateway "c0de" (JS.ofZ 30) "grok").2 in
  let g2 := (recordUsage g1 "c0de" (JS.ofZ 12) "grok").2 in
  (tokensUsed <$> sessions g1 !! "c0de"%string) = Some (Some (JS.ofZ 30))
  ∧ (tokensUsed <$> sessions g2 !! "c0de"%string) = Some (Some (JS.ofZ 12))
  ∧ (tokensUsed <$> sessions g2 !! "c0de"%string)
    ≠ Some (Some (JS.add (JS.ofZ 30) (JS.ofZ 12))).
Proof.
  cbv zeta. split; [reflexivity|]. split; [reflexivity|].
  vm_compute. discriminate.
Qed.

End L402Facts.

(** ** Properties of the token count *)

Module ProvidersFacts.
Import Providers.

Lemma ceil4_eq n : ceil4 n = (n + 3) / 4.
Proof.
  unfold ceil4, Qceiling, Qfloor, Qdiv, Qmult, Qinv, Qopp, inject_Z. cbn.
  rewrite Z.mul_1_r. Z.div_mod_to_equations. lia.
Qed.

Lemma ceil4_mono n m : n <= m → ceil4 n <= ceil4 m.
Proof. intros H. rewrite !ceil4_eq. apply Z.div_le_mono; lia. Qed.

(** The UTF-8 encoding has at least one byte for each UTF-16 code unit. *)
Lemma utf8Length_ge (n : nat) : ∀ t : text,
  (length t <= n)%nat → Z.of_nat (length t) <= utf8Length t.
Proof.
  induction n as [|n IH]; intros [|u rest] Hn; cbn [length] in *; try (cbn; lia).
  specialize (IH rest ltac:(lia)) as Hrest.
  cbn [utf8Length].
  destruct (u <? 128); [lia|]. destruct (u <? 2048); [lia|].
  destruct (isHighSurrogate u); [|lia].
  destruct rest as [|v rest']; [cbn; lia|].
  destruct (isLowSurrogate v); [|lia].
  cbn [length] in *. specialize (IH rest' ltac:(lia)). lia.
Qed.

(** For a text of ASCII characters the two lengths agree. *)
Lemma utf8Length_ascii (t : text) :
  Forall (λ u, u < 128) t → utf8Length t = Z.of_nat (length t).
Proof.
  induction 1 as [|u rest Hu _ IH]; [reflexivity|].
  cbn [utf8Length length]. destruct (Z.ltb_spec u 128); lia.
Qed.

(** The claim C9 fails on a text outside ASCII: three letters U+00E9 are
    three code units and six bytes. *)
Lemma countTokens_not_utf8 :
  countTokens [233; 233; 233] = 1
  ∧ routerCountTokens "mistral" [233; 233; 233] = JS.Returns 1
  ∧ ceil4 (utf8Length [233; 233; 233]) = 2
  ∧ countTokens [233; 233; 233] ≠ ceil4 (utf8Length [233; 233; 233]).
Proof. repeat split; try reflexivity. vm_compute. discriminate. Qed.

(** C9, as the code has it.  The fallback of the base provider returns
    [ceil(text.length / 4)], where the length counts UTF-16 code units; the
    router returns the same for its own providers and for an unknown name
    (and throws on a name inherited from [Object.prototype]).  The result is
    [ceil(utf8Length / 4)] for a text of ASCII characters and never exceeds
    it. *)
Theorem countTokens_fallback (providerName : string) (t : text) :
  countTokens t = ceil4 (Z.of_nat (length t))
  ∧ routerCountTokens providerName t
    = (if JS.inherited providerName then JS.Throws
       else JS.Returns (ceil4 (Z.of_nat (length t))))
  ∧ countTokens t <= ceil4 (utf8Length t)
  ∧ (Forall (λ u, u < 128) t → countTokens t = ceil4 (utf8Length t)).
Proof.
  split; [reflexivity|]. split; [|split].
  - unfold routerCountTokens, countTokens, estimate, ceil4.
    destruct (existsb (String.eqb providerName) providers) eqn:Hown; [|reflexivity].
    apply existsb_exists in Hown as (p & Hp & He). apply String.eqb_eq in He as <-.
    unfold providers in Hp. cbn in Hp.
    destruct Hp as [<-|[<-|[<-|[<-|[]]]]]; reflexivity.
  - apply ceil4_mono, (utf8Length_ge (length t)). lia.
  - intros Hascii. rewrite utf8Length_ascii by exact Hascii. reflexivity.
Qed.

Lemma countTokens_fallback_witness :
  Forall (λ u, u < 128) [104; 101; 108; 108; 111]
  ∧ countTokens [104; 101; 108; 108; 111] = ceil4 (utf8Length [104; 101; 108; 108; 111]).
Proof.
  assert (H : Forall (λ u, u < 128) [104; 101; 108; 108; 111]) by (repeat constructor).
  split; [exact H|].
  exact (proj2 (proj2 (proj2 (countTokens_fallback "grok" [104; 101; 108; 108; 111]))) H).
Defined.

End ProvidersFacts.

(** ** Properties of the token format *)

Module CashuToken.
Import Cashu Scenario.

Lemma proofOfJson_proofJson p : proofOfJson (proofJson p) = Some p.
Proof. destruct p as [a i [s|] c]; reflexivity. Qed.

Lemma proofsOfJson_proofJson ps : proofsOfJson (Some (JS.JArr (proofJson <$> ps))) = Some ps.
Proof.
  cbn [proofsOfJson]. induction ps as [|p ps IH]; [reflexivity|].
  rewrite fmap_cons. cbn [mapM]. rewrite proofOfJson_proofJson, IH. reflexivity.
Qed.

Section Token.

Variable JSON_stringify : JS.json → string.
Variable parseBase64Json : string → option JS.json.

Abbreviation serialize := (serializeToken JSON_stringify).
Abbreviation deserialize := (deserializeToken parseBase64Json).

Lemma deserialize_prefixed body :
  deserialize ("cashuA" ++ body) =
    match parseBase64Json body with
    | None => JS.Throws
    | Some parsed =>
        if truthy (tokenEntry parsed)
        then match tokenEntry parsed with
             | Some (JS.JObj fields) =>
                 JS.Returns (JS.assoc "mint" fields, JS.assoc "proofs" fields)
             | _ => JS.Returns (None, None)
             end
        else JS.Throws
    end.
Proof.
  unfold deserializeToken, tokenEntry.
  replace (String.prefix "cashuA" ("cashuA" +:+ body)) with true
    by (destruct body; reflexivity).
  change (JS.slice 6 ("cashuA" +:+ body)) with body. cbn [negb].
  destruct (parseBase64Json body) as [parsed|]; [|reflexivity].
  destruct (JS.getField parsed "token") as [tok|]; [|reflexivity].
  destruct (truthy tok); [|reflexivity]. cbn [negb].
  destruct (truthy (tok ≫= index0)); reflexivity.
Qed.

(** A string that does not start with ["cashuA"] is rejected. *)
Lemma deserialize_no_prefix s :
  String.prefix "cashuA" s = false → deserialize s = JS.Throws.
Proof. intros H. unfold deserializeToken. rewrite H. reflexivity. Qed.

(** A string whose decoded value has no entry [token[0]] is rejected. *)
Lemma deserialize_no_entry s parsed :
  parseBase64Json (JS.slice 6 s) = Some parsed →
  truthy (tokenEntry parsed) = false → deserialize s = JS.Throws.
Proof.
  intros Hp He. unfold deserializeToken, tokenEntry in *.
  destruct (String.prefix "cashuA" s); [|reflexivity]. cbn [negb]. rewrite Hp.
  destruct (JS.getField parsed "token") as [tok|]; [|reflexivity].
  destruct (truthy tok); [|reflexivity]. cbn [negb]. rewrite He. reflexivity.
Qed.

End Token.

Section RoundTrip.

(** [JSON.stringify], and [JSON.parse] with [None] when it throws. *)
Variable JSON_stringify : JS.json → string.
Variable JSON_parse : string → option JS.json.

Abbreviation written := (serializeToken JSON_stringify).
Abbreviation read := (deserializeToken (Base64.parseJson JSON_parse)).

(** C7. [serializeToken] yields ["cashuA"] followed by standard base64,
    four characters of the alphabet or of padding for every three bytes,
    which [Buffer.from(s, 'base64').toString()] turns back into the JSON text
    of [{token: [{mint, proofs}]}]; when [JSON.parse] gives back the value
    that [JSON.stringify] was given, [deserializeToken] of the result returns
    the configured mint and the proofs, read back as the same proof list; a
    string without the prefix, and a string whose decoded value lacks
    [token[0]], are rejected. *)
Theorem token_roundtrip (st : CashuService) (ps : list EcashProof) :
  let text := JSON_stringify (tokenJson (mintUrl st) ps) in
  JSON_parse text = Some (tokenJson (mintUrl st) ps) →
  (∃ body,
     written st ps = ("cashuA" ++ body)%string
     ∧ body = Base64.encode (Base64.bytesOf text)
     ∧ Forall (λ c, In c (String.list_ascii_of_string Base64.alphabet) ∨ c = "="%char)
         (String.list_ascii_of_string body)
     ∧ String.length body = (4 * ((length (Base64.bytesOf text) + 2) / 3))%nat
     ∧ Base64.textOf (Base64.decode body) = text)
  ∧ read (written st ps)
    = JS.Returns (Some (JS.JStr (mintUrl st)), Some (JS.JArr (proofJson <$> ps)))
  ∧ proofsOfJson (Some (JS.JArr (proofJson <$> ps))) = Some ps
  ∧ (∀ s, String.prefix "cashuA" s = false → read s = JS.Throws)
  ∧ (∀ s parsed, Base64.parseJson JSON_parse (JS.slice 6 s) = Some parsed →
       truthy (tokenEntry parsed) = false → read s = JS.Throws).
Proof.
  cbv zeta. intros Hinv.
  assert (Hback : Base64.textOf (Base64.decode (payload JSON_stringify st ps))
                  = JSON_stringify (tokenJson (mintUrl st) ps)).
  { unfold payload. rewrite Base64Facts.decode_encode. apply Base64Facts.textOf_bytesOf. }
  split; [|split; [|split; [|split]]].
  - exists (payload JSON_stringify st ps). split; [reflexivity|]. split; [reflexivity|].
    destruct (Base64Facts.encode_shape
                (Base64.bytesOf (JSON_stringify (tokenJson (mintUrl st) ps))))
      as [Hchars Hlen].
    split; [exact Hchars|]. split; [exact Hlen | exact Hback].
  - unfold serializeToken. rewrite deserialize_prefixed.
    unfold Base64.parseJson. rewrite Hback, Hinv. reflexivity.
  - apply proofsOfJson_proofJson.
  - apply deserialize_no_prefix.
  - apply deserialize_no_entry.
Qed.

End RoundTrip.

(** *** A sample token *)

Example sample_json :
  stringify (tokenJson (mintUrl ledger100) sampleProofs)
  = "{" +:+ quoted "token" +:+ ":[{" +:+ quoted "mint" +:+ ":"
    +:+ quoted "http://localhost:3338" +:+ "," +:+ quoted "proofs" +:+ ":[{"
    +:+ quoted "amount" +:+ ":64," +:+ quoted "id" +:+ ":" +:+ quoted "009a1f293253e41e"
    +:+ "," +:+ quoted "secret" +:+ ":" +:+ quoted "5e1a" +:+ "," +:+ quoted "C" +:+ ":"
    +:+ quoted "02c0ffee" +:+ "}]}]}".
Proof. reflexivity. Qed.

(** The sample token, written with the JSON printer of the scenario and
    read with its JSON reader. *)
Lemma token_roundtrip_witness :
  parse (stringify (tokenJson (mintUrl ledger100) sampleProofs))
  = Some (tokenJson (mintUrl ledger100) sampleProofs)
  ∧ deserializeToken (Base64.parseJson parse) sampleToken
    = JS.Returns (Some (JS.JStr "http://localhost:3338"),
                  Some (JS.JArr (proofJson <$> sampleProofs))).
Proof.
  assert (H : parse (stringify (tokenJson (mintUrl ledger100) sampleProofs))
              = Some (tokenJson (mintUrl ledger100) sampleProofs))
    by (vm_compute; reflexivity).
  split; [exact H|].
  exact (proj1 (proj2 (token_roundtrip stringify parse ledger100 sampleProofs H))).
Defined.

End CashuToken.

(** ** Properties of the proof selection *)

Module CashuSelect.
Import Cashu CashuRoutes CashuLedger Scenario.

Lemma total_nonneg ps : nonNegative ps → 0 <= total ps.
Proof.
  induction 1 as [|p ps Hp _ IH]; [reflexivity|]. rewrite total_cons. lia.
Qed.

(** The loop stops at the first prefix that reaches the amount: the proofs
    taken are a prefix of the sorted list, every shorter prefix falls short,
    and when the sum falls short the whole list was taken. *)
Lemma selectLoop_spec a sorted : ∀ selected sum,
  ∃ taken rest,
    sorted = taken ++ rest
    ∧ selectLoop a sorted selected sum = (selected ++ taken, sum + total taken)
    ∧ (sum + total taken < a → rest = [])
    ∧ (∀ shorter p more, taken = shorter ++ p :: more → sum + total shorter < a).
Proof.
  induction sorted as [|p sorted IH]; intros selected sum.
  - exists [], []. cbn. rewrite app_nil_r.
    split; [reflexivity|]. split; [f_equal; lia|]. split; [reflexivity|].
    intros [|? ?] ? ? [=].
  - cbn [selectLoop]. destruct (Z.leb_spec a sum) as [Hge|Hlt].
    + exists [], (p :: sorted). rewrite app_nil_r.
      split; [reflexivity|]. split; [f_equal; cbn; lia|]. split; [cbn; lia|].
      intros [|? ?] ? ? [=].
    + destruct (IH (selected ++ [p]) (sum + amount p))
        as (taken & rest & -> & -> & Hshort & Hmin).
      exists (p :: taken), rest. rewrite <- app_assoc, total_cons.
      split; [reflexivity|]. split; [f_equal; lia|]. split; [intros; apply Hshort; lia|].
      intros [|q shorter] p' more Heq.
      * cbn. lia.
      * injection Heq as <- ->. rewrite total_cons.
        specialize (Hmin shorter p' more eq_refl). lia.
Qed.

(** Sorting puts the larger amounts first. *)
Lemma insertDesc_sorted p l :
  StronglySorted (λ x y, amount y <= amount x) l →
  StronglySorted (λ x y, amount y <= amount x) (insertDesc p l).
Proof.
  induction 1 as [|q l Hl IH Hq]; cbn [insertDesc].
  - repeat constructor.
  - destruct (Z.leb_spec (amount q) (amount p)) as [Hle|Hgt].
    + constructor; [constructor; assumption|].
      constructor; [exact Hle|].
      eapply Forall_impl; [exact Hq|]. cbn. intros; lia.
    + constructor; [exact IH|].
      rewrite insertDesc_perm. constructor; [lia | exact Hq].
Qed.

Lemma sortDesc_sorted ps : StronglySorted (λ x y, amount y <= amount x) (sortDesc ps).
Proof.
  unfold sortDesc. induction ps as [|p ps IH]; [constructor|].
  cbn [foldr]. apply insertDesc_sorted, IH.
Qed.

Lemma sorted_app_le (l1 l2 : list EcashProof) :
  StronglySorted (λ x y, amount y <= amount x) (l1 ++ l2) →
  ∀ p q, p ∈ l1 → q ∈ l2 → amount q <= amount p.
Proof.
  induction l1 as [|x l1 IH]; intros Hs p q Hp Hq; [inversion Hp|].
  cbn in Hs. inversion Hs as [|? ? Hs' Hx]; subst.
  apply elem_of_cons in Hp as [->|Hp].
  - rewrite Forall_forall in Hx. apply Hx. apply elem_of_app. auto.
  - eapply IH; eassumption.
Qed.

(** What a selection is worth. *)
Lemma selectProofs_worth st a ps change :
  selectProofs st a = JS.Returns (ps, change) → total ps = a + change ∧ 0 <= change.
Proof.
  unfold selectProofs.
  destruct (selectLoop_spec a (sortDesc (proofs st)) [] 0) as (taken & rest & _ & -> & _).
  cbn [app]. destruct (Z.ltb_spec (0 + total taken) a) as [|Hge]; [discriminate|].
  intros [= <- <-]. lia.
Qed.

(** [selectProofs] returns a prefix of the proofs sorted by descending
    amount: the selection is worth the amount plus the change, the change is
    not negative, no shorter prefix reaches the amount, and no proof left
    behind is larger than a proof selected. *)
Theorem selectProofs_selection st a ps change :
  selectProofs st a = JS.Returns (ps, change) →
  ∃ rest,
    sortDesc (proofs st) = ps ++ rest
    ∧ total ps = a + change
    ∧ 0 <= change
    ∧ (∀ shorter p more, ps = shorter ++ p :: more → total shorter < a)
    ∧ (∀ p q, p ∈ ps → q ∈ rest → amount q <= amount p).
Proof.
  intros Hsel. destruct (selectProofs_worth st a ps change Hsel) as [Hworth Hchange].
  revert Hsel. unfold selectProofs.
  destruct (selectLoop_spec a (sortDesc (proofs st)) [] 0)
    as (taken & rest & Hsorted & -> & _ & Hmin).
  cbn [app]. destruct (Z.ltb_spec (0 + total taken) a) as [|Hge]; [discriminate|].
  intros [= <- <-]. exists rest.
  split; [exact Hsorted|]. split; [exact Hworth|]. split; [exact Hchange|]. split.
  - intros shorter p more Heq. specialize (Hmin shorter p more Heq). lia.
  - apply sorted_app_le. rewrite <- Hsorted. apply sortDesc_sorted.
Qed.

Lemma selectProofs_selection_witness :
  selectProofs ledger100 50 = JS.Returns ([held 64 "5e1a"], 14)
  ∧ ∃ rest,
      sortDesc (proofs ledger100) = [held 64 "5e1a"] ++ rest
      ∧ total [held 64 "5e1a"] = 50 + 14
      ∧ 0 <= 14
      ∧ (∀ shorter p more, [held 64 "5e1a"] = shorter ++ p :: more → total shorter < 50)
      ∧ (∀ p q, p ∈ [held 64 "5e1a"] → q ∈ rest → amount q <= amount p).
Proof.
  split; [reflexivity|].
  exact (selectProofs_selection ledger100 50 [held 64 "5e1a"] 14 eq_refl).
Defined.

(** The two outcomes of the selection on amounts that are not negative. *)
Lemma selectProofs_outcome st a :
  nonNegative (proofs st) →
  if total (proofs st) <? a then selectProofs st a = JS.Throws
  else ∃ ps change, selectProofs st a = JS.Returns (ps, change).
Proof.
  intros Hpos. unfold selectProofs.
  destruct (selectLoop_spec a (sortDesc (proofs st)) [] 0)
    as (taken & rest & Hsorted & -> & Hshort & _).
  cbn [app].
  assert (Htotal : total (proofs st) = total taken + total rest).
  { rewrite <- (total_perm _ _ (sortDesc_perm (proofs st))), Hsorted. apply total_app. }
  assert (Hrest : 0 <= total rest).
  { apply total_nonneg. unfold nonNegative in *.
    rewrite <- (sortDesc_perm (proofs st)), Hsorted in Hpos.
    apply Forall_app in Hpos as [_ H]. exact H. }
  destruct (Z.ltb_spec (total (proofs st)) a) as [Hlow|Hhigh];
    destruct (Z.ltb_spec (0 + total taken) a) as [Hlt|Hge].
  - reflexivity.
  - exfalso. lia.
  - exfalso. rewrite (Hshort Hlt) in Htotal. cbn in Htotal. lia.
  - eauto.
Qed.

(** With amounts that are not negative, [selectProofs] throws
    ['Insufficient balance'] exactly when the stored proofs are worth less
    than the amount. *)
Theorem selectProofs_insufficient st a :
  nonNegative (proofs st) →
  selectProofs st a = JS.Throws ↔ total (proofs st) < a.
Proof.
  intros Hpos. pose proof (selectProofs_outcome st a Hpos) as Hout.
  destruct (Z.ltb_spec (total (proofs st)) a) as [Hlow|Hhigh].
  - split; [intros _; exact Hlow | intros _; exact Hout].
  - destruct Hout as (ps & change & ->). split; [discriminate | lia].
Qed.

Lemma selectProofs_insufficient_witness :
  nonNegative (proofs ledger100) ∧ selectProofs ledger100 101 = JS.Throws.
Proof.
  assert (H : nonNegative (proofs ledger100)).
  { unfold nonNegative. repeat constructor; cbn; lia. }
  split; [exact H|].
  apply (proj2 (selectProofs_insufficient ledger100 101 H)). vm_compute. reflexivity.
Defined.

(** Removing proofs that the ledger holds, each secret being held once,
    leaves the other proofs: the sum of the stored proofs drops by the sum of
    the proofs removed. *)
Theorem removeProofs_held ps removed rest :
  ps ≡ₚ removed ++ rest →
  NoDup (secret <$> ps) →
  removeProofs ps removed ≡ₚ rest
  ∧ total (removeProofs ps removed) = total ps - total removed.
Proof.
  intros Hperm Hnd.
  assert (Hrem : removeProofs ps removed ≡ₚ rest).
  { transitivity (removeProofs (removed ++ rest) removed).
    - unfold removeProofs. rewrite Hperm. reflexivity.
    - rewrite removeProofs_prefix; [reflexivity|]. rewrite <- Hperm. exact Hnd. }
  split; [exact Hrem|].
  rewrite (total_perm _ _ Hrem), (total_perm _ _ Hperm), total_app. lia.
Qed.

Lemma removeProofs_held_witness :
  proofs ledger100 ≡ₚ [held 32 "7b02"] ++ [held 64 "5e1a"; held 4 "c943"]
  ∧ NoDup (secret <$> proofs ledger100)
  ∧ total (removeProofs (proofs ledger100) [held 32 "7b02"]) = 100 - 32.
Proof.
  assert (Hperm : proofs ledger100 ≡ₚ [held 32 "7b02"] ++ [held 64 "5e1a"; held 4 "c943"]).
  { cbn. apply Permutation_swap. }
  assert (Hnd : NoDup (secret <$> proofs ledger100)).
  { apply (bool_decide_unpack _). vm_compute. exact I. }
  split; [exact Hperm|]. split; [exact Hnd|].
  exact (proj2 (removeProofs_held (proofs ledger100) [held 32 "7b02"]
                  [held 64 "5e1a"; held 4 "c943"] Hperm Hnd)).
Defined.

Lemma blindedMessages_shape randomHex sha256Hex ds : ∀ st,
  let '((ms, ss, rs), st') := blindedMessages randomHex sha256Hex st ds in
  bm_amount <$> ms = ds
  ∧ length ss = length ds ∧ length rs = length ds
  ∧ (∀ ksid, fst <$> List.find snd (keysets st) = Some ksid →
       Forall (λ m, bm_id m = ksid) ms).
Proof.
  induction ds as [|d ds IH]; intros st.
  - cbn. repeat split; constructor.
  - cbn [blindedMessages].
    destruct (getActiveKeysetId randomHex (drawn st 2)) as [ksid st1] eqn:Hk.
    pose proof (getActiveKeysetId_ledger randomHex (drawn st 2)) as Hg.
    rewrite Hk in Hg. cbn [snd drawn keysets] in Hg. destruct Hg as (_ & _ & Hks & _).
    specialize (IH st1).
    destruct (blindedMessages randomHex sha256Hex st1 ds) as [[[ms ss] rs] st2].
    destruct IH as (I1 & I2 & I3 & I4).
    rewrite fmap_cons, I1. cbn [length bm_amount]. rewrite I2, I3.
    split; [reflexivity|]. split; [reflexivity|]. split; [reflexivity|].
    intros k Hfind. constructor.
    + cbn [bm_id]. unfold getActiveKeysetId in Hk. cbn [keysets drawn] in Hk.
      destruct (List.find snd (keysets st)) as [[k' b]|]; [|discriminate].
      cbn in Hfind. injection Hfind as <-. injection Hk as <- _. reflexivity.
    + apply I4. rewrite Hks. exact Hfind.
Qed.

(** Blinding an integer amount of at most [maxAmount] produces one message,
    one secret and one blinding factor for each denomination of the amount:
    for an amount that is not negative the messages are for its greedy
    decomposition, in order, and add up to it, and for an amount that is not
    positive there is no message; the messages carry the active keyset when
    there is one; the ledger is left alone. *)
Theorem createBlindedMessages_shape randomHex sha256Hex st a :
  a <= maxAmount →
  let '((ms, ss, rs), st') := createBlindedMessages randomHex sha256Hex st a in
  length ss = length ms ∧ length rs = length ms
  ∧ (0 <= a → bm_amount <$> ms = greedy 13 a ∧ sumZ (bm_amount <$> ms) = a)
  ∧ (a <= 0 → ms = [])
  ∧ (∀ ksid, fst <$> List.find snd (keysets st) = Some ksid →
       Forall (λ m, bm_id m = ksid) ms)
  ∧ proofs st' = proofs st ∧ balance st' = balance st.
Proof.
  unfold maxAmount, createBlindedMessages. intros Hmax.
  pose proof (blindedMessages_shape randomHex sha256Hex (denominationsOf a) st) as Hs.
  pose proof (blindedMessages_ledger randomHex sha256Hex (denominationsOf a) st) as Hl.
  destruct (blindedMessages randomHex sha256Hex st (denominationsOf a)) as [[[ms ss] rs] st'].
  cbn [snd] in Hl. destruct Hs as (H1 & H2 & H3 & H4), Hl as (L1 & L2 & _).
  assert (Hlen : length ms = length (denominationsOf a)).
  { rewrite <- H1, length_fmap. reflexivity. }
  split; [congruence|]. split; [congruence|]. split.
  { intros Ha. rewrite H1. split; [|apply denominationsOf_sum; lia].
    unfold denominationsOf. rewrite CashuSplit.splitAmount_greedy by lia. reflexivity. }
  split.
  { intros Ha. rewrite denominationsOf_nonpositive in H1 by exact Ha.
    destruct ms; [reflexivity | discriminate]. }
  split; [exact H4|]. split; assumption.
Qed.

Lemma createBlindedMessages_shape_witness :
  100 <= maxAmount
  ∧ let '((ms, ss, rs), st') := createBlindedMessages sampleRandom (λ s, s) ledger100 100 in
    length ss = length ms ∧ length rs = length ms
    ∧ (0 <= 100 → bm_amount <$> ms = greedy 13 100 ∧ sumZ (bm_amount <$> ms) = 100)
    ∧ (100 <= 0 → ms = [])
    ∧ (∀ ksid, fst <$> List.find snd (keysets ledger100) = Some ksid →
         Forall (λ m, bm_id m = ksid) ms)
    ∧ proofs st' = proofs ledger100 ∧ balance st' = balance ledger100.
Proof.
  assert (H : 100 <= maxAmount) by (unfold maxAmount; lia).
  split; [exact H|].
  exact (createBlindedMessages_shape sampleRandom (λ s, s) ledger100 100 H).
Defined.

(** *** Receiving a token *)




End CashuSelect.

(** ** Properties of the Cashu endpoints and of tokens passed between wallets *)

Module CashuRoutesFacts.
Import Cashu CashuRoutes CashuLedger CashuSelect Scenario.

Lemma selectProofs_negative st a :
  a < 0 → selectProofs st a = JS.Returns ([], - a).
Proof.
  intros Ha. unfold selectProofs.
  assert (Hloop : selectLoop a (sortDesc (proofs st)) [] 0 = ([], 0)).
  { destruct (sortDesc (proofs st)); [reflexivity|].
    cbn [selectLoop]. destruct (Z.leb_spec a 0); [reflexivity | lia]. }
  rewrite Hloop. destruct (Z.ltb_spec 0 a); [lia|]. f_equal.
Qed.

Lemma removeProofs_nil ps : removeProofs ps [] = ps.
Proof.
  unfold removeProofs. apply filter_all, Forall_forall. intros p _. cbn. apply not_elem_of_nil.
Qed.


Section Handlers.

Variable randomHex : nat → nat → string.
Variable sha256Hex : string → string.
Variable JSON_stringify : JS.json → string.



(** The melt and the mint endpoints accept a negative amount.  While the
    balance, the amount, their sum and their difference are integers of
    magnitude at most [2^53], so that the code adds and subtracts them
    without rounding: melting the amount removes no proof and raises the
    balance; minting it, when the mint rejects the request, stores no proof
    and lowers the balance. *)
Theorem routes_negative_amount st quote a :
  JS.truthyString quote = true →
  a < 0 →
  JS.exact a →
  JS.exact (balance st) →
  JS.exact (balance st - a) →
  JS.exact (balance st + a) →
  (∀ reply,
     let r := meltRoute st quote (Some a) reply in
     proofs r.2 = proofs st
     ∧ balance r.2 = match reply with
                     | Some _ => balance st - a
                     | None => Z.max 0 (balance st - a)
                     end
     ∧ balance st < balance r.2
     ∧ ∃ paid, r.1 = Ok (paid, balance r.2))
  ∧ (let r := mintRoute randomHex sha256Hex st quote (Some a) None in
     r.1 = Ok (a, balance st + a)
     ∧ proofs r.2 = proofs st
     ∧ balance r.2 = balance st + a).
Proof.
  intros Hq Ha _ _ _ _. split.
  - intros reply. cbv zeta. unfold meltRoute, missing. rewrite Hq.
    destruct (Z.eqb_spec a 0); [lia|]. cbn [negb orb].
    unfold meltTokens. rewrite (selectProofs_negative st a Ha).
    destruct reply as [state|]; cbn [fst snd withLedger proofs balance].
    + rewrite removeProofs_nil. repeat split; try lia. eauto.
    + repeat split; try lia. eauto.
  - cbv zeta. unfold mintRoute, missing. rewrite Hq.
    destruct (Z.eqb_spec a 0); [lia|]. cbn [negb orb].
    unfold mintTokens, createBlindedMessages, createMockProofs.
    rewrite denominationsOf_nonpositive by lia.
    cbn [blindedMessages mockProofs fst snd withLedger proofs balance].
    rewrite app_nil_r. auto.
Qed.

End Handlers.

Section Wallets.

Variable randomHex : nat → nat → string.
Variable sha256Hex : string → string.
Variable JSON_stringify : JS.json → string.
Variable parseBase64Json : string → option JS.json.



End Wallets.



Lemma routes_negative_amount_witness :
  -5 < 0
  ∧ JS.exact (-5)
  ∧ JS.exact (balance ledger100)
  ∧ JS.exact (balance ledger100 - -5)
  ∧ JS.exact (balance ledger100 + -5)
  ∧ balance (meltRoute ledger100 (Some "q1"%string) (Some (-5)) (Some "PAID"%string)).2
    = balance ledger100 - -5
  ∧ balance (mintRoute sampleRandom (λ s, s) ledger100 (Some "q1"%string) (Some (-5)) None).2
    = balance ledger100 + -5.
Proof.
  assert (Ha : -5 < 0) by lia.
  assert (H1 : JS.exact (-5)) by (unfold JS.exact; lia).
  assert (H2 : JS.exact (balance ledger100)) by (unfold JS.exact; cbn; lia).
  assert (H3 : JS.exact (balance ledger100 - -5)) by (unfold JS.exact; cbn; lia).
  assert (H4 : JS.exact (balance ledger100 + -5)) by (unfold JS.exact; cbn; lia).
  pose proof (routes_negative_amount sampleRandom (λ s, s) ledger100 (Some "q1"%string) (-5)
                eq_refl Ha H1 H2 H3 H4) as [Hmelt Hmint].
  split; [exact Ha|]. split; [exact H1|]. split; [exact H2|]. split; [exact H3|].
  split; [exact H4|]. split.
  - exact (proj1 (proj2 (Hmelt (Some "PAID"%string)))).
  - exact (proj2 (proj2 Hmint)).
Defined.


End CashuRoutesFacts.

(** ** Properties of the connection to the mint *)

Module CashuMintFacts.
Import Cashu CashuMint.

Lemma find_mapSet ks ksid : is_Some (List.find snd (mapSet ks ksid true)).
Proof.
  induction ks as [|[k a] ks IH]; [cbn; eauto|]. cbn [mapSet].
  destruct (String.eqb k ksid); cbn [List.find snd]; [eauto|].
  destruct a; [eauto | exact IH].
Qed.

(** A mint that cannot be reached does not make [connect] fail: both
    requests fall back to mock answers, [connect] returns [true] and the
    service reports itself connected, with the mock information and an active
    mock keyset; proofs and balance are as before. *)
Theorem connect_unreachable randomHex c :
  let r := connect randomHex c Unreachable Unreachable in
  r.1 = true
  ∧ connected r.2 = true
  ∧ mintInfo r.2 = Some mockInfo
  ∧ proofs (service r.2) = proofs (service c)
  ∧ balance (service r.2) = balance (service c)
  ∧ is_Some (List.find snd (keysets (service r.2)))
  ∧ (keysets (service c) = [] →
       getActiveKeysetId randomHex (service r.2)
       = (("00" ++ randomHex (entropy (service c)) 7%nat)%string, service r.2)).
Proof.
  cbv zeta. unfold connect, getMintInfo, getKeysets.
  cbn [fst snd connected mintInfo service withKeysets proofs balance keysets drawn fold_left].
  repeat (split; [reflexivity|]). split; [apply find_mapSet|].
  intros Hnone. rewrite Hnone. reflexivity.
Qed.

End CashuMintFacts.

(** ** Properties of the caveats and of verification *)

(** Appending and reversing strings. *)
Module StringFacts.

Lemma append_nil_r s : (s +:+ "")%string = s.
Proof.
  induction s as [|c s IH]; [reflexivity|].
  change (String c s +:+ "")%string with (String c (s +:+ "")). rewrite IH. reflexivity.
Qed.

Lemma rev_app_shift s : ∀ acc t,
  (String.rev_app s acc +:+ t)%string = String.rev_app s (acc +:+ t)%string.
Proof.
  induction s as [|c s IH]; intros acc t; cbn [String.rev_app]; [reflexivity|].
  rewrite IH. reflexivity.
Qed.

Lemma rev_snoc c cur a :
  (String.rev (String c cur) +:+ a)%string = (String.rev cur +:+ String c a)%string.
Proof. unfold String.rev. cbn [String.rev_app]. rewrite !rev_app_shift. reflexivity. Qed.

End StringFacts.

Module CaveatFacts.
Import Macaroon Caveats MacaroonFacts StringFacts.

Lemma noSpace_cons c s : noSpace (String c s) ↔ c ≠ " "%char ∧ noSpace s.
Proof.
  unfold noSpace. cbn [String.list_ascii_of_string].
  split; [inversion 1; auto | intros [? ?]; constructor; assumption].
Qed.

Lemma prefix_separator_other c s : c ≠ " "%char → String.prefix " = " (String c s) = false.
Proof.
  intros Hc. cbn [String.prefix]. destruct (ascii_dec " "%char c); [congruence | reflexivity].
Qed.

Lemma prefix_separator_here s : String.prefix " = " (" = " +:+ s) = true.
Proof. destruct s; reflexivity. Qed.

(** A piece without a space is read to its end. *)
Lemma splitGo_word a : ∀ cur,
  noSpace a → JS.splitGo " = " a O cur = [(String.rev cur +:+ a)%string].
Proof.
  induction a as [|c a IH]; intros cur Hno.
  - cbn [JS.splitGo]. rewrite append_nil_r. reflexivity.
  - apply noSpace_cons in Hno as [Hc Ha].
    cbn [JS.splitGo]. rewrite prefix_separator_other by exact Hc.
    rewrite IH by exact Ha. rewrite rev_snoc. reflexivity.
Qed.

(** A piece without a space ends at the separator that follows it. *)
Lemma splitGo_separator a : ∀ cur b,
  noSpace a →
  JS.splitGo " = " (a +:+ " = " +:+ b) O cur
  = (String.rev cur +:+ a)%string :: JS.splitGo " = " b O EmptyString.
Proof.
  induction a as [|c a IH]; intros cur b Hno.
  - change ("" +:+ " = " +:+ b)%string with (" = " +:+ b)%string.
    change (JS.splitGo " = " (" = " +:+ b) 0 cur)
      with (if String.prefix " = " (" = " +:+ b)
            then String.rev cur :: JS.splitGo " = " b O EmptyString
            else JS.splitGo " = " ("= " +:+ b) O (String " " cur)).
    rewrite prefix_separator_here, append_nil_r. reflexivity.
  - apply noSpace_cons in Hno as [Hc Ha].
    change (String c a +:+ " = " +:+ b)%string with (String c (a +:+ " = " +:+ b)).
    cbn [JS.splitGo]. rewrite prefix_separator_other by exact Hc.
    rewrite IH by exact Ha. rewrite rev_snoc. reflexivity.
Qed.

(** What [verifyMacaroon] reads from a caveat [`key = text`] whose key has
    no space: the key, and the text up to its first separator. *)
Lemma parsed_caveat key text :
  noSpace key →
  parsed (key ++ " = " ++ text)
  = (key, JS.split " = " text !! 0%nat).
Proof.
  intros Hk. unfold parsed, caveatKey, caveatValue, JS.split.
  rewrite splitGo_separator by exact Hk. reflexivity.
Qed.

Lemma parsed_word key text :
  noSpace key → noSpace text → parsed (key ++ " = " ++ text) = (key, Some text).
Proof.
  intros Hk Ht. rewrite parsed_caveat by exact Hk.
  unfold JS.split. rewrite splitGo_word by exact Ht. reflexivity.
Qed.

Lemma createL402Caveats_entries o :
  createL402Caveats o = (λ kv, (kv.1 ++ " = " ++ kv.2)%string) <$> entries o.
Proof. destruct o as [[e|] [p|] [t|] [m|]]; reflexivity. Qed.

Lemma entries_keys o kv :
  kv ∈ entries o → kv.1 ∈ [ "expires"; "provider"; "max_tokens"; "model" ]%string.
Proof.
  unfold entries. rewrite list_elem_of_omap. intros ([k v] & Hin & Hkv).
  cbn in Hkv. destruct v as [t|]; [|discriminate]. injection Hkv as <-. cbn.
  rewrite !elem_of_cons in Hin. rewrite !elem_of_cons.
  destruct Hin as [[= -> _]|[[= -> _]|[[= -> _]|[[= -> _]|Hin]]]]; auto.
  inversion Hin.
Qed.

Lemma keys_noSpace k :
  k ∈ [ "expires"; "provider"; "max_tokens"; "model" ]%string → noSpace k.
Proof.
  rewrite !elem_of_cons. intros [->|[->|[->|[->|H]]]]; [| | | |inversion H];
    unfold noSpace; cbn; repeat constructor; discriminate.
Qed.

(** The caveats of [createL402Caveats] come in the order expires, provider,
    max_tokens, model, one for each option that is set; [verifyMacaroon]
    reads back from each its key and, when the text of the option has no
    space, that text; a text with a separator in it is cut at the
    separator. *)
Theorem createL402Caveats_read_back o :
  createL402Caveats o = (λ kv, (kv.1 ++ " = " ++ kv.2)%string) <$> entries o
  ∧ (Forall (λ kv, noSpace kv.2) (entries o) →
       parsed <$> createL402Caveats o = (λ kv, (kv.1, Some kv.2)) <$> entries o)
  ∧ (∀ key seen hidden, noSpace key → noSpace seen →
       parsed (key ++ " = " ++ seen ++ " = " ++ hidden) = (key, Some seen)).
Proof.
  split; [apply createL402Caveats_entries|]. split.
  - intros Hwords. rewrite createL402Caveats_entries, <- list_fmap_compose.
    apply Forall_fmap_ext, Forall_forall. intros kv Hin. cbn [compose].
    rewrite Forall_forall in Hwords.
    apply parsed_word; [apply keys_noSpace, (entries_keys o), Hin | apply Hwords, Hin].
  - intros key seen hidden Hk Hs. rewrite parsed_caveat by exact Hk.
    unfold JS.split. rewrite splitGo_separator by exact Hs. reflexivity.
Qed.

Section Engine.

Variable hmac : list byte → string → list byte.

(** A run of the loop to its end has passed every caveat. *)
Lemma chainCaveats_checked vs cs : ∀ sig sig',
  chainCaveats hmac vs sig cs = inr sig' → Forall (passes vs) cs.
Proof.
  induction cs as [|c cs IH]; intros sig sig' H; [constructor|].
  cbn [chainCaveats] in H.
  destruct (checkCaveat vs _ _) as [[|]|] eqn:Hc; try discriminate.
  constructor; [exact Hc | eapply IH, H].
Qed.

(** What an accepted macaroon holds. *)
Lemma verifyMacaroon_accepted m rootKey vs :
  verifyMacaroon hmac m rootKey vs = Valid →
  Forall (passes vs) (caveats m)
  ∧ signature m = Hex.toHex (chainSignature hmac rootKey (identifier m) (caveats m)).
Proof.
  intros Hv.
  assert (Hall : Forall (passes vs) (caveats m)).
  { unfold verifyMacaroon in Hv.
    destruct (chainCaveats hmac vs _ _) as [v|sig] eqn:Hch.
    - apply chainCaveats_inl in Hch. subst v. discriminate.
    - eapply chainCaveats_checked, Hch. }
  split; [exact Hall|]. apply (verifyMacaroon_iff hmac m rootKey vs Hall), Hv.
Qed.

(** [verifyMacaroon] answers [{valid: true}] exactly when every caveat
    passes the check of the [verifiers] object and the signature is the
    hexadecimal text of the HMAC chain from the root key over the identifier
    and the caveats; the location is not read. *)
Theorem verifyMacaroon_valid_iff m rootKey vs :
  (verifyMacaroon hmac m rootKey vs = Valid
   ↔ Forall (passes vs) (caveats m)
     ∧ signature m = Hex.toHex (chainSignature hmac rootKey (identifier m) (caveats m)))
  ∧ ∀ loc, verifyMacaroon hmac
             {| location := loc; identifier := identifier m; caveats := caveats m;
                signature := signature m |} rootKey vs
           = verifyMacaroon hmac m rootKey vs.
Proof.
  split; [|reflexivity]. split.
  - apply verifyMacaroon_accepted.
  - intros [Hall Hsig]. apply (verifyMacaroon_iff hmac m rootKey vs Hall), Hsig.
Qed.

(** A macaroon that is accepted while it carries the signature of a
    macaroon built by the helper has an HMAC chain that ends where the chain
    of the built one ends: with another root key, identifier or list of
    caveats it is accepted only on a collision of the chain. *)
Theorem verifyMacaroon_forgery loc ident rootKey cs forged rootKey' vs :
  signature forged = signature (attenuate hmac (createMacaroon hmac loc ident rootKey) cs) →
  verifyMacaroon hmac forged rootKey' vs = Valid →
  chainSignature hmac rootKey' (identifier forged) (caveats forged)
  = chainSignature hmac rootKey ident cs.
Proof.
  intros Hsig Hv. apply verifyMacaroon_accepted in Hv as [_ Hchain].
  destruct (attenuate_spec hmac loc ident rootKey cs) as (_ & _ & _ & Hbuilt).
  apply HexFacts.toHex_inj. rewrite <- Hchain, Hsig. exact Hbuilt.
Qed.

(** A macaroon that carries the caveats of [createL402Caveats], for options
    whose texts have no space, is accepted under its root key exactly when the
    [verifiers] object accepts the text of every option that is set. *)
Theorem verifyMacaroon_options loc ident rootKey o vs :
  Forall (λ kv, noSpace kv.2) (entries o) →
  verifyMacaroon hmac
    (attenuate hmac (createMacaroon hmac loc ident rootKey) (createL402Caveats o))
    rootKey vs = Valid
  ↔ Forall (λ kv, checkCaveat vs kv.1 (Some kv.2) = JS.Returns true) (entries o).
Proof.
  intros Hwords.
  destruct (attenuate_spec hmac loc ident rootKey (createL402Caveats o))
    as (_ & Hi & Hc & Hs).
  assert (Hpass : Forall (passes vs) (createL402Caveats o)
                  ↔ Forall (λ kv, checkCaveat vs kv.1 (Some kv.2) = JS.Returns true)
                      (entries o)).
  { rewrite createL402Caveats_entries, Forall_fmap.
    rewrite !Forall_forall in *. split; intros H kv Hin; specialize (H kv Hin).
    - cbn [compose] in H. unfold passes in H.
      pose proof (parsed_word kv.1 kv.2 (keys_noSpace _ (entries_keys o kv Hin))
                    (Hwords kv Hin)) as Hp.
      unfold parsed in Hp. injection Hp as Hk Hv. rewrite Hk, Hv in H. exact H.
    - cbn [compose]. unfold passes.
      pose proof (parsed_word kv.1 kv.2 (keys_noSpace _ (entries_keys o kv Hin))
                    (Hwords kv Hin)) as Hp.
      unfold parsed in Hp. injection Hp as Hk Hv. rewrite Hk, Hv. exact H. }
  rewrite <- Hpass. split.
  - intros Hv. apply verifyMacaroon_accepted in Hv as [Hall _]. rewrite Hc in Hall. exact Hall.
  - intros Hall. apply verifyMacaroon_iff; rewrite ?Hc, ?Hi; [exact Hall | exact Hs].
Qed.

End Engine.

Lemma verifyMacaroon_forgery_witness :
  let built := attenuate Samples.weakHmac
                 (createMacaroon Samples.weakHmac "lightning-hub" "id-1" [x01]%byte)
                 ["provider = grok"%string] in
  let forged := {| location := "elsewhere"; identifier := "id-2";
                   caveats := ["provider = claude"%string]; signature := signature built |} in
  verifyMacaroon Samples.weakHmac forged [x01]%byte ∅ = Valid
  ∧ chainSignature Samples.weakHmac [x01]%byte "id-2" ["provider = claude"%string]
    = chainSignature Samples.weakHmac [x01]%byte "id-1" ["provider = grok"%string].
Proof.
  cbv zeta.
  assert (Hv : verifyMacaroon Samples.weakHmac
                 {| location := "elsewhere"; identifier := "id-2";
                    caveats := ["provider = claude"%string];
                    signature := signature
                                   (attenuate Samples.weakHmac
                                      (createMacaroon Samples.weakHmac "lightning-hub" "id-1"
                                         [x01]%byte)
                                      ["provider = grok"%string]) |} [x01]%byte ∅ = Valid)
    by (vm_compute; reflexivity).
  split; [exact Hv|].
  exact (verifyMacaroon_forgery Samples.weakHmac "lightning-hub" "id-1" [x01]%byte
           ["provider = grok"%string] _ [x01]%byte ∅ eq_refl Hv).
Defined.

Lemma verifyMacaroon_options_witness :
  Forall (λ kv : string * string, noSpace kv.2) (entries Samples.sampleOptions)
  ∧ (verifyMacaroon Samples.weakHmac
       (attenuate Samples.weakHmac
          (createMacaroon Samples.weakHmac "lightning-hub" "id-1" [x01]%byte)
          (createL402Caveats Samples.sampleOptions))
       [x01]%byte {[ "provider"%string := λ v, JS.Returns (bool_decide (v = Some "grok"%string)) ]}
     = Valid).
Proof.
  assert (Hwords : Forall (λ kv : string * string, noSpace kv.2) (entries Samples.sampleOptions)).
  { repeat constructor; discriminate. }
  split; [exact Hwords|].
  apply (verifyMacaroon_options Samples.weakHmac "lightning-hub" "id-1" [x01]%byte
           Samples.sampleOptions _ Hwords).
  repeat constructor.
Defined.

End CaveatFacts.

(** ** Properties of the credential *)

Module L402CredentialFacts.
Import L402 L402Credential StringFacts.

(** *** The header is parsed back *)

Lemma prefix_colon c s : String.prefix ":" (String c s) = Ascii.eqb ":"%char c.
Proof.
  cbn [String.prefix]. destruct (ascii_dec ":"%char c) as [<-|Hne].
  - rewrite Ascii.eqb_refl. destruct s; reflexivity.
  - symmetry. apply Ascii.eqb_neq. exact Hne.
Qed.

Lemma noColon_cons c s : noColon (String c s) ↔ c ≠ ":"%char ∧ noColon s.
Proof.
  unfold noColon. cbn [String.list_ascii_of_string].
  split; [inversion 1; auto | intros [? ?]; constructor; assumption].
Qed.

(** A piece without a colon is read to its end. *)
Lemma splitGo_piece a : ∀ cur,
  noColon a → JS.splitGo ":" a O cur = [(String.rev cur +:+ a)%string].
Proof.
  induction a as [|c a IH]; intros cur Hno.
  - cbn [JS.splitGo]. rewrite append_nil_r. reflexivity.
  - apply noColon_cons in Hno as [Hc Ha].
    cbn [JS.splitGo]. rewrite prefix_colon.
    destruct (Ascii.eqb_spec ":"%char c) as [<-|_]; [contradiction|].
    rewrite IH by exact Ha. rewrite rev_snoc. reflexivity.
Qed.

(** A piece without a colon ends at the first colon after it. *)
Lemma splitGo_colon a : ∀ cur b,
  noColon a →
  JS.splitGo ":" (a +:+ ":" +:+ b) O cur
  = (String.rev cur +:+ a)%string :: JS.splitGo ":" b O EmptyString.
Proof.
  induction a as [|c a IH]; intros cur b Hno.
  - change ("" +:+ ":" +:+ b)%string with (String ":" b).
    cbn [JS.splitGo]. rewrite prefix_colon, Ascii.eqb_refl, append_nil_r. reflexivity.
  - apply noColon_cons in Hno as [Hc Ha].
    change (String c a +:+ ":" +:+ b)%string with (String c (a +:+ ":" +:+ b)).
    cbn [JS.splitGo]. rewrite prefix_colon.
    destruct (Ascii.eqb_spec ":"%char c) as [<-|_]; [contradiction|].
    rewrite IH by exact Ha. rewrite rev_snoc. reflexivity.
Qed.

Lemma header_wellFormed mac presented :
  mac ≠ EmptyString → noColon mac → presented ≠ EmptyString → noColon presented →
  wellFormed (authorizationHeader mac presented) mac presented.
Proof.
  intros Hm Hmc Hp Hpc. exists [].
  change (JS.slice 5 (authorizationHeader mac presented)) with (mac +:+ ":" +:+ presented)%string.
  unfold JS.split. rewrite splitGo_colon by exact Hmc.
  rewrite splitGo_piece by exact Hpc. auto.
Qed.

(** No character of the base64 alphabet is a colon. *)
Lemma digit_noColon n : Base64.digit n ≠ ":"%char.
Proof.
  destruct (N.ltb_spec n 64) as [Hlt|Hge].
  - assert (Hall : forallb (λ k, negb (Ascii.eqb (Base64.digit (N.of_nat k)) ":"%char))
                     (seq 0 64) = true) by (vm_compute; reflexivity).
    rewrite forallb_forall in Hall. specialize (Hall (N.to_nat n)).
    rewrite N2Nat.id in Hall.
    assert (Hin : In (N.to_nat n) (seq 0 64)) by (apply in_seq; lia).
    specialize (Hall Hin). apply negb_true_iff, Ascii.eqb_neq in Hall. exact Hall.
  - unfold Base64.digit.
    destruct (N.ltb_spec n 26); [lia|]. destruct (N.ltb_spec n 52); [lia|].
    destruct (N.ltb_spec n 62); [lia|]. destruct (N.eqb_spec n 62); discriminate.
Qed.

Lemma encode_noColon_upto (k : nat) : ∀ bytes,
  (length bytes <= k)%nat → noColon (Base64.encode bytes).
Proof.
  induction k as [|k IH]; intros bytes Hk.
  - destruct bytes; [constructor | cbn in Hk; lia].
  - destruct bytes as [|a [|b [|c rest]]]; cbn [Base64.encode].
    + constructor.
    + repeat (apply noColon_cons; split; [first [apply digit_noColon | discriminate]|]).
      constructor.
    + repeat (apply noColon_cons; split; [first [apply digit_noColon | discriminate]|]).
      constructor.
    + repeat (apply noColon_cons; split; [apply digit_noColon|]).
      apply IH. cbn [length] in Hk. lia.
Qed.

Lemma encode_noColon bytes : noColon (Base64.encode bytes).
Proof. apply (encode_noColon_upto (length bytes)). lia. Qed.

Lemma encode_nonempty bytes : bytes ≠ [] → Base64.encode bytes ≠ EmptyString.
Proof. destruct bytes as [|a [|b [|c rest]]]; [contradiction | discriminate..]. Qed.

Lemma bytesOf_nonempty s : s ≠ EmptyString → Base64.bytesOf s ≠ [].
Proof. destruct s; [contradiction | discriminate]. Qed.

Section Credential.

Variable JSON_stringify : JS.json → string.
Variable numberText : JS.number → string.
Variable signMacaroon : string → string → string → JS.number → Z → string.
Variable parseBase64Json : string → option JS.json.
Variable parseBufferFrom : JS.json → option JS.json.

Abbreviation issue := (createL402Macaroon JSON_stringify numberText signMacaroon).

(** The header that the client builds from a macaroon of the gateway and a
    preimage is split by [validateL402] into that macaroon and that preimage:
    the base64 text of the macaroon holds no colon.  The preimage is taken
    to be non-empty and without a colon, and the JSON text of the macaroon
    not to be empty. *)
Theorem credential_header_parses paymentHash prov maxTokens expiresAt now presented :
  let ident := base64Json JSON_stringify (identifierJson paymentHash now) in
  let data := macaroonJson ident prov (numberText maxTokens) expiresAt
                (signMacaroon ident paymentHash prov maxTokens expiresAt) in
  let mac := issue paymentHash prov maxTokens expiresAt now in
  JSON_stringify data ≠ EmptyString →
  presented ≠ EmptyString →
  noColon presented →
  wellFormed (authorizationHeader mac presented) mac presented.
Proof.
  cbv zeta. intros Hjson Hp Hpc. apply header_wellFormed; try assumption.
  - apply encode_nonempty, bytesOf_nonempty, Hjson.
  - apply encode_noColon.
Qed.

(** What [createL402Macaroon] writes, [validateL402] reads back: when the
    decoder inverts the encoding of the macaroon and of its identifier, the
    payment hash that [validateL402] extracts is the one the macaroon was
    made for. *)
Theorem createL402Macaroon_decodes paymentHash prov maxTokens expiresAt now :
  let ident := base64Json JSON_stringify (identifierJson paymentHash now) in
  let data := macaroonJson ident prov (numberText maxTokens) expiresAt
                (signMacaroon ident paymentHash prov maxTokens expiresAt) in
  parseBase64Json (base64Json JSON_stringify data) = Some data →
  parseBase64Json ident = Some (identifierJson paymentHash now) →
  paymentHashOf parseBase64Json parseBufferFrom
    (issue paymentHash prov maxTokens expiresAt now) (Some (JS.JStr paymentHash)).
Proof.
  cbv zeta. intros Hmac Hident. unfold paymentHashOf, createL402Macaroon.
  eexists _, _, _. split; [exact Hmac|].
  split; [reflexivity|]. split; [exact Hident | reflexivity].
Qed.

End Credential.

Lemma credential_header_parses_witness :
  Scenario.stringify Samples.sampleMacaroonJson ≠ EmptyString
  ∧ noColon "00ff"
  ∧ wellFormed (authorizationHeader Samples.sampleMacaroon "00ff") Samples.sampleMacaroon "00ff".
Proof.
  assert (Hjson : Scenario.stringify Samples.sampleMacaroonJson ≠ EmptyString)
    by (vm_compute; discriminate).
  assert (Hno : noColon "00ff") by (repeat constructor; discriminate).
  split; [exact Hjson|]. split; [exact Hno|].
  apply (credential_header_parses Scenario.stringify Samples.sampleNumberText
           Samples.sampleSign "00ff" "grok" (JS.ofZ 50) 601000 1000 "00ff" Hjson);
    [discriminate | exact Hno].
Defined.

Lemma createL402Macaroon_decodes_witness :
  Samples.credentialDecode Samples.sampleMacaroon = Some Samples.sampleMacaroonJson
  ∧ Samples.credentialDecode Samples.sampleIdentifier
    = Some (identifierJson "00ff" 1000)
  ∧ paymentHashOf Samples.credentialDecode (λ _, None) Samples.sampleMacaroon
      (Some (JS.JStr "00ff")).
Proof.
  assert (Hmac : Samples.credentialDecode Samples.sampleMacaroon
                 = Some Samples.sampleMacaroonJson) by (vm_compute; reflexivity).
  assert (Hid : Samples.credentialDecode Samples.sampleIdentifier
                = Some (identifierJson "00ff" 1000)) by (vm_compute; reflexivity).
  split; [exact Hmac|]. split; [exact Hid|].
  exact (createL402Macaroon_decodes Scenario.stringify Samples.sampleNumberText
           Samples.sampleSign Samples.credentialDecode (λ _, None)
           "00ff" "grok" (JS.ofZ 50) 601000 1000 Hmac Hid).
Defined.

End L402CredentialFacts.

(** ** Properties of the gateway: challenge, credential, sessions *)

Module L402GatewayFacts.
Import L402 L402Credential L402Facts Scenario.

(** The preimage of an invoice of the Lightning client passes the hash check
    of [validateL402]: its SHA-256, taken over the bytes that its hexadecimal
    text spells, is the payment hash of the invoice. *)
Theorem invoice_preimage_hashes randomBytes sha256 numberText i amount memo :
  ∃ inv presented,
    LND.createInvoice randomBytes sha256 numberText i amount memo = JS.Returns inv
    ∧ invoice_preimage inv = Some presented
    ∧ preimageHash sha256 presented = r_hash inv.
Proof.
  eexists _, _. split; [reflexivity|]. split; [reflexivity|].
  unfold preimageHash. cbn [r_hash]. rewrite HexFacts.fromHex_toHex. reflexivity.
Qed.

Section Gateway.

Variable sha256 : list byte → list byte.
Variable parseBase64Json : string → option JS.json.
Variable parseBufferFrom : JS.json → option JS.json.
Variable createInvoice : nat → JS.number → string → JS.outcome Invoice.
Variable memoText : option string → JS.number → string.
Variable createL402Macaroon : string → string → JS.number → Z → Z → string.

Abbreviation validate := (validateL402 sha256 parseBase64Json parseBufferFrom).
Abbreviation handler :=
  (middleware sha256 parseBase64Json parseBufferFrom createInvoice memoText createL402Macaroon).
Abbreviation challenge := (createChallenge createInvoice memoText createL402Macaroon).
Abbreviation issueChallenge' := (issueChallenge createInvoice memoText createL402Macaroon).

(** [validateL402] changes the gateway in one way only: it marks a stored
    session paid. *)
Lemma validateL402_effect g now authHeader :
  let r := validate g now authHeader in
  (isValid r.1 = false → r.2 = g)
  ∧ (isValid r.1 = true →
       ∃ h s, sessions g !! h = Some s
              ∧ r.2 = withSessions g (<[h := markPaid s]> (sessions g))).
Proof.
  cbv zeta. unfold validateL402.
  repeat match goal with
         | |- context [if ?b then _ else _] => destruct b eqn:?
         | |- context [match ?x with _ => _ end] => destruct x eqn:?
         end;
    cbn [fst snd isValid failed]; (split; [auto; discriminate | try discriminate]).
  intros _.
  match goal with
  | H : getSession _ _ = Some (?h, ?s) |- _ =>
      apply getSession_Some in H as [_ H]; exists h, s; auto
  end.
Qed.

Lemma validateL402_invoices g now authHeader :
  invoices (validate g now authHeader).2 = invoices g.
Proof.
  destruct (validateL402_effect g now authHeader) as [Hno Hyes].
  destruct (isValid (validate g now authHeader).1) eqn:Hv.
  - destruct (Hyes eq_refl) as (h & s & _ & ->). reflexivity.
  - rewrite (Hno eq_refl). reflexivity.
Qed.

Lemma validateL402_keeps g now authHeader h :
  is_Some (sessions g !! h) → is_Some (sessions (validate g now authHeader).2 !! h).
Proof.
  intros Hh. destruct (validateL402_effect g now authHeader) as [Hno Hyes].
  destruct (isValid (validate g now authHeader).1) eqn:Hv.
  - destruct (Hyes eq_refl) as (h' & s & _ & ->). cbn [withSessions sessions].
    rewrite lookup_insert_is_Some. destruct (decide (h' = h)); auto.
  - rewrite (Hno eq_refl). exact Hh.
Qed.

Lemma createChallenge_keeps g now prov estimatedTokens h :
  is_Some (sessions g !! h) →
  is_Some (sessions (challenge g now prov estimatedTokens).2 !! h).
Proof.
  intros Hh. unfold createChallenge.
  destruct (challengeTier (pricingTiers g) prov) as [t|]; [|exact Hh].
  destruct (createInvoice _ _ _) as [inv|]; [|exact Hh].
  cbn [snd withSessions sessions]. rewrite lookup_insert_is_Some.
  destruct (decide (r_hash inv = h)); auto.
Qed.

Lemma createChallenge_invoices g now prov estimatedTokens :
  (invoices g <= invoices (challenge g now prov estimatedTokens).2)%nat.
Proof.
  unfold createChallenge.
  destruct (challengeTier (pricingTiers g) prov) as [t|]; [|reflexivity].
  destruct (createInvoice _ _ _) as [inv|]; cbn; lia.
Qed.

Lemma issueChallenge_snd g now req :
  (issueChallenge' g now req).2
  = (challenge g now (requestedProvider req) (estimatedTokensOf req)).2.
Proof.
  unfold issueChallenge. destruct (challenge _ _ _ _) as [[c|] g']; reflexivity.
Qed.

Lemma recordUsage_sessions g h n prov :
  sessions (recordUsage g h n prov).2
  = match sessions g !! h with
    | Some s => <[h := markUsed s n]> (sessions g)
    | None => sessions g
    end.
Proof.
  unfold recordUsage. destruct (sessions g !! h) as [s|]; [|reflexivity].
  destruct (lookupTier (pricingTiers g) prov) as [t|]; [|reflexivity].
  destruct (revenue_byProvider g !! prov) as [r|]; [reflexivity|].
  destruct (JS.inherited prov); reflexivity.
Qed.

(** The request is passed on to the protected route only with a header
    that starts with ["L402 "] and that [validateL402] accepts; the gateway
    then asks for no invoice. *)
Theorem middleware_next_only_valid g now req v g' :
  handler g now req = (Next v, g') →
  ∃ authHeader,
    authorization req = Some authHeader
    ∧ String.prefix "L402 " authHeader = true
    ∧ validate g now authHeader = (v, g')
    ∧ isValid v = true
    ∧ invoices g' = invoices g.
Proof.
  unfold middleware.
  assert (Hno : ∀ g0, issueChallenge' g0 now req ≠ (Next v, g')).
  { intros g0. unfold issueChallenge.
    destruct (challenge _ _ _ _) as [[c|] g1]; discriminate. }
  destruct (authorization req) as [authHeader|]; [|intros H; destruct (Hno _ H)].
  destruct (String.prefix "L402 " authHeader) eqn:Hpre; [|intros H; destruct (Hno _ H)].
  pose proof (validateL402_invoices g now authHeader) as Hinv.
  destruct (validate g now authHeader) as [validated g1] eqn:Hval.
  destruct (isValid validated) eqn:Hv; [|intros H; destruct (Hno _ H)].
  intros [= <- <-]. exists authHeader. cbn [snd] in Hinv. auto.
Qed.

(** No method of the gateway removes a session: the sessions stored before a
    request, or before a usage record, are all stored afterwards, expired or
    not; and the count of invoices asked never drops. *)
Theorem sessions_never_removed g now req h :
  (is_Some (sessions g !! h) → is_Some (sessions (handler g now req).2 !! h))
  ∧ (invoices g <= invoices (handler g now req).2)%nat
  ∧ (∀ h' n prov,
       is_Some (sessions g !! h) → is_Some (sessions (recordUsage g h' n prov).2 !! h)).
Proof.
  assert (Hissue : ∀ g0, is_Some (sessions g0 !! h) →
                         is_Some (sessions (issueChallenge' g0 now req).2 !! h)).
  { intros g0 H0. rewrite issueChallenge_snd. apply createChallenge_keeps, H0. }
  assert (Hcount : ∀ g0, (invoices g0 <= invoices (issueChallenge' g0 now req).2)%nat).
  { intros g0. rewrite issueChallenge_snd. apply createChallenge_invoices. }
  split; [|split].
  - intros Hh. unfold middleware.
    destruct (authorization req) as [authHeader|]; [|apply Hissue, Hh].
    destruct (String.prefix "L402 " authHeader); [|apply Hissue, Hh].
    pose proof (validateL402_keeps g now authHeader h Hh) as Hk.
    destruct (validate g now authHeader) as [validated g1].
    destruct (isValid validated); [exact Hk | apply Hissue, Hk].
  - unfold middleware.
    destruct (authorization req) as [authHeader|]; [|apply Hcount].
    destruct (String.prefix "L402 " authHeader); [|apply Hcount].
    pose proof (validateL402_invoices g now authHeader) as Hk.
    destruct (validate g now authHeader) as [validated g1]. cbn [snd] in Hk.
    destruct (isValid validated); [cbn; lia|].
    rewrite <- Hk. apply Hcount.
  - intros h' n prov Hh. rewrite recordUsage_sessions.
    destruct (sessions g !! h') as [s|]; [|exact Hh].
    rewrite lookup_insert_is_Some. destruct (decide (h' = h)); auto.
Qed.

Lemma validateL402_accepts g now authHeader macaroonB64 presented h s :
  wellFormed authHeader macaroonB64 presented →
  paymentHashOf parseBase64Json parseBufferFrom macaroonB64 (Some (JS.JStr h)) →
  sessions g !! h = Some s →
  validate g now authHeader
  = if expiresAt s <? now then (InvalidL402 "Session expired", g)
    else if negb (bool_decide (Some presented = preimage s))
            && negb (String.eqb (preimageHash sha256 presented) h)
    then (InvalidL402 "Invalid preimage", g)
    else (ValidL402 (provider s) (maxTokens s) (amountSats s) h,
          withSessions g (<[h := markPaid s]> (sessions g))).
Proof.
  intros Hwf Hph Hs.
  rewrite (validateL402_decoded sha256 parseBase64Json parseBufferFrom g now authHeader
             macaroonB64 presented (Some (JS.JStr h)) Hwf Hph).
  cbn [getSession]. rewrite Hs. reflexivity.
Qed.

(** A credential is not used up.  Once [validateL402] has accepted a header,
    it accepts the same header again at any time up to the expiry of the
    session, with the same answer and without further change to the gateway,
    also after [recordUsage] has marked the session used. *)
Theorem validateL402_replay g now authHeader macaroonB64 presented h s :
  wellFormed authHeader macaroonB64 presented →
  paymentHashOf parseBase64Json parseBufferFrom macaroonB64 (Some (JS.JStr h)) →
  sessions g !! h = Some s →
  accepted sha256 presented h s →
  now <= expiresAt s →
  let first := validate g now authHeader in
  first.1 = ValidL402 (provider s) (maxTokens s) (amountSats s) h
  ∧ ∀ now', now' <= expiresAt s →
      validate first.2 now' authHeader = first
      ∧ ∀ n prov,
          (validate (recordUsage first.2 h n prov).2 now' authHeader).1 = first.1.
Proof.
  intros Hwf Hph Hs Hacc Hlive. cbv zeta.
  apply (accepted_dec sha256) in Hacc as Hdec.
  rewrite (validateL402_accepts g now authHeader macaroonB64 presented h s Hwf Hph Hs).
  destruct (Z.ltb_spec (expiresAt s) now); [lia|]. rewrite Hdec.
  cbn [fst snd]. split; [reflexivity|].
  intros now' Hlive'.
  set (g1 := withSessions g (<[h := markPaid s]> (sessions g))).
  assert (Hs1 : sessions g1 !! h = Some (markPaid s)) by apply lookup_insert_eq.
  split.
  - rewrite (validateL402_accepts g1 now' authHeader macaroonB64 presented h _ Hwf Hph Hs1).
    cbn [markPaid expiresAt preimage provider maxTokens amountSats].
    destruct (Z.ltb_spec (expiresAt s) now'); [lia|]. rewrite Hdec.
    f_equal. unfold g1, withSessions. cbn [sessions pricingTiers revenue_total
      revenue_byProvider invoices]. f_equal. apply insert_insert_eq.
  - intros n prov.
    assert (Hs2 : sessions (recordUsage g1 h n prov).2 !! h = Some (markUsed (markPaid s) n)).
    { rewrite recordUsage_sessions, Hs1. apply lookup_insert_eq. }
    rewrite (validateL402_accepts _ now' authHeader macaroonB64 presented h _ Hwf Hph Hs2).
    cbn [markUsed markPaid expiresAt preimage provider maxTokens amountSats].
    destruct (Z.ltb_spec (expiresAt s) now'); [lia|]. rewrite Hdec. reflexivity.
Qed.

(** From the challenge to the credential.  [createChallenge] stores, under
    the payment hash of the invoice, an unpaid session for the provider, the
    estimate and the amount of the challenge, valid for ten minutes.  A header
    with the macaroon of the challenge is then accepted, up to that time, with
    the preimage of the invoice or with one that hashes to the payment hash,
    and answered with the provider, the estimate and the amount; after that
    time it is refused as expired, and with another preimage as invalid. *)
Theorem challenge_then_validate g now prov estimatedTokens c g' :
  challenge g now prov estimatedTokens = (JS.Returns c, g') →
  ∃ s,
    sessions g' !! ch_paymentHash c = Some s
    ∧ provider s = prov ∧ maxTokens s = estimatedTokens ∧ amountSats s = ch_amountSats c
    ∧ macaroon s = ch_macaroon c ∧ expiresAt s = now + 600000 ∧ paid s = false
    ∧ ∀ authHeader presented now',
        wellFormed authHeader (ch_macaroon c) presented →
        paymentHashOf parseBase64Json parseBufferFrom (ch_macaroon c)
          (Some (JS.JStr (ch_paymentHash c))) →
        (now' <= now + 600000 → accepted sha256 presented (ch_paymentHash c) s →
           validate g' now' authHeader
           = (ValidL402 prov estimatedTokens (ch_amountSats c) (ch_paymentHash c),
              withSessions g' (<[ch_paymentHash c := markPaid s]> (sessions g'))))
        ∧ (now' <= now + 600000 → ¬ accepted sha256 presented (ch_paymentHash c) s →
             validate g' now' authHeader = (InvalidL402 "Invalid preimage", g'))
        ∧ (now + 600000 < now' →
             validate g' now' authHeader = (InvalidL402 "Session expired", g')).
Proof.
  unfold createChallenge.
  destruct (challengeTier (pricingTiers g) prov) as [t|]; [|discriminate].
  destruct (createInvoice _ _ _) as [inv|]; [|discriminate].
  intros [= <- <-]. cbn [ch_paymentHash ch_amountSats ch_macaroon].
  eexists. split; [cbn [withSessions sessions]; apply lookup_insert_eq|].
  cbn [provider maxTokens amountSats macaroon expiresAt paid].
  repeat (split; [reflexivity|]).
  intros authHeader presented now' Hwf Hph.
  match goal with
  | |- context [validate ?g1 _ _] =>
      assert (Hs : sessions g1 !! r_hash inv = Some
                {| provider := prov; maxTokens := estimatedTokens;
                   amountSats := challengeAmount t estimatedTokens;
                   macaroon := createL402Macaroon (r_hash inv) prov estimatedTokens
                                 (now + 600000) now;
                   invoice := payment_request inv; preimage := invoice_preimage inv;
                   createdAt := now; expiresAt := now + 600000;
                   paid := false; used := false; tokensUsed := None |})
        by apply lookup_insert_eq;
      rewrite (validateL402_accepts g1 now' authHeader _ presented _ _ Hwf Hph Hs)
  end.
  cbn [provider maxTokens amountSats expiresAt preimage].
  split; [|split].
  - intros Hlive Hacc. apply (accepted_dec sha256) in Hacc.
    cbn [preimage] in Hacc.
    destruct (Z.ltb_spec (now + 600000) now'); [lia|]. rewrite Hacc. reflexivity.
  - intros Hlive Hacc.
    destruct (Z.ltb_spec (now + 600000) now'); [lia|].
    destruct (negb (bool_decide (Some presented = invoice_preimage inv))
              && negb (String.eqb (preimageHash sha256 presented) (r_hash inv))) eqn:Hb;
      [reflexivity|].
    exfalso. apply Hacc. apply (accepted_dec sha256). exact Hb.
  - intros Hlate. destruct (Z.ltb_spec (now + 600000) now'); [reflexivity | lia].
Qed.

End Gateway.

Lemma middleware_next_only_valid_witness :
  let run := middleware sampleSha sampleDecode (λ _, None) Samples.sampleInvoice
               Samples.sampleMemo Samples.sampleIssue sampleGateway 2000
               Samples.sampleRequest in
  run.1 = Next (ValidL402 "grok" (JS.ofZ 50) (JS.ofZ 250) "c0de")
  ∧ ∃ authHeader,
      authorization Samples.sampleRequest = Some authHeader
      ∧ String.prefix "L402 " authHeader = true
      ∧ validateL402 sampleSha sampleDecode (λ _, None) sampleGateway 2000 authHeader
        = (ValidL402 "grok" (JS.ofZ 50) (JS.ofZ 250) "c0de", run.2)
      ∧ isValid (ValidL402 "grok" (JS.ofZ 50) (JS.ofZ 250) "c0de") = true
      ∧ invoices run.2 = invoices sampleGateway.
Proof.
  cbv zeta.
  assert (Hrun : middleware sampleSha sampleDecode (λ _, None) Samples.sampleInvoice
                   Samples.sampleMemo Samples.sampleIssue sampleGateway 2000
                   Samples.sampleRequest
                 = (Next (ValidL402 "grok" (JS.ofZ 50) (JS.ofZ 250) "c0de"),
                    (middleware sampleSha sampleDecode (λ _, None) Samples.sampleInvoice
                       Samples.sampleMemo Samples.sampleIssue sampleGateway 2000
                       Samples.sampleRequest).2)) by reflexivity.
  split; [rewrite Hrun; reflexivity|].
  exact (middleware_next_only_valid sampleSha sampleDecode (λ _, None) Samples.sampleInvoice
           Samples.sampleMemo Samples.sampleIssue sampleGateway 2000 Samples.sampleRequest
           _ _ Hrun).
Defined.

Lemma validateL402_replay_witness :
  wellFormed "L402 bWFjMQ:00ff" "bWFjMQ" "00ff"
  ∧ paymentHashOf sampleDecode (λ _, None) "bWFjMQ" (Some (JS.JStr "c0de"))
  ∧ accepted sampleSha "00ff" "c0de" sampleSession
  ∧ (let first := validateL402 sampleSha sampleDecode (λ _, None) sampleGateway 2000
                    "L402 bWFjMQ:00ff" in
     validateL402 sampleSha sampleDecode (λ _, None) first.2 600000 "L402 bWFjMQ:00ff" = first
     ∧ (validateL402 sampleSha sampleDecode (λ _, None)
          (recordUsage first.2 "c0de" (JS.ofZ 30) "grok").2 600000 "L402 bWFjMQ:00ff").1
       = first.1).
Proof.
  assert (Hwf : wellFormed "L402 bWFjMQ:00ff" "bWFjMQ" "00ff").
  { exists []. split; [reflexivity | split; discriminate]. }
  assert (Hph : paymentHashOf sampleDecode (λ _, None) "bWFjMQ" (Some (JS.JStr "c0de"))).
  { eexists _, _, _. repeat split; reflexivity. }
  assert (Hacc : accepted sampleSha "00ff" "c0de" sampleSession) by (left; reflexivity).
  split; [exact Hwf|]. split; [exact Hph|]. split; [exact Hacc|].
  assert (Hlive : 2000 <= expiresAt sampleSession) by (cbn; lia).
  assert (Hlater : 600000 <= expiresAt sampleSession) by (cbn; lia).
  pose proof (validateL402_replay sampleSha sampleDecode (λ _, None) sampleGateway 2000
                "L402 bWFjMQ:00ff" "bWFjMQ" "00ff" "c0de" sampleSession
                Hwf Hph eq_refl Hacc Hlive) as [_ Hagain].
  destruct (Hagain 600000 Hlater) as [Hsame Hused].
  split; [exact Hsame | exact (Hused (JS.ofZ 30) "grok"%string)].
Defined.

Lemma challenge_then_validate_witness :
  let run := createChallenge Samples.sampleInvoice Samples.sampleMemo Samples.sampleIssue
               (newGateway None) 1000 "grok" (JS.ofZ 50) in
  run.1 = JS.Returns Samples.sampleChallenge
  ∧ (validateL402 sampleSha Samples.credentialDecode (λ _, None) run.2 5000
       (authorizationHeader Samples.sampleMacaroon "00ff")).1
    = ValidL402 "grok" (JS.ofZ 50) (JS.ofZ 250) "00ff"
  ∧ (validateL402 sampleSha Samples.credentialDecode (λ _, None) run.2 601001
       (authorizationHeader Samples.sampleMacaroon "00ff")).1
    = InvalidL402 "Session expired".
Proof.
  cbv zeta.
  assert (Hrun : createChallenge Samples.sampleInvoice Samples.sampleMemo Samples.sampleIssue
                   (newGateway None) 1000 "grok" (JS.ofZ 50)
                 = (JS.Returns Samples.sampleChallenge,
                    (createChallenge Samples.sampleInvoice Samples.sampleMemo
                       Samples.sampleIssue (newGateway None) 1000 "grok" (JS.ofZ 50)).2))
    by (vm_compute; reflexivity).
  split; [rewrite Hrun; reflexivity|].
  destruct (challenge_then_validate sampleSha Samples.credentialDecode (λ _, None)
              Samples.sampleInvoice Samples.sampleMemo Samples.sampleIssue
              (newGateway None) 1000 "grok" (JS.ofZ 50) _ _ Hrun)
    as (s & _ & _ & _ & _ & _ & _ & _ & Hall).
  assert (Hwf : wellFormed (authorizationHeader Samples.sampleMacaroon "00ff")
                  Samples.sampleMacaroon "00ff").
  { exists []. split; [vm_compute; reflexivity | split; discriminate]. }
  assert (Hph : paymentHashOf Samples.credentialDecode (λ _, None) Samples.sampleMacaroon
                  (Some (JS.JStr "00ff"))).
  { exists Samples.sampleMacaroonJson, (Some (JS.JStr Samples.sampleIdentifier)),
      (identifierJson "00ff" 1000).
    split; [vm_compute; reflexivity|]. split; [reflexivity|].
    split; [vm_compute; reflexivity | reflexivity]. }
  split.
  - destruct (Hall _ "00ff"%string 5000 Hwf Hph) as (Hok & _ & _).
    rewrite Hok; [reflexivity | lia | right; reflexivity].
  - destruct (Hall _ "00ff"%string 601001 Hwf Hph) as (_ & _ & Hlate).
    rewrite Hlate; [reflexivity | lia].
Defined.

End L402GatewayFacts.

(** ** Properties of the prepaid sessions *)

Module PrepaidFacts.
Import L402 Prepaid.

Lemma exceeds_false q r : (q <= r)%Q → exceeds (JS.Num q) (JS.Num r) = false.
Proof. intros H. cbn. apply negb_false_iff, Qle_bool_iff, H. Qed.

Lemma exceeds_true q r : (r < q)%Q → exceeds (JS.Num q) (JS.Num r) = true.
Proof.
  intros H. cbn. apply negb_true_iff. destruct (Qle_bool q r) eqn:E; [|reflexivity].
  apply Qle_bool_iff in E. lra.
Qed.

(** One call on a paid prepaid session with numbers on both sides. *)
Lemma usePrepaidTokens_paid ss sessionId p q r :
  ss !! sessionId = Some (Prepaid p) →
  pp_paid p = true →
  tokensRemaining p = JS.Num r →
  usePrepaidTokens ss sessionId (JS.Num q)
  = if Qle_bool q r
    then (Granted (JS.Num q) (JS.Num (r - q)),
          <[sessionId := Prepaid (spend p (JS.Num q))]> ss)
    else (Refused "Insufficient token balance" (Some (JS.Num r)), ss).
Proof.
  intros Hs Hpaid Hr. unfold usePrepaidTokens. rewrite Hs, Hpaid, Hr. cbn [negb exceeds].
  destruct (Qle_bool q r); reflexivity.
Qed.

(** The difference of two integers is the integer difference. *)
Lemma minus_ofZ r z : minus (JS.ofZ r) (JS.ofZ z) = JS.ofZ (r - z).
Proof.
  unfold minus, JS.ofZ, inject_Z, Qminus, Qplus, Qopp. cbn [Qnum Qden].
  do 2 f_equal. lia.
Qed.

Lemma Qle_bool_inject r z : Qle_bool (inject_Z z) (inject_Z r) = (z <=? r).
Proof.
  destruct (Z.leb_spec z r) as [H|H].
  - apply Qle_bool_iff. rewrite <- Zle_Qle. exact H.
  - destruct (Qle_bool (inject_Z z) (inject_Z r)) eqn:E; [|reflexivity].
    apply Qle_bool_iff in E. rewrite <- Zle_Qle in E. lia.
Qed.

(** One call on a paid prepaid session with integers on both sides. *)
Lemma usePrepaidTokens_integers ss sessionId p z r :
  ss !! sessionId = Some (Prepaid p) →
  pp_paid p = true →
  tokensRemaining p = JS.ofZ r →
  usePrepaidTokens ss sessionId (JS.ofZ z)
  = (if z <=? r
     then (Granted (JS.ofZ z) (JS.ofZ (r - z)),
           <[sessionId := Prepaid (spend p (JS.ofZ z))]> ss)
     else (Refused "Insufficient token balance" (Some (JS.ofZ r)), ss))
  ∧ tokensRemaining (spend p (JS.ofZ z)) = JS.ofZ (r - z).
Proof.
  intros Hs Hpaid Hr. split.
  - pose proof (minus_ofZ r z) as Hm. unfold minus, JS.ofZ in Hm, Hr |- *.
    rewrite (usePrepaidTokens_paid ss sessionId p _ _ Hs Hpaid Hr), Qle_bool_inject.
    destruct (z <=? r); [|reflexivity]. rewrite Hm. reflexivity.
  - cbn [spend tokensRemaining]. rewrite Hr. apply minus_ofZ.
Qed.

(** The budget of a paid prepaid session under any sequence of calls, while
    the tokens remaining and the amounts asked are integers from 0 to [2^53],
    which the code compares and subtracts without rounding: the tokens
    remaining are never negative, and together with the tokens granted they
    make up what remained at the start; the other sessions are not
    touched. *)
Theorem prepaid_budget_kept requests : ∀ ss sessionId p r,
  ss !! sessionId = Some (Prepaid p) →
  pp_paid p = true →
  tokensRemaining p = JS.ofZ r →
  0 <= r <= 2 ^ 53 →
  Forall (λ n, ∃ z, n = JS.ofZ z ∧ 0 <= z <= 2 ^ 53) requests →
  let run := useAll ss sessionId requests in
  ∃ p' r',
    run.2 !! sessionId = Some (Prepaid p')
    ∧ pp_paid p' = true
    ∧ tokensRemaining p' = JS.ofZ r'
    ∧ 0 <= r' <= r
    ∧ (inject_Z r' + granted run.1 == inject_Z r)%Q
    ∧ ∀ other, other ≠ sessionId → run.2 !! other = ss !! other.
Proof.
  induction requests as [|n requests IH]; intros ss sessionId p r Hs Hpaid Hr Hpos Hreq.
  - cbn. exists p, r. repeat split; auto; [lia | lia | lra].
  - inversion Hreq as [|? ? (z & -> & Hz) Hrest]; subst. cbv zeta. cbn [useAll].
    destruct (usePrepaidTokens_integers ss sessionId p z r Hs Hpaid Hr) as [-> Hleft].
    destruct (Z.leb_spec z r) as [Hle|Hgt].
    + specialize (IH (<[sessionId := Prepaid (spend p (JS.ofZ z))]> ss) sessionId
                    (spend p (JS.ofZ z)) (r - z)).
      cbv zeta in IH.
      destruct (useAll _ sessionId requests) as [answers ss2].
      destruct IH as (p' & r' & H1 & H2 & H3 & H4 & H5 & H6).
      * apply lookup_insert_eq.
      * exact Hpaid.
      * exact Hleft.
      * lia.
      * exact Hrest.
      * exists p', r'. cbn [fst snd] in *.
        split; [exact H1|]. split; [exact H2|]. split; [exact H3|]. split; [lia|]. split.
        -- unfold JS.ofZ at 1. cbn [granted]. rewrite Qplus_assoc, (Qplus_comm (inject_Z r')),
             <- Qplus_assoc, H5, <- inject_Z_plus. apply inject_Z_injective. lia.
        -- intros other Hne. rewrite H6 by exact Hne. apply lookup_insert_ne. congruence.
    + specialize (IH ss sessionId p r Hs Hpaid Hr Hpos Hrest). cbv zeta in IH.
      destruct (useAll ss sessionId requests) as [answers ss2].
      destruct IH as (p' & r' & H1 & H2 & H3 & H4 & H5 & H6).
      exists p', r'. cbn [fst snd granted] in *. repeat split; auto; lia.
Qed.

(** A call that asks for a negative integer is granted, and raises the
    tokens remaining by its magnitude, while the result is at most [2^53],
    so that the code subtracts without rounding. *)
Theorem usePrepaidTokens_negative ss sessionId p z r :
  ss !! sessionId = Some (Prepaid p) →
  pp_paid p = true →
  tokensRemaining p = JS.ofZ r →
  0 <= r →
  z < 0 →
  r - z <= 2 ^ 53 →
  usePrepaidTokens ss sessionId (JS.ofZ z)
  = (Granted (JS.ofZ z) (JS.ofZ (r - z)),
     <[sessionId := Prepaid (spend p (JS.ofZ z))]> ss)
  ∧ tokensRemaining (spend p (JS.ofZ z)) = JS.ofZ (r - z)
  ∧ r < r - z.
Proof.
  intros Hs Hpaid Hr Hpos Hz _.
  destruct (usePrepaidTokens_integers ss sessionId p z r Hs Hpaid Hr) as [-> Hleft].
  destruct (Z.leb_spec z r); [|lia].
  split; [reflexivity|]. split; [exact Hleft | lia].
Qed.

Section Methods.

Variable createInvoice : nat → JS.number → string → JS.number → JS.outcome Invoice.
Variable memoText : option string → JS.number → string.
Variable randomHex : nat → nat → string.

Abbreviation create := (createPrepaidSession createInvoice memoText randomHex).

(** [createPrepaidSession] asks an invoice of the budget times the price of
    a token, with no minimal payment and no rounding, and stores an unpaid
    session holding the whole budget; as long as the session is unpaid every
    call of [usePrepaidTokens] on it is refused and changes nothing. *)
Theorem prepaid_session_unpaid g now prov budget expiryHours offer g' :
  create g now prov budget expiryHours = (JS.Returns offer, g') →
  ∃ t p,
    lookupTier (pricing g) prov = Some t
    ∧ of_amountSats offer = JS.mul budget (JS.toNumber (pricePerToken t))
    ∧ stored g' !! of_sessionId offer = Some (Prepaid p)
    ∧ pp_paid p = false
    ∧ tokensRemaining p = budget
    ∧ ∀ n, usePrepaidTokens (stored g') (of_sessionId offer) n
           = (Refused "Session not paid" None, stored g').
Proof.
  unfold createPrepaidSession.
  destruct (lookupTier (pricing g) prov) as [t|]; [|discriminate].
  destruct (createInvoice _ _ _ _) as [inv|]; [|discriminate].
  intros [= <- <-]. cbn [of_amountSats of_sessionId stored].
  eexists t, _. split; [reflexivity|]. split; [reflexivity|].
  split; [apply lookup_insert_eq|]. split; [reflexivity|]. split; [reflexivity|].
  intros n. unfold usePrepaidTokens. rewrite lookup_insert_eq. reflexivity.
Qed.

End Methods.

Lemma prepaid_budget_kept_witness :
  let run := useAll Samples.sampleStore "a1b2" [JS.ofZ 30; JS.ofZ 80; JS.ofZ 50] in
  0 <= 100 <= 2 ^ 53
  ∧ Forall (λ n, ∃ z, n = JS.ofZ z ∧ 0 <= z <= 2 ^ 53) [JS.ofZ 30; JS.ofZ 80; JS.ofZ 50]
  ∧ ∃ p' r',
      run.2 !! "a1b2"%string = Some (Prepaid p')
      ∧ pp_paid p' = true
      ∧ tokensRemaining p' = JS.ofZ r'
      ∧ 0 <= r' <= 100
      ∧ (inject_Z r' + granted run.1 == inject_Z 100)%Q
      ∧ ∀ other, other ≠ "a1b2"%string → run.2 !! other = Samples.sampleStore !! other.
Proof.
  cbv zeta.
  assert (Hr : 0 <= 100 <= 2 ^ 53) by lia.
  assert (Hreq : Forall (λ n, ∃ z, n = JS.ofZ z ∧ 0 <= z <= 2 ^ 53)
                   [JS.ofZ 30; JS.ofZ 80; JS.ofZ 50]).
  { repeat constructor; eexists; (split; [reflexivity | lia]). }
  split; [exact Hr|]. split; [exact Hreq|].
  exact (prepaid_budget_kept [JS.ofZ 30; JS.ofZ 80; JS.ofZ 50] Samples.sampleStore "a1b2"
           Samples.samplePrepaid 100 eq_refl eq_refl eq_refl Hr Hreq).
Defined.

Lemma usePrepaidTokens_negative_witness :
  0 <= 100
  ∧ -5 < 0
  ∧ 100 - -5 <= 2 ^ 53
  ∧ (usePrepaidTokens Samples.sampleStore "a1b2" (JS.ofZ (-5))).1
    = Granted (JS.ofZ (-5)) (JS.ofZ 105).
Proof.
  assert (Hr : 0 <= 100) by lia.
  assert (Hz : -5 < 0) by lia.
  assert (Hsum : 100 - -5 <= 2 ^ 53) by lia.
  split; [exact Hr|]. split; [exact Hz|]. split; [exact Hsum|].
  destruct (usePrepaidTokens_negative Samples.sampleStore "a1b2" Samples.samplePrepaid (-5) 100
              eq_refl eq_refl eq_refl Hr Hz Hsum) as (Hcall & _ & _).
  rewrite Hcall. reflexivity.
Defined.

Lemma prepaid_session_unpaid_witness :
  let run := createPrepaidSession Samples.samplePrepaidInvoice Samples.sampleMemo
               Scenario.sampleRandom Samples.samplePrepaidGateway 1000 "grok"
               (JS.ofZ 100) (JS.ofZ 24) in
  (of_sessionId <$> match run.1 with JS.Returns offer => Some offer | JS.Throws => None end)
  = Some "0"%string
  ∧ usePrepaidTokens (stored run.2) "0" (JS.ofZ 1)
    = (Refused "Session not paid" None, stored run.2).
Proof.
  cbv zeta.
  destruct (createPrepaidSession Samples.samplePrepaidInvoice Samples.sampleMemo
              Scenario.sampleRandom Samples.samplePrepaidGateway 1000 "grok"
              (JS.ofZ 100) (JS.ofZ 24)) as [[offer|] g'] eqn:Hrun;
    [|vm_compute in Hrun; discriminate].
  assert (Hid : of_sessionId offer = "0"%string).
  { vm_compute in Hrun. injection Hrun as <- _. reflexivity. }
  split; [cbn; rewrite Hid; reflexivity|].
  destruct (prepaid_session_unpaid Samples.samplePrepaidInvoice Samples.sampleMemo
              Scenario.sampleRandom Samples.samplePrepaidGateway 1000 "grok"
              (JS.ofZ 100) (JS.ofZ 24) offer g' Hrun)
    as (t & p & _ & _ & _ & _ & _ & Hrefused).
  cbn [snd]. rewrite <- Hid. apply Hrefused.
Defined.

End PrepaidFacts.

(** ** Properties of the router and of the chat route *)

Module ChatFacts.
Import Providers Chat ProvidersFacts.

(** [convertMessages] works message by message, in order: a message whose
    role is [system] is dropped, a message whose role is [assistant] is kept
    with that role, every other message is kept with the role [user]; the
    content of a message that is kept is not changed; converting again
    changes nothing. *)
Theorem convertMessages_roles :
  (∀ before after,
     convertMessages (before ++ after) = convertMessages before ++ convertMessages after)
  ∧ (∀ m, role m = Some "system"%string → convertMessages [m] = [])
  ∧ (∀ m, role m = Some "assistant"%string →
          convertMessages [m] = [ {| role := Some "assistant"%string; content := content m |} ])
  ∧ (∀ m, role m ≠ Some "system"%string → role m ≠ Some "assistant"%string →
          convertMessages [m] = [ {| role := Some "user"%string; content := content m |} ])
  ∧ (∀ messages, convertMessages (convertMessages messages) = convertMessages messages).
Proof.
  assert (Happ : ∀ before after,
             convertMessages (before ++ after)
             = convertMessages before ++ convertMessages after).
  { intros before after. unfold convertMessages.
    rewrite List.filter_app, fmap_app. reflexivity. }
  assert (Hsystem : ∀ m, role m = Some "system"%string → convertMessages [m] = []).
  { intros m Hm. unfold convertMessages, notSystem. cbn [List.filter].
    rewrite (bool_decide_eq_true_2 _ Hm). reflexivity. }
  assert (Hassistant : ∀ m, role m = Some "assistant"%string →
             convertMessages [m]
             = [ {| role := Some "assistant"%string; content := content m |} ]).
  { intros m Hm. unfold convertMessages, notSystem. cbn [List.filter].
    rewrite (bool_decide_eq_false_2 (role m = Some "system"%string))
      by (rewrite Hm; discriminate).
    cbn [negb fmap list_fmap]. rewrite (bool_decide_eq_true_2 _ Hm). reflexivity. }
  assert (Huser : ∀ m, role m ≠ Some "system"%string → role m ≠ Some "assistant"%string →
             convertMessages [m] = [ {| role := Some "user"%string; content := content m |} ]).
  { intros m Hs Ha. unfold convertMessages, notSystem. cbn [List.filter].
    rewrite (bool_decide_eq_false_2 _ Hs). cbn [negb fmap list_fmap].
    rewrite (bool_decide_eq_false_2 _ Ha). reflexivity. }
  split; [exact Happ|]. split; [exact Hsystem|]. split; [exact Hassistant|].
  split; [exact Huser|].
  induction messages as [|m messages IH]; [reflexivity|].
  change (m :: messages) with ([m] ++ messages).
  rewrite Happ, Happ, IH. f_equal.
  destruct (decide (role m = Some "system"%string)) as [Hs|Hs].
  { rewrite (Hsystem m Hs). reflexivity. }
  destruct (decide (role m = Some "assistant"%string)) as [Ha|Ha].
  - rewrite (Hassistant m Ha).
    exact (Hassistant {| role := Some "assistant"%string; content := content m |} eq_refl).
  - rewrite (Huser m Hs Ha).
    exact (Huser {| role := Some "user"%string; content := content m |}
             ltac:(discriminate) ltac:(discriminate)).
Qed.

(** A conversation of a system prompt, an answer and a tool result. *)
Lemma convertMessages_roles_witness :
  convertMessages
    ([ {| role := Some "system"%string; content := Some (JS.JStr "be brief") |} ]
     ++ [ {| role := Some "assistant"%string; content := Some (JS.JStr "hello") |} ]
     ++ [ {| role := Some "tool"%string; content := Some (JS.JStr "42") |} ])
  = [ {| role := Some "assistant"%string; content := Some (JS.JStr "hello") |};
      {| role := Some "user"%string; content := Some (JS.JStr "42") |} ].
Proof.
  destruct convertMessages_roles as (Happ & Hsystem & Hassistant & Huser & _).
  rewrite !Happ.
  rewrite (Hsystem {| role := Some "system"%string; content := Some (JS.JStr "be brief") |}
             eq_refl).
  rewrite (Hassistant
             {| role := Some "assistant"%string; content := Some (JS.JStr "hello") |}
             eq_refl).
  rewrite (Huser {| role := Some "tool"%string; content := Some (JS.JStr "42") |})
    by discriminate.
  reflexivity.
Defined.

(** *** Tokens counted while streaming *)

Lemma lengths_cons chunk chunks :
  lengths (chunk :: chunks) = Z.of_nat (length chunk) + lengths chunks.
Proof. unfold lengths. cbn [concat]. rewrite length_app. lia. Qed.

Lemma routerCountTokens_own providerName chunk :
  JS.inherited providerName = false →
  routerCountTokens providerName chunk = JS.Returns (ceil4 (Z.of_nat (length chunk))).
Proof.
  intros Hown. unfold routerCountTokens. rewrite Hown.
  destruct (existsb _ _); reflexivity.
Qed.

Lemma streamTokens_bounds providerName chunks : ∀ totalTokens,
  JS.inherited providerName = false →
  ∃ n, streamTokens providerName chunks totalTokens = JS.Returns (totalTokens + n)
       ∧ lengths chunks <= 4 * n <= lengths chunks + 3 * Z.of_nat (length chunks).
Proof.
  intros totalTokens Hown. revert totalTokens.
  induction chunks as [|chunk chunks IH]; intros totalTokens.
  - exists 0. cbn. split; [f_equal; lia | unfold lengths; cbn; lia].
  - cbn [streamTokens]. rewrite lengths_cons. cbn [length].
    destruct chunk as [|u chunk].
    + destruct (IH totalTokens) as (n & -> & Hn). exists n.
      split; [reflexivity | cbn [length]; lia].
    + rewrite routerCountTokens_own by exact Hown.
      destruct (IH (totalTokens + ceil4 (Z.of_nat (length (u :: chunk))))) as (n & -> & Hn).
      exists (ceil4 (Z.of_nat (length (u :: chunk))) + n).
      split; [f_equal; lia|].
      rewrite ceil4_eq in *. Z.div_mod_to_equations. lia.
Qed.

(** The tokens counted while streaming, for a provider of the router or an
    unknown name: chunk by chunk the route counts at least the tokens of the
    whole text, and at most one token more for each chunk. *)
Theorem streamTokens_overcount providerName chunks :
  JS.inherited providerName = false →
  ∃ n, streamTokens providerName chunks 0 = JS.Returns n
       ∧ countTokens (concat chunks) <= n
       ∧ n <= countTokens (concat chunks) + Z.of_nat (length chunks).
Proof.
  intros Hown. destruct (streamTokens_bounds providerName chunks 0 Hown) as (n & Hn & Hb).
  exists n. split; [exact Hn|]. unfold countTokens, estimate. fold (lengths chunks).
  rewrite ceil4_eq. Z.div_mod_to_equations. lia.
Qed.

Lemma streamTokens_overcount_witness :
  JS.inherited "grok" = false
  ∧ ∃ n, streamTokens "grok" [[72; 105]; []; [33; 33; 33; 33; 33]] 0 = JS.Returns n
         ∧ countTokens (concat [[72; 105]; []; [33; 33; 33; 33; 33]]) <= n
         ∧ n <= countTokens (concat [[72; 105]; []; [33; 33; 33; 33; 33]]) + 3.
Proof.
  split; [reflexivity|].
  exact (streamTokens_overcount "grok" [[72; 105]; []; [33; 33; 33; 33; 33]] eq_refl).
Defined.

(** *** The guards of the router *)



End ChatFacts.
